(** * file_big_ia: size-bounded document splitting and map-reduce orchestration

    A shallow embedding of
      - [lib/processor/splitters/pdf_splitter.py]  ([split_pdf], [sanitize_filename]),
      - [lib/processor/splitters/xlsx_splitter.py] ([split_xlsx]),
      - [lib/processor/handlers.py]                ([get_handler]),
      - [lib/processor/processor.py]               ([DocumentProcessor]),
      - [settings.py]                              (the two size constants),
    followed by the properties of the specification that were checked
    against it. *)

From Stdlib Require Import ZArith NArith Bool Lia String Ascii.
From Stdlib Require Import Permutation Sorted List.
Import ListNotations.

Local Open Scope Z_scope.

(* ================================================================== *)
(** * Python values *)

(** A Python [str] is a sequence of Unicode code points. *)
Definition pystr : Type := list N.

Definition of_string (s : string) : pystr :=
  map N_of_ascii (list_ascii_of_string s).

(** [len(s)] *)
Definition len_str (s : pystr) : Z := Z.of_nat (List.length s).

(** [s[:n]] for a non-negative [n]. *)
Definition slice_to (n : Z) (s : pystr) : pystr := firstn (Z.to_nat n) s.

(** [sep.join(parts)] *)
Fixpoint join (sep : pystr) (parts : list pystr) : pystr :=
  match parts with
  | [] => []
  | [p] => p
  | p :: rest => p ++ sep ++ join sep rest
  end.

(** [str(n)] for an integer. *)
Definition digit_char (d : Z) : N := (48 + Z.to_N d)%N.

Fixpoint digits_of (fuel : nat) (n : Z) (acc : pystr) : pystr :=
  match fuel with
  | O => acc
  | S fuel' =>
      if n <? 10 then digit_char n :: acc
      else digits_of fuel' (n / 10) (digit_char (n mod 10) :: acc)
  end.

Definition str_of_int (n : Z) : pystr :=
  if n <? 0 then 45%N :: digits_of (S (Z.to_nat (Z.log2 (- n)))) (- n) []
  else digits_of (S (Z.to_nat (Z.log2 n))) n [].

Definition NL : N := 10.
Definition SPACE : N := 32.
Definition TAB : N := 9.

(** Exceptions.  What the external collaborators raise is opaque and is
    told apart by a number; the two splitters wrap their cause. *)
Inductive exn : Type :=
| External (code : N)
| ValueError
| ZeroDivisionError
| PDFSplitError (cause : exn)
| XLSXSplitError (cause : exn).

(** Records written through [logger]; the message text is kept symbolic. *)
Inductive log_record : Type :=
| InfoConsolidatedSize (chars : Z)
| InfoNumChunks (n : Z)
| WarnContextTooLarge (chars : Z)
| WarnChunkExceedsLimit (size : Z) (sheets : list pystr)
| LogException (e : exn).

(* ================================================================== *)
(** * [sanitize_filename] (pdf_splitter.py) *)

Module Sanitize.

Definition between (lo hi c : N) : bool := ((lo <=? c) && (c <=? hi))%N.

(** What [\s] matches in a [str] pattern, and what [str.strip()] strips:
    the Unicode white space characters. *)
Definition is_space (c : N) : bool :=
  between 9 13 c || between 28 32 c || (c =? 133)%N || (c =? 160)%N
  || (c =? 5760)%N || between 8192 8202 c || (c =? 8232)%N || (c =? 8233)%N
  || (c =? 8239)%N || (c =? 8287)%N || (c =? 12288)%N.

Definition is_alnum (c : N) : bool :=
  between 97 122 c || between 65 90 c || between 48 57 c.

(** One of [-], [(], [)], [[], []]. *)
Definition is_punct (c : N) : bool :=
  (c =? 45)%N || (c =? 40)%N || (c =? 41)%N || (c =? 91)%N || (c =? 93)%N.

(** Membership in the class [a-zA-Z0-9\s\-\(\)\[\]]. *)
Definition in_class (c : N) : bool := is_alnum c || is_space c || is_punct c.

(** [name.replace(old, new)] for one-character [old] and [new]. *)
Definition replace (old new : N) (s : pystr) : pystr :=
  map (fun c => if (c =? old)%N then new else c) s.

(** [re.sub(r'[^a-zA-Z0-9\s\-\(\)\[\]]', '', name)] *)
Definition strip_outside_class (s : pystr) : pystr := filter in_class s.

(** [re.sub(r'\s+', ' ', name)]: every maximal run of white space becomes
    one space.  A white space character followed by another one is
    dropped; the last one of the run leaves the space. *)
Fixpoint collapse_spaces (s : pystr) : pystr :=
  match s with
  | [] => []
  | c :: rest =>
      if is_space c then
        match rest with
        | c' :: _ => if is_space c' then collapse_spaces rest
                     else SPACE :: collapse_spaces rest
        | [] => [SPACE]
        end
      else c :: collapse_spaces rest
  end.

Fixpoint lstrip (s : pystr) : pystr :=
  match s with
  | [] => []
  | c :: rest => if is_space c then lstrip rest else s
  end.

Definition rstrip (s : pystr) : pystr := rev (lstrip (rev s)).

(** [name.strip()] *)
Definition strip (s : pystr) : pystr := rstrip (lstrip s).

Definition sanitize_filename (name : pystr) : pystr :=
  let name := replace 46 SPACE (replace 95 SPACE name) in
  let name := strip_outside_class name in
  let name := collapse_spaces name in
  strip name.

(** The description of the result by words, to compare with the
    function: the name is cut at white space, underscores and periods,
    the characters outside letters, digits and [-()[]] are dropped from
    the pieces, and the pieces that are left non-empty are joined by
    single spaces. *)
Definition is_separator (c : N) : bool :=
  is_space c || (c =? 95)%N || (c =? 46)%N.

Definition is_visible (c : N) : bool := is_alnum c || is_punct c.

(** [words cur s]: the pieces of [s], where [cur] holds, reversed, the
    visible characters of the piece being read. *)
Fixpoint words (cur : pystr) (s : pystr) : list pystr :=
  match s with
  | [] => match cur with [] => [] | _ => [rev cur] end
  | c :: rest =>
      if is_separator c then
        match cur with
        | [] => words [] rest
        | _ => rev cur :: words [] rest
        end
      else if is_visible c then words (c :: cur) rest
      else words cur rest
  end.

Definition sanitize_by_words (name : pystr) : pystr :=
  join [SPACE] (words [] name).

(** The function as the specification words it, to compare with the
    one above: the class of the second step holds, of the white space
    characters, the space alone. *)
Definition in_claimed_class (c : N) : bool :=
  is_alnum c || (c =? SPACE)%N || is_punct c.

Definition sanitize_as_specified (name : pystr) : pystr :=
  let name := replace 46 SPACE (replace 95 SPACE name) in
  let name := filter in_claimed_class name in
  let name := collapse_spaces name in
  strip name.

(** ** Pieces of the argument *)

Definition nonspace (c : N) : Prop := is_space c = false.

Definition replaced (c : N) : N :=
  let c := if (c =? 95)%N then SPACE else c in
  if (c =? 46)%N then SPACE else c.

Definition cleaned (s : pystr) : pystr := strip_outside_class (map replaced s).

Definition well_formed_word (w : pystr) : Prop :=
  w <> [] /\ Forall (fun c => is_visible c = true) w.

End Sanitize.

(* ================================================================== *)
(** * Sorting the gathered results and consolidating (processor.py) *)

(** [settings.py] *)
Definition BYTES_THRESHOLD : Z := 4300000.
Definition MAX_CONTEXT_CHARS : Z := 150000.

(** A partial result: [(chunk_number, str(response))]. *)
Definition partial_result : Type := Z * pystr.

(** [results.sort(key=lambda x: x[0])]: a stable sort on the first
    component.  [insert_result r l] puts [r] in front of the first element
    whose key is not smaller, so that of equal keys the one that came
    first stays first. *)
Fixpoint insert_result (r : partial_result) (l : list partial_result)
  : list partial_result :=
  match l with
  | [] => [r]
  | r' :: rest =>
      if fst r <=? fst r' then r :: l else r' :: insert_result r rest
  end.

Fixpoint sort_results (l : list partial_result) : list partial_result :=
  match l with
  | [] => []
  | r :: rest => insert_result r (sort_results rest)
  end.

(** The orders of the keys, for the statements about the sort. *)
Definition key_le (r1 r2 : partial_result) : Prop := fst r1 <= fst r2.
Definition key_lt (r1 r2 : partial_result) : Prop := fst r1 < fst r2.

(** ["\n... [TRUNCATED]"] *)
Definition TRUNCATED_MARKER : pystr := NL :: of_string "... [TRUNCATED]".

(** [DocumentProcessor._consolidate_and_truncate]; the records logged on
    the way come with the result. *)
Definition _consolidate_and_truncate (responses : list pystr) (num_chunks : Z)
  : list log_record * pystr :=
  let consolidated := join [NL; NL] responses in
  let infos := [InfoConsolidatedSize (len_str consolidated);
                InfoNumChunks num_chunks] in
  if len_str consolidated >? MAX_CONTEXT_CHARS then
    (infos ++ [WarnContextTooLarge (len_str consolidated)],
     slice_to MAX_CONTEXT_CHARS consolidated ++ TRUNCATED_MARKER)
  else (infos, consolidated).

(** [enumerate(xs, 1)] *)
Fixpoint enumerate_from {A : Type} (start : Z) (xs : list A) : list (Z * A) :=
  match xs with
  | [] => []
  | x :: rest => (start, x) :: enumerate_from (start + 1) rest
  end.

(** Lines 222-229 of [_process_big]: from the gathered results to the
    consolidated context. *)
Definition consolidated_context_of (results : list partial_result)
    (num_chunks : Z) : pystr :=
  let results := sort_results results in
  let responses_from_chunks := map snd results in
  snd (_consolidate_and_truncate responses_from_chunks num_chunks).

(* ================================================================== *)
(** * Python floats *)

(** The splitter scales integers by float constants and truncates the
    product.  [F64] holds the finite non-negative binary64 numbers as
    [m * 2^e], with the operations rounding to nearest, ties to even, as
    the hardware does.  Sub-normal numbers and overflow lie far outside the
    values a document can produce and are not modelled. *)
Module F64.

Definition t : Type := (Z * Z)%type.

(** The integer nearest to [n / d], ties to even ([0 <= n], [0 < d]). *)
Definition nearest_even (n d : Z) : Z :=
  let q := n / d in
  let r := n mod d in
  if 2 * r <? d then q
  else if d <? 2 * r then q + 1
  else if Z.even q then q else q + 1.

(** [n / (d * 2^e)] as a fraction of integers. *)
Definition scaled (n d e : Z) : Z * Z :=
  if 0 <=? e then (n, d * 2 ^ e) else (n * 2 ^ (- e), d).

(** The binary64 number nearest to the fraction [n / d]: the exponent
    is chosen so that the quotient has 53 significant bits. *)
Definition round (n d : Z) : t :=
  if n <=? 0 then (0, 0)
  else
    let e0 := Z.log2 n - Z.log2 d - 53 in
    let '(n0, d0) := scaled n d e0 in
    let e := if n0 / d0 <? 2 ^ 53 then e0 else e0 + 1 in
    let '(n1, d1) := scaled n d e in
    (nearest_even n1 d1, e).

(** [float(z)] *)
Definition of_Z (z : Z) : t := round z 1.

(** [x * y] *)
Definition mul (x y : t) : t :=
  let '(m1, e1) := x in
  let '(m2, e2) := y in
  let '(n, d) := scaled (m1 * m2) 1 (- (e1 + e2)) in
  round n d.

(** [x / y]; [None] stands for [ZeroDivisionError]. *)
Definition div (x y : t) : option t :=
  let '(m1, e1) := x in
  let '(m2, e2) := y in
  if m2 =? 0 then None
  else
    let '(n, d) := scaled m1 m2 (e2 - e1) in
    Some (round n d).

(** [int(x)] *)
Definition trunc (x : t) : Z :=
  let '(m, e) := x in
  if 0 <=? e then m * 2 ^ e else m / 2 ^ (- e).

(** [z < x] and [z > x] for an integer [z]; Python compares an [int]
    with a [float] exactly. *)
Definition Z_ltb (z : Z) (x : t) : bool :=
  let '(m, e) := x in
  if 0 <=? e then z <? m * 2 ^ e else z * 2 ^ (- e) <? m.

Definition Z_gtb (z : Z) (x : t) : bool :=
  let '(m, e) := x in
  if 0 <=? e then m * 2 ^ e <? z else m <? z * 2 ^ (- e).

(** [int(z * c)] for the decimal literal [c = num / den]. *)
Definition int_mul (z : Z) (num den : Z) : Z :=
  trunc (mul (of_Z z) (round num den)).

(** The number is at least one. *)
Definition ge_one (x : t) : Prop :=
  0 < fst x /\ (snd x < 0 -> 2 ^ (- snd x) <= fst x).

End F64.

(* ================================================================== *)
(** * Byte strings and the document libraries *)

(** The result of a call into a library, the file system or the agent. *)
Inductive result (A : Type) : Type :=
| Ok (a : A)
| Err (e : exn).
Arguments Ok {A} a.
Arguments Err {A} e.

(** The outcome of a function of this program.  [Diverged] stands for a
    call that never returns: a loop whose bound ran out, or tasks that
    wait for each other for ever. *)
Inductive outcome (A : Type) : Type :=
| Returned (a : A)
| Raised (e : exn)
| Diverged.
Arguments Returned {A} a.
Arguments Raised {A} e.
Arguments Diverged {A}.

(** [bytes]: the program only takes the length of a byte string and
    hands it on. *)
Class Bytes : Type := {
  bytes : Type;
  len : bytes -> Z;
  len_nonneg : forall b, 0 <= len b
}.

(** PyMuPDF, as [split_pdf] uses it. *)
Class Fitz `{Bytes} : Type := {
  pdf_doc : Type;
  (** [fitz.open(stream=file_bytes, filetype="pdf")] *)
  fitz_open : bytes -> result pdf_doc;
  (** [src_doc.page_count] *)
  page_count : pdf_doc -> N;
  (** A new document that receives the pages [from_page .. to_page] of
      the source ([insert_pdf]), saved with [garbage=4, deflate=True]:
      the bytes of the buffer. *)
  save_pages : pdf_doc -> Z -> Z -> result bytes
}.

(** python-calamine and openpyxl, as [split_xlsx] uses them. *)
Class Xlsx `{Bytes} : Type := {
  workbook : Type;
  (** [CalamineWorkbook.from_filelike(io.BytesIO(file_bytes)).sheet_names] *)
  calamine_sheet_names : bytes -> result (list pystr);
  (** [load_workbook(io.BytesIO(file_bytes))] *)
  load_workbook : bytes -> result workbook;
  (** A new [Workbook] without its default sheet, into which the named
      sheets of [wb] are copied cell by cell, saved to a buffer: the
      bytes of the buffer. *)
  save_sheets : workbook -> list pystr -> result bytes
}.

(* ================================================================== *)
(** * [split_pdf] (pdf_splitter.py) *)

Module PdfSplitter.
Section WithFitz.
Context {B : Bytes} {F : Fitz}.

Definition TARGET_LIMIT_BYTES : Z := 4 * 1024 * 1024.

(** [int(TARGET_LIMIT_BYTES * 0.90)] *)
Definition SOFT_TARGET_BYTES : Z := F64.int_mul TARGET_LIMIT_BYTES 90 100.

(** The batch size for the next range after a chunk of [current_size]
    bytes was accepted (lines 75-79). *)
Definition adjust_batch_size (current_size batch_size : Z) : Z :=
  if F64.Z_ltb current_size
       (F64.mul (F64.of_Z SOFT_TARGET_BYTES) (F64.round 5 10))
  then F64.int_mul batch_size 15 10
  else if F64.Z_gtb current_size
            (F64.mul (F64.of_Z SOFT_TARGET_BYTES) (F64.round 95 100))
  then Z.max 1 (F64.int_mul batch_size 9 10)
  else batch_size.

(** The batch size for the retry after an oversized chunk (lines 86-91). *)
Definition reduce_batch_size (batch_size : Z) : Z :=
  let new_batch_size := F64.int_mul batch_size 7 10 in
  let new_batch_size :=
    if new_batch_size >=? batch_size then batch_size - 1 else new_batch_size in
  Z.max 1 new_batch_size.

(** One pass through the body of the retry loop. *)
Inductive attempt : Type :=
| Accepted (chunk_data : bytes) (end_page : Z) (batch_size : Z)
| Retry (batch_size : Z)
| Failed (e : exn).

Definition try_batch (src_doc : pdf_doc) (total_pages current_page batch_size : Z)
  : attempt :=
  let end_page := Z.min (current_page + batch_size) total_pages in
  match save_pages src_doc current_page (end_page - 1) with
  | Err e => Failed e
  | Ok chunk_data =>
      let current_size := len chunk_data in
      if (current_size <=? TARGET_LIMIT_BYTES) || (batch_size =? 1) then
        Accepted chunk_data end_page (adjust_batch_size current_size batch_size)
      else Retry (reduce_batch_size batch_size)
  end.

(** The retry loop [while True] (lines 50-91), left by [break] with the
    accepted chunk, the new page cursor and the next batch size.
    [fuel] bounds the number of passes. *)
Fixpoint retry_loop (fuel : nat) (src_doc : pdf_doc)
    (total_pages current_page batch_size : Z) : outcome (bytes * Z * Z) :=
  match fuel with
  | O => Diverged
  | S fuel' =>
      match try_batch src_doc total_pages current_page batch_size with
      | Accepted chunk_data end_page batch_size' =>
          Returned (chunk_data, end_page, batch_size')
      | Retry batch_size' =>
          retry_loop fuel' src_doc total_pages current_page batch_size'
      | Failed e => Raised e
      end
  end.

(** The loop [while current_page < total_pages] (lines 48-91).  [fuel]
    bounds the number of chunks; each retry loop gets as many passes as
    its first batch has pages. *)
Fixpoint page_loop (fuel : nat) (src_doc : pdf_doc)
    (total_pages current_page batch_size : Z) (chunks : list bytes)
  : outcome (list bytes) :=
  if current_page <? total_pages then
    match fuel with
    | O => Diverged
    | S fuel' =>
        match retry_loop (Z.to_nat batch_size) src_doc total_pages
                current_page batch_size with
        | Returned (chunk_data, end_page, batch_size') =>
            page_loop fuel' src_doc total_pages end_page batch_size'
              (chunks ++ [chunk_data])
        | Raised e => Raised e
        | Diverged => Diverged
        end
    end
  else Returned chunks.

(** [max(1, int(SOFT_TARGET_BYTES / avg_bytes_page))] with
    [avg_bytes_page = len(file_bytes) / total_pages]. *)
Definition initial_batch_size (file_size total_pages : Z) : result Z :=
  let avg_bytes_page := F64.round file_size total_pages in
  match F64.div (F64.of_Z SOFT_TARGET_BYTES) avg_bytes_page with
  | None => Err ZeroDivisionError
  | Some q => Ok (Z.max 1 (F64.trunc q))
  end.

(** The body of the [try] block. *)
Definition split_pdf_body (file_bytes : bytes) : outcome (list bytes) :=
  match fitz_open file_bytes with
  | Err e => Raised e
  | Ok src_doc =>
      let total_pages := Z.of_N (page_count src_doc) in
      if total_pages =? 0 then Returned []
      else
        match initial_batch_size (len file_bytes) total_pages with
        | Err e => Raised e
        | Ok batch_size =>
            page_loop (Z.to_nat total_pages) src_doc total_pages 0 batch_size []
        end
  end.

(** [split_pdf]: what was logged, and the outcome. *)
Definition split_pdf (file_bytes : bytes) : list log_record * outcome (list bytes) :=
  if len file_bytes <? TARGET_LIMIT_BYTES then ([], Returned [file_bytes])
  else
    match split_pdf_body file_bytes with
    | Raised e => ([LogException e], Raised (PDFSplitError e))
    | other => ([], other)
    end.

(** An accepted chunk is within the limit or holds exactly one page. *)
Definition within_limit_or_one_page (src_doc : pdf_doc) (total_pages : Z)
    (chunk : bytes) : Prop :=
  len chunk <= TARGET_LIMIT_BYTES
  \/ exists p, 0 <= p < total_pages /\ save_pages src_doc p p = Ok chunk.

End WithFitz.
End PdfSplitter.

(* ================================================================== *)
(** * [split_xlsx] (xlsx_splitter.py) *)

Module XlsxSplitter.
Section WithXlsx.
Context {B : Bytes} {X : Xlsx}.

Definition TARGET_LIMIT_BYTES : Z := 4 * 1024 * 1024.
Definition SOFT_TARGET_BYTES : Z := F64.int_mul TARGET_LIMIT_BYTES 90 100.

Definition is_empty {A : Type} (l : list A) : bool :=
  match l with [] => true | _ => false end.

(** The state of the loop over the sheets. *)
Record acc : Type := {
  chunks : list bytes;
  current_sheets : list pystr;
  current_size_estimate : Z;
  logged : list log_record
}.

(** The warning of lines 101-105. *)
Definition warn_if_oversized (chunk_data : bytes) (sheets : list pystr)
  : list log_record :=
  if len chunk_data >? TARGET_LIMIT_BYTES
  then [WarnChunkExceedsLimit (len chunk_data) sheets] else [].

(** [for sheet_name in sheet_names] (lines 48-116).  On an exception the
    records logged so far come with it. *)
Fixpoint sheet_loop (wb : workbook) (sheet_names : list pystr) (a : acc)
  : list log_record * outcome acc :=
  match sheet_names with
  | [] => (logged a, Returned a)
  | sheet_name :: rest =>
      match save_sheets wb [sheet_name] with
      | Err e => (logged a, Raised e)
      | Ok buffer =>
          let sheet_size := len buffer in
          if (current_size_estimate a + sheet_size >? SOFT_TARGET_BYTES)
             && negb (is_empty (current_sheets a)) then
            match save_sheets wb (current_sheets a) with
            | Err e => (logged a, Raised e)
            | Ok chunk_data =>
                sheet_loop wb rest
                  {| chunks := chunks a ++ [chunk_data];
                     current_sheets := [sheet_name];
                     current_size_estimate := sheet_size;
                     logged := logged a
                               ++ warn_if_oversized chunk_data (current_sheets a) |}
            end
          else
            sheet_loop wb rest
              {| chunks := chunks a;
                 current_sheets := current_sheets a ++ [sheet_name];
                 current_size_estimate := current_size_estimate a + sheet_size;
                 logged := logged a |}
      end
  end.

(** The last chunk (lines 119-141). *)
Definition flush_pending (wb : workbook) (a : acc) : outcome (list bytes) :=
  if is_empty (current_sheets a) then Returned (chunks a)
  else
    match save_sheets wb (current_sheets a) with
    | Err e => Raised e
    | Ok chunk_data => Returned (chunks a ++ [chunk_data])
    end.

(** The body of the [try] block. *)
Definition split_xlsx_body (file_bytes : bytes)
  : list log_record * outcome (list bytes) :=
  match calamine_sheet_names file_bytes with
  | Err e => ([], Raised e)
  | Ok sheet_names =>
      if is_empty sheet_names then ([], Returned [])
      else if len file_bytes <? TARGET_LIMIT_BYTES then ([], Returned [file_bytes])
      else
        match load_workbook file_bytes with
        | Err e => ([], Raised e)
        | Ok wb =>
            match sheet_loop wb sheet_names
                    {| chunks := []; current_sheets := [];
                       current_size_estimate := 0; logged := [] |} with
            | (log, Returned a) => (log, flush_pending wb a)
            | (log, Raised e) => (log, Raised e)
            | (log, Diverged) => (log, Diverged)
            end
        end
  end.

(** [split_xlsx]: what was logged, and the outcome. *)
Definition split_xlsx (file_bytes : bytes)
  : list log_record * outcome (list bytes) :=
  match split_xlsx_body file_bytes with
  | (log, Raised e) => (log ++ [LogException e], Raised (XLSXSplitError e))
  | other => other
  end.

(** The size a sheet serializes to on its own: the estimate of the loop. *)
Definition estimate (wb : workbook) (sheet_name : pystr) : Z :=
  match save_sheets wb [sheet_name] with
  | Ok buffer => len buffer
  | Err _ => 0
  end.

Definition sum_estimates (wb : workbook) (sheet_names : list pystr) : Z :=
  fold_right Z.add 0 (map (estimate wb) sheet_names).

(** What the estimates are for: sheets saved together take no more
    bytes than the same sheets saved one by one. *)
Definition group_within_estimates : Prop :=
  forall wb sheet_names chunk,
    save_sheets wb sheet_names = Ok chunk ->
    len chunk <= sum_estimates wb sheet_names.

Definition within_limit_or_one_sheet (wb : workbook) (chunk : bytes) : Prop :=
  len chunk <= TARGET_LIMIT_BYTES
  \/ exists sheet_name, save_sheets wb [sheet_name] = Ok chunk.

Definition warned (records : list log_record) (chunk : bytes) : Prop :=
  TARGET_LIMIT_BYTES < len chunk ->
  exists sheets, In (WarnChunkExceedsLimit (len chunk) sheets) records.

Record invariant (wb : workbook) (a : acc) : Prop := {
  inv_estimate : current_size_estimate a = sum_estimates wb (current_sheets a);
  inv_group : (length (current_sheets a) <= 1)%nat
              \/ current_size_estimate a <= SOFT_TARGET_BYTES;
  inv_chunks : Forall (within_limit_or_one_sheet wb) (chunks a);
  inv_warned : Forall (warned (logged a)) (chunks a)
}.

End WithXlsx.
End XlsxSplitter.

(* ================================================================== *)
(** * Handlers (handlers.py) *)

Inductive handler : Type :=
| PDFHandler
| XLSXHandler
| GenericHandler (format : pystr).

Fixpoint pystr_eqb (s1 s2 : pystr) : bool :=
  match s1, s2 with
  | [], [] => true
  | c1 :: r1, c2 :: r2 => (c1 =? c2)%N && pystr_eqb r1 r2
  | _, _ => false
  end.

(** [handler.format] *)
Definition handler_format (h : handler) : pystr :=
  match h with
  | PDFHandler => of_string "pdf"
  | XLSXHandler => of_string "xlsx"
  | GenericHandler format => format
  end.

(** [handler.split(file_bytes)] *)
Definition handler_split `{B : Bytes} {F : Fitz} {X : Xlsx} (h : handler)
    (file_bytes : bytes) : list log_record * outcome (list bytes) :=
  match h with
  | PDFHandler => PdfSplitter.split_pdf file_bytes
  | XLSXHandler => XlsxSplitter.split_xlsx file_bytes
  | GenericHandler _ => ([], Returned [file_bytes])
  end.

(* ================================================================== *)
(** * Messages, agents and the world around the processor *)

Inductive content `{Bytes} : Type :=
| Document (format name : pystr) (source : bytes)
| Text (text : pystr).

Record message `{Bytes} : Type := {
  role : pystr;
  content_list : list content
}.

(** [prompts.py] *)
Inductive system_prompt : Type := SYSTEM_PROMPT | SYSTEM_CHUNK_PROMPT.

(** The agent handed to the constructor ([self.agent]), or one made by
    [_create_agent]. *)
Inductive agent : Type :=
| SelfAgent
| CreatedAgent (model : pystr) (prompt : system_prompt) (with_callback : bool).

(** An event of [stream_async] is a dictionary; the program looks at two
    of its keys. *)
Record stream_event : Type := {
  data : option pystr;       (* [str(event["data"])] when the key is there *)
  has_message : bool         (* ["message" in event] *)
}.

Class World `{Bytes} : Type := {
  path : Type;
  listener : Type;
  (** [file_path.suffix.lower()] *)
  suffix_lower : path -> pystr;
  (** [Path(file.path).read_bytes()] *)
  read_bytes : path -> result bytes;
  (** [str(await agent.invoke_async(messages))] *)
  invoke_async : agent -> list message -> result pystr;
  (** [agent.stream_async(messages)]: the events, and how the stream ends. *)
  stream_async : agent -> list message -> list stream_event * result unit
}.

(** [get_handler] (handlers.py): the registry has two entries, any
    other suffix gives a generic handler for [suffix[1:]]. *)
Definition get_handler `{World} (file_path : path) : handler :=
  let suffix := suffix_lower file_path in
  if pystr_eqb suffix (of_string ".pdf") then PDFHandler
  else if pystr_eqb suffix (of_string ".xlsx") then XLSXHandler
  else GenericHandler (tl suffix).

(* ================================================================== *)
(** * [DocumentProcessor] (processor.py) *)

Module Processor.
Section WithWorld.
Context {B : Bytes} {F : Fitz} {X : Xlsx} {W : World}.

Record DocumentFile : Type := {
  file_path : path;
  file_name : pystr
}.

Record DocumentProcessor : Type := {
  model : pystr;
  max_workers : Z;
  listeners : list listener
}.

(** What a run does that can be seen from outside, in order: the hooks
    of the listeners, the requests to an agent, the fragments yielded
    to the caller, the records logged.  The hooks are taken to return
    normally. *)
Inductive event : Type :=
| on_processing_start (l : listener) (file_name : pystr) (total_chunks : Z)
| on_chunk_start (l : listener) (chunk_number : Z) (file_name : pystr)
| on_chunk_end (l : listener) (chunk_number : Z) (file_name response : pystr)
| on_processing_end (l : listener) (file_name : pystr)
| on_error (l : listener) (error : exn)
| on_summary_start (l : listener)
| on_summary_end (l : listener)
| invoke_request (a : agent) (messages : list message)
| stream_request (a : agent) (messages : list message)
| yielded (fragment : pystr)
| log (r : log_record).

(** A computation: the events it gives rise to, and its outcome. *)
Definition M (A : Type) : Type := (list event * outcome A)%type.

Definition ret {A : Type} (a : A) : M A := ([], Returned a).
Definition raise {A : Type} (e : exn) : M A := ([], Raised e).
Definition emit (events : list event) : M unit := (events, Returned tt).

Definition bind {A C : Type} (m : M A) (k : A -> M C) : M C :=
  match m with
  | (t, Returned a) => let '(t', o) := k a in (t ++ t', o)
  | (t, Raised e) => (t, Raised e)
  | (t, Diverged) => (t, Diverged)
  end.

(** [try: m  except Exception as e: handler e] *)
Definition try_except {A : Type} (m : M A) (handler : exn -> M A) : M A :=
  match m with
  | (t, Raised e) => let '(t', o) := handler e in (t ++ t', o)
  | _ => m
  end.

Definition of_result {A : Type} (r : result A) : M A :=
  match r with
  | Ok a => ret a
  | Err e => raise e
  end.

Definition of_logged {A : Type} (r : list log_record * outcome A) : M A :=
  (map log (fst r), snd r).

Notation "x <- m ;; k" := (bind m (fun x => k))
  (at level 61, m at next level, right associativity).
Notation "m ;; k" := (bind m (fun _ => k))
  (at level 61, right associativity).

Definition _notify_processing_start (self : DocumentProcessor)
    (file_name : pystr) (total_chunks : Z) : M unit :=
  emit (map (fun l => on_processing_start l file_name total_chunks) (listeners self)).

Definition _notify_chunk_start (self : DocumentProcessor)
    (chunk_number : Z) (file_name : pystr) : M unit :=
  emit (map (fun l => on_chunk_start l chunk_number file_name) (listeners self)).

Definition _notify_chunk_end (self : DocumentProcessor)
    (chunk_number : Z) (file_name response : pystr) : M unit :=
  emit (map (fun l => on_chunk_end l chunk_number file_name response) (listeners self)).

Definition _notify_processing_end (self : DocumentProcessor)
    (file_name : pystr) : M unit :=
  emit (map (fun l => on_processing_end l file_name) (listeners self)).

Definition _notify_error (self : DocumentProcessor) (error : exn) : M unit :=
  emit (map (fun l => on_error l error) (listeners self)).

Definition _notify_summary_start (self : DocumentProcessor) : M unit :=
  emit (map on_summary_start (listeners self)).

Definition _notify_summary_end (self : DocumentProcessor) : M unit :=
  emit (map on_summary_end (listeners self)).

Definition _create_agent (self : DocumentProcessor) (prompt : system_prompt)
    (with_callback : bool) : agent :=
  CreatedAgent (model self) prompt with_callback.

Definition _create_document_message (file_format file_name : pystr)
    (file_bytes : bytes) (text : pystr) : list message :=
  [ {| role := of_string "user";
       content_list := [Document file_format file_name file_bytes; Text text] |} ].

(** [async for event in agent.stream_async(messages)] with its two
    [yield]s. *)
Definition fragment_of (ev : stream_event) : list event :=
  match data ev with
  | Some d => [yielded d]
  | None => if has_message ev then [yielded [NL]] else []
  end.

Definition stream_to_caller (a : agent) (messages : list message) : M unit :=
  let '(events, final) := stream_async a messages in
  (stream_request a messages :: flat_map fragment_of events,
   match final with
   | Ok _ => Returned tt
   | Err e => Raised e
   end).

(** ** Tasks and [asyncio.gather] *)

(** A task runs up to its request ([on_start]) when it is let in, and
    from the answer to its end ([on_finish]) when the answer is there. *)
Record task (A : Type) : Type := {
  on_start : list event;
  on_finish : M A
}.
Arguments on_start {A} t.
Arguments on_finish {A} t.

(** The tasks waiting at the semaphore are let in, in order, while
    there is a free slot; [None] is no bound. *)
Fixpoint let_in {A : Type} (free : option nat) (pending : list (task A))
  : list event * list (task A) * list (task A) :=
  match pending with
  | [] => ([], [], [])
  | t :: rest =>
      match free with
      | Some O => ([], [], pending)
      | Some (S k) =>
          let '(evs, started, waiting) := let_in (Some k) rest in
          (on_start t ++ evs, t :: started, waiting)
      | None =>
          let '(evs, started, waiting) := let_in None rest in
          (on_start t ++ evs, t :: started, waiting)
      end
  end.

(** After an exception the other tasks are not cancelled: they go on,
    those that wait are let in as slots get free, for as long as the loop
    runs, which here is for as long as [order] lasts.  Their results and
    their exceptions are lost; what they do is not. *)
Fixpoint linger {A : Type} (capacity : option nat) (order : list nat)
    (pending running : list (task A)) (stuck : nat) : list event :=
  match order with
  | [] => []
  | next :: order' =>
      let free := option_map (fun c => (c - length running - stuck)%nat) capacity in
      let '(evs, started, pending) := let_in free pending in
      let running := running ++ started in
      let i := (next mod length running)%nat in
      match skipn i running with
      | [] => evs
      | t :: after =>
          let running := firstn i running ++ after in
          let '(evs_t, o) := on_finish t in
          evs ++ evs_t
          ++ linger capacity order' pending running
               (match o with Diverged => S stuck | _ => stuck end)
      end
  end.

(** The event loop.  [order] tells which of the running tasks gets its
    answer next; a task whose end never comes keeps its slot ([stuck]).
    The first exception is the outcome; the tasks that are left go on
    ([linger]). *)
Fixpoint gather_loop {A : Type} (fuel : nat) (capacity : option nat)
    (order : list nat) (pending running : list (task A)) (stuck : nat)
  : list event * outcome unit :=
  match fuel with
  | O => ([], Diverged)
  | S fuel' =>
      let free := option_map (fun c => (c - length running - stuck)%nat) capacity in
      let '(evs, started, pending) := let_in free pending in
      let running := running ++ started in
      match running with
      | [] =>
          (evs, match pending, stuck with
                | [], O => Returned tt
                | _, _ => Diverged
                end)
      | _ :: _ =>
          let i := (hd O order mod length running)%nat in
          match skipn i running with
          | [] => (evs, Diverged)
          | t :: after =>
              let running := firstn i running ++ after in
              let '(evs_t, o) := on_finish t in
              match o with
              | Raised e =>
                  (evs ++ evs_t
                   ++ linger capacity (tl order) pending running stuck,
                   Raised e)
              | Returned _ =>
                  let '(evs', o') :=
                    gather_loop fuel' capacity (tl order) pending running stuck in
                  (evs ++ evs_t ++ evs', o')
              | Diverged =>
                  let '(evs', o') :=
                    gather_loop fuel' capacity (tl order) pending running (S stuck) in
                  (evs ++ evs_t ++ evs', o')
              end
          end
      end
  end.

(** The values of the tasks in the order of the tasks. *)
Fixpoint values_of {A : Type} (tasks : list (task A)) : option (list A) :=
  match tasks with
  | [] => Some []
  | t :: rest =>
      match snd (on_finish t), values_of rest with
      | Returned a, Some l => Some (a :: l)
      | _, _ => None
      end
  end.

(** [await asyncio.gather] over the tasks: the first exception is raised to the
    awaiting caller, and the other tasks are left running; without one
    the results come in the order of the arguments, whatever the order of
    completion. *)
Definition gather {A : Type} (capacity : option nat) (order : list nat)
    (tasks : list (task A)) : M (list A) :=
  match gather_loop (S (length tasks)) capacity order tasks [] O with
  | (evs, Returned _) =>
      match values_of tasks with
      | Some l => (evs, Returned l)
      | None => (evs, Diverged)
      end
  | (evs, Raised e) => (evs, Raised e)
  | (evs, Diverged) => (evs, Diverged)
  end.

(** ** The methods *)

Definition chunk_text (question : pystr) : pystr :=
  of_string "Este es un fragmento del archivo. La pregunta del usuario es: ```"
  ++ question ++ of_string "```.".

Definition file_text (question : pystr) : pystr :=
  of_string "La pregunta del usuario es: ```" ++ question ++ of_string "```.".

(** [_process_chunk], as the task it is for [gather]; its slot of the
    semaphore is the one [gather] is given as capacity. *)
Definition _process_chunk (self : DocumentProcessor) (chunk : bytes)
    (chunk_number : Z) (file_name question file_format : pystr)
  : task partial_result :=
  let agent := _create_agent self SYSTEM_CHUNK_PROMPT false in
  let name := file_name ++ of_string "_" ++ str_of_int chunk_number in
  let text := chunk_text question in
  let messages := _create_document_message file_format name chunk text in
  {| on_start :=
       fst (_notify_chunk_start self chunk_number file_name)
       ++ [invoke_request agent messages];
     on_finish :=
       try_except
         (response <- of_result (invoke_async agent messages) ;;
          _notify_chunk_end self chunk_number file_name response ;;
          ret (chunk_number, response))
         (fun e => _notify_error self e ;; raise e) |}.

Definition indent : pystr := repeat SPACE 12.
Definition QUOTE : N := 34.

(** The text of the final request of [_process_big]. *)
Definition final_text (num_chunks : Z) (consolidated_context question : pystr)
  : pystr :=
  [NL]
  ++ indent ++ of_string "STATUS: " ++ str_of_int num_chunks
  ++ of_string " fragments of the original file have been analyzed." ++ [NL]
  ++ indent ++ of_string "Below are the partial analyses extracted from each fragment:"
  ++ [NL; NL]
  ++ indent ++ consolidated_context ++ [NL; NL]
  ++ indent
  ++ of_string "---------------------------------------------------------------------"
  ++ [NL]
  ++ indent ++ of_string "FINAL INSTRUCTION:" ++ [NL]
  ++ indent
  ++ of_string "Based EXCLUSIVELY on the consolidated information above, respond to the following user request."
  ++ [NL]
  ++ indent
  ++ of_string "If information is repeated across multiple fragments, unify it."
  ++ [NL]
  ++ indent ++ of_string "If there are contradictions, point out the discrepancy."
  ++ [NL; NL]
  ++ indent ++ of_string "USER REQUEST:" ++ [NL]
  ++ indent ++ [QUOTE] ++ question ++ [QUOTE] ++ [NL]
  ++ indent.

Definition _process (self : DocumentProcessor) (file_bytes : bytes)
    (file : DocumentFile) (question : pystr) (with_callback : bool) : M unit :=
  let handler := get_handler (file_path file) in
  let file_name := Sanitize.sanitize_filename (file_name file) in
  _notify_processing_start self file_name 1 ;;
  try_except
    (let agent := _create_agent self SYSTEM_PROMPT with_callback in
     let text := file_text question in
     let messages :=
       _create_document_message (handler_format handler) file_name file_bytes text in
     stream_to_caller agent messages ;;
     _notify_processing_end self file_name)
    (fun e => _notify_error self e ;; raise e).

(** [asyncio.Semaphore(self.max_workers)] *)
Definition new_semaphore (value : Z) : M nat :=
  if value <? 0 then raise ValueError else ret (Z.to_nat value).

Definition _process_big (self : DocumentProcessor) (order : list nat)
    (file_bytes : bytes) (file : DocumentFile) (question : pystr)
    (with_callback : bool) : M unit :=
  let handler := get_handler (file_path file) in
  chunks <- of_logged (handler_split handler file_bytes) ;;
  let file_name := Sanitize.sanitize_filename (file_name file) in
  _notify_processing_start self file_name (Z.of_nat (length chunks)) ;;
  semaphore <- new_semaphore (max_workers self) ;;
  let tasks :=
    map (fun '(i, chunk) =>
           _process_chunk self chunk i file_name question (handler_format handler))
        (enumerate_from 1 chunks) in
  results <- gather (Some semaphore) order tasks ;;
  let results := sort_results results in
  let responses_from_chunks := map snd results in
  _notify_processing_end self file_name ;;
  let agent := _create_agent self SYSTEM_PROMPT with_callback in
  consolidated_context <-
    of_logged
      (let '(records, text) :=
         _consolidate_and_truncate responses_from_chunks (Z.of_nat (length chunks)) in
       (records, Returned text)) ;;
  let final_payload :=
    [ {| role := of_string "user";
         content_list :=
           [Text (final_text (Z.of_nat (length chunks)) consolidated_context question)] |} ] in
  stream_to_caller agent final_payload.

Definition _process_file (self : DocumentProcessor) (order : list nat)
    (file : DocumentFile) (question : pystr) (with_callback : bool) : M unit :=
  file_bytes <- of_result (read_bytes (file_path file)) ;;
  if len file_bytes >? BYTES_THRESHOLD
  then _process_big self order file_bytes file question with_callback
  else _process self file_bytes file question with_callback.

Definition fragments_of (events : list event) : list pystr :=
  flat_map (fun ev => match ev with yielded s => [s] | _ => [] end) events.

Definition is_yielded (ev : event) : bool :=
  match ev with yielded _ => true | _ => false end.

Definition is_on_error (ev : event) : bool :=
  match ev with on_error _ _ => true | _ => false end.

Definition is_stream_request (ev : event) : bool :=
  match ev with stream_request _ _ => true | _ => false end.

Definition is_log (ev : event) : bool :=
  match ev with log _ => true | _ => false end.

(** [_collect_file_content]: the fragments are not handed on but joined. *)
Definition _collect_file_content (self : DocumentProcessor) (order : list nat)
    (file : DocumentFile) (question : pystr) : M pystr :=
  let '(events, o) := _process_file self order file question false in
  (filter (fun ev => negb (is_yielded ev)) events,
   match o with
   | Returned _ => Returned (concat (fragments_of events))
   | Raised e => Raised e
   | Diverged => Diverged
   end).

(** The orders of completion of a run: of the files, and of the chunks
    of the file at each position. *)
Record completion : Type := {
  file_order : list nat;
  chunk_order : nat -> list nat
}.

Fixpoint file_tasks (self : DocumentProcessor) (c : completion) (position : nat)
    (files : list DocumentFile) (question : pystr) : list (task pystr) :=
  match files with
  | [] => []
  | file :: rest =>
      {| on_start := [];
         on_finish :=
           _collect_file_content self (chunk_order c position) file question |}
      :: file_tasks self c (S position) rest question
  end.

(** [process]; the files of a call with several files run as tasks that
    are not interleaved with each other here. *)
Definition process (self : DocumentProcessor) (c : completion)
    (files : list DocumentFile) (question : pystr) : M unit :=
  match files with
  | [file] => _process_file self (chunk_order c O) file question false
  | _ =>
      let tasks := file_tasks self c O files question in
      results <- gather None (file_order c) tasks ;;
      let content := map Text results in
      let messages := [ {| role := of_string "user"; content_list := content |} ] in
      _notify_summary_start self ;;
      stream_to_caller SelfAgent messages ;;
      _notify_summary_end self
  end.

(** ** Tasks that notify their own failure *)

(** An event that is neither an error hook, nor a streamed request, nor
    a record logged. *)
Definition calm (ev : event) : Prop :=
  is_on_error ev = false /\ is_stream_request ev = false /\ is_log ev = false.

Definition error_hooks (self : DocumentProcessor) (e : exn) : list event :=
  map (fun l => on_error l e) (listeners self).

(** A task that, when it fails, has told the listeners so and nothing
    else, and otherwise gives only calm events. *)
Definition self_reporting {A : Type} (self : DocumentProcessor) (t : task A)
  : Prop :=
  Forall calm (on_start t)
  /\ match on_finish t with
     | (evs, Returned _) => Forall calm evs
     | (evs, Raised e) => evs = error_hooks self e
     | (_, Diverged) => False
     end.

Definition succeeded {A : Type} (t : task A) : Prop :=
  exists a, snd (on_finish t) = Returned a.

(** An event of the tasks [rest] that go on after the failure of
    another: calm, or the error hook of one of them that fails. *)
Definition lingering {A : Type} (self : DocumentProcessor) (rest : list (task A))
    (ev : event) : Prop :=
  calm ev
  \/ exists t e,
       In t rest /\ snd (on_finish t) = Raised e /\ In ev (error_hooks self e).

End WithWorld.

Arguments on_start {B W A} t.
Arguments on_finish {B W A} t.

End Processor.

(* ================================================================== *)
(** * A small world to run the program in *)

(** Documents whose byte strings are given by their length and by the
    pages or sheets they hold, each with a name and the size it
    serializes to on its own; libraries that serialize a group of pages
    or sheets to the sum of their sizes; four files; an agent that fails
    on one chunk, and one model whose streams break. *)
Module Example.

Record blob : Type := {
  size : N;
  units : option (list (pystr * N))   (* [None]: not a document *)
}.

#[export] Instance blob_bytes : Bytes := {|
  bytes := blob;
  len := fun b => Z.of_N (size b);
  len_nonneg := fun b => N2Z.is_nonneg (size b)
|}.

Definition total_size (us : list (pystr * N)) : N :=
  fold_right N.add 0%N (map snd us).

Definition pack (us : list (pystr * N)) : bytes :=
  {| size := total_size us; units := Some us |}.

#[export] Instance fitz : Fitz := {|
  pdf_doc := list (pystr * N);
  fitz_open := fun b =>
    match units b with
    | Some us => Ok us
    | None => Err (External 1)
    end;
  page_count := fun d => N.of_nat (length d);
  save_pages := fun d from_page to_page =>
    Ok (pack (firstn (Z.to_nat (to_page - from_page + 1))
                (skipn (Z.to_nat from_page) d)))
|}.

Fixpoint find_sheet (wb : list (pystr * N)) (name : pystr) : option (pystr * N) :=
  match wb with
  | [] => None
  | s :: rest => if pystr_eqb (fst s) name then Some s else find_sheet rest name
  end.

Fixpoint find_sheets (wb : list (pystr * N)) (names : list pystr)
  : option (list (pystr * N)) :=
  match names with
  | [] => Some []
  | name :: rest =>
      match find_sheet wb name, find_sheets wb rest with
      | Some s, Some l => Some (s :: l)
      | _, _ => None
      end
  end.

#[export] Instance xlsx : Xlsx := {|
  workbook := list (pystr * N);
  calamine_sheet_names := fun b =>
    match units b with
    | Some us => Ok (map fst us)
    | None => Err (External 2)
    end;
  load_workbook := fun b =>
    match units b with
    | Some us => Ok us
    | None => Err (External 2)
    end;
  save_sheets := fun wb names =>
    match find_sheets wb names with
    | Some l => Ok (pack l)
    | None => Err (External 3)
    end
|}.

Definition page (n : N) : pystr * N := ([], n).
Definition sheet (name : string) (n : N) : pystr * N := (of_string name, n).

(** A page that alone serializes to 5,000,000 bytes. *)
Definition one_big_page : bytes :=
  {| size := 5000000; units := Some [page 5000000] |}.

(** Small and large documents without pages. *)
Definition no_pages_small : bytes := {| size := 1000; units := Some [] |}.
Definition no_pages_large : bytes := {| size := 5000000; units := Some [] |}.

Definition no_pages_doc : list (pystr * N) := [].

Definition four_pages_doc : list (pystr * N) :=
  [page 1500000; page 1500000; page 1500000; page 1500000].

(** Four pages of 1,500,000 bytes each in a file of 4,200,000 bytes. *)
Definition four_pages : bytes :=
  {| size := 4200000;
     units := Some [page 1500000; page 1500000; page 1500000; page 1500000] |}.

Definition three_pages : bytes :=
  {| size := 6000000;
     units := Some [page 2000000; page 2000001; page 2000002] |}.

Definition two_pages : bytes :=
  {| size := 4500000; units := Some [page 2000000; page 2000002] |}.

Definition corrupt_small : bytes := {| size := 29; units := None |}.
Definition corrupt_large : bytes := {| size := 5000000; units := None |}.

(** One sheet that alone serializes to 5,000,000 bytes. *)
Definition one_big_sheet : bytes :=
  {| size := 5000000; units := Some [sheet "Data" 5000000] |}.

(** An over-sized sheet between two small ones. *)
Definition big_sheet_in_the_middle : bytes :=
  {| size := 7000000;
     units := Some [sheet "A" 1000000; sheet "B" 5000000; sheet "C" 1000000] |}.

#[export] Instance world : World := {|
  path := N;
  listener := N;
  suffix_lower := fun p =>
    match p with
    | 1%N | 5%N => of_string ".pdf"
    | 2%N => of_string ".xlsx"
    | _ => of_string ".txt"
    end;
  read_bytes := fun p =>
    match p with
    | 1%N => Ok three_pages
    | 2%N => Ok corrupt_large
    | 3%N => Ok corrupt_small
    | 5%N => Ok two_pages
    | _ => Err (External 4)
    end;
  invoke_async := fun a messages =>
    match messages with
    | [m] =>
        match content_list m with
        | Document _ name source :: _ =>
            if (size source =? 2000001)%N then Err (External 7)
            else Ok (of_string "analysis of " ++ name)
        | _ => Err (External 8)
        end
    | _ => Err (External 8)
    end;
  stream_async := fun a messages =>
    match a with
    | CreatedAgent model _ _ =>
        if pystr_eqb model (of_string "unavailable")
        then ([ {| data := Some (of_string "par"); has_message := false |} ],
              Err (External 9))
        else ([ {| data := Some (of_string "answer"); has_message := false |};
                {| data := None; has_message := true |} ], Ok tt)
    | SelfAgent =>
        ([ {| data := Some (of_string "summary"); has_message := false |} ], Ok tt)
    end
|}.

(** Texts of partial results; one of them longer than the budget. *)
Definition text_a : pystr := of_string "first".
Definition text_b : pystr := of_string "second".
Definition text_c : pystr := of_string "third".
Definition long_text : pystr := repeat 97%N (Z.to_nat 150001).

Definition processor (model : string) (listeners : list N)
  : Processor.DocumentProcessor :=
  {| Processor.model := of_string model;
     Processor.max_workers := 5;
     Processor.listeners := listeners |}.

Definition file (p : N) (name : string) : Processor.DocumentFile :=
  {| Processor.file_path := p; Processor.file_name := of_string name |}.

Definition question : pystr := of_string "What changed?".

Definition in_order : Processor.completion :=
  {| Processor.file_order := []; Processor.chunk_order := fun _ => [] |}.

(** The last of the running tasks is always the first to end. *)
Definition last_first : Processor.completion :=
  {| Processor.file_order := [];
     Processor.chunk_order := fun _ => [2; 1; 0]%nat |}.

End Example.

(* ================================================================== *)
(** * Further notions for the statements *)

Module Shape.

(** Two spaces in a row somewhere in the text. *)
Fixpoint has_double_space (s : pystr) : bool :=
  match s with
  | a :: (b :: _) as rest =>
      ((a =? SPACE)%N && (b =? SPACE)%N) || has_double_space rest
  | _ => false
  end.

(** A character that [sanitize_filename] lets through: a letter, a
    digit, one of [-()[]], or the space. *)
Definition is_clean (c : N) : bool := Sanitize.is_visible c || (c =? SPACE)%N.

(** A text of clean characters without a space at either end and
    without two spaces in a row. *)
Definition tidy (s : pystr) : Prop :=
  Forall (fun c => is_clean c = true) s
  /\ hd_error s <> Some SPACE
  /\ last s 0%N <> SPACE
  /\ has_double_space s = false.

(** The sum of the lengths of the texts. *)
Definition total_chars (parts : list pystr) : Z :=
  fold_right Z.add 0 (map len_str parts).

(** The partial result carries the chunk number [k]. *)
Definition has_key (k : Z) (r : partial_result) : bool := fst r =? k.

End Shape.

Module Coverage.

Section WithFitz.
Context {B : Bytes} {F : Fitz}.

(** The chunks are the page ranges that start at [first] and end before
    each of [ends] in turn, every range with at least one page. *)
Fixpoint ranges_saved (src_doc : pdf_doc) (first : Z) (ends : list Z)
    (chunks : list bytes) : Prop :=
  match ends, chunks with
  | [], [] => True
  | e :: ends', c :: chunks' =>
      first < e
      /\ save_pages src_doc first (e - 1) = Ok c
      /\ ranges_saved src_doc e ends' chunks'
  | _, _ => False
  end.

End WithFitz.

Section WithXlsx.
Context {B : Bytes} {X : Xlsx}.

(** The chunk is what the sheets of the group serialize to together;
    the group is not empty, and when it has several sheets their
    estimates add up to at most the soft target. *)
Definition group_saved (wb : workbook) (group : list pystr) (chunk : bytes)
  : Prop :=
  group <> []
  /\ save_sheets wb group = Ok chunk
  /\ ((length group <= 1)%nat
      \/ XlsxSplitter.sum_estimates wb group <= XlsxSplitter.SOFT_TARGET_BYTES).

(** The sheets seen so far are those of the groups written, followed by
    those of the pending group. *)
Definition covered (wb : workbook) (seen : list pystr) (a : XlsxSplitter.acc)
  : Prop :=
  exists groups,
    Forall2 (group_saved wb) groups (XlsxSplitter.chunks a)
    /\ concat groups ++ XlsxSplitter.current_sheets a = seen
    /\ XlsxSplitter.current_size_estimate a
       = XlsxSplitter.sum_estimates wb (XlsxSplitter.current_sheets a)
    /\ ((length (XlsxSplitter.current_sheets a) <= 1)%nat
        \/ XlsxSplitter.current_size_estimate a
           <= XlsxSplitter.SOFT_TARGET_BYTES).

(** A record of the loop: the warning for a chunk written over the
    limit, with the sheets it was saved from. *)
Definition sound_warning (wb : workbook) (written : list bytes)
    (r : log_record) : Prop :=
  exists chunk sheets,
    r = WarnChunkExceedsLimit (len chunk) sheets
    /\ In chunk written
    /\ save_sheets wb sheets = Ok chunk
    /\ XlsxSplitter.TARGET_LIMIT_BYTES < len chunk.

End WithXlsx.

End Coverage.

(* ================================================================== *)
(** * Further notions for the traces *)

Module Traces.
Import Processor.

Section WithWorld.
Context {B : Bytes} {F : Fitz} {X : Xlsx} {W : World}.

(** The events of a task from its answer on. *)
Definition finish_events {A : Type} (t : task A) : list event :=
  fst (on_finish t).

(** A task whose end comes. *)
Definition ends {A : Type} (t : task A) : Prop :=
  snd (on_finish t) <> Diverged.

Definition is_summary_hook (ev : event) : bool :=
  match ev with
  | on_summary_start _ | on_summary_end _ => true
  | _ => false
  end.

(** A request to the agent the processor was constructed with. *)
Definition to_self_agent (ev : event) : bool :=
  match ev with
  | invoke_request SelfAgent _ | stream_request SelfAgent _ => true
  | _ => false
  end.

(** An event of the processing of one file: no hook of the summary, no
    request to the agent of the processor. *)
Definition of_one_file (ev : event) : Prop :=
  is_summary_hook ev = false /\ to_self_agent ev = false.

(** An event that hands nothing to the caller. *)
Definition silent (ev : event) : Prop := is_yielded ev = false.

(** The texts collected from the files at the positions from [position]
    on. *)
Fixpoint collected (self : DocumentProcessor) (c : completion) (position : nat)
    (files : list DocumentFile) (question : pystr) (texts : list pystr) : Prop :=
  match files, texts with
  | [], [] => True
  | file :: files', text :: texts' =>
      snd (_collect_file_content self (chunk_order c position) file question)
      = Returned text
      /\ collected self c (S position) files' question texts'
  | _, _ => False
  end.

End WithWorld.
End Traces.

(* ================================================================== *)
(** * Further example values *)

Module Scenes.
Import Example.

(** A processor of the example world with a given number of workers. *)
Definition processor_with (workers : Z) : Processor.DocumentProcessor :=
  {| Processor.model := of_string "model";
     Processor.max_workers := workers;
     Processor.listeners := [7%N] |}.

(** Three pages of which the analyses of the last two fail in the
    example world. *)
Definition two_failing : bytes :=
  {| size := 6000000;
     units := Some [page 2000000; page 2000001; page 2000001] |}.

End Scenes.

(* ================================================================== *)
(** * Properties of [sanitize_filename] *)

Module SanitizeFacts.
Import Sanitize.

Ltac bool_to_prop :=
  unfold is_separator, is_visible, in_class, is_alnum, is_punct, is_space,
    between in *;
  repeat rewrite ?orb_true_iff, ?andb_true_iff, ?orb_false_iff,
    ?andb_false_iff, ?N.leb_le, ?N.eqb_eq, ?N.leb_gt, ?N.eqb_neq in *.

Lemma replace_twice (s : pystr) :
  replace 46 SPACE (replace 95 SPACE s) = map replaced s.
Proof. unfold replace. rewrite map_map. reflexivity. Qed.

Lemma separator_replaced (c : N) :
  is_separator c = true ->
  is_space (replaced c) = true /\ in_class (replaced c) = true.
Proof.
  unfold replaced, is_separator. intros Hc.
  destruct (c =? 95)%N; [split; reflexivity|].
  destruct (c =? 46)%N; [split; reflexivity|].
  rewrite !orb_false_r in Hc. unfold in_class. rewrite Hc.
  split; [reflexivity|]. rewrite orb_true_r. reflexivity.
Qed.

Lemma other_replaced (c : N) :
  is_separator c = false ->
  replaced c = c /\ in_class c = is_visible c /\ is_space c = false.
Proof.
  unfold replaced, is_separator. intros Hc.
  apply orb_false_iff in Hc. destruct Hc as [Hc H46].
  apply orb_false_iff in Hc. destruct Hc as [Hsp H95].
  rewrite H95, H46. unfold in_class, is_visible. rewrite Hsp.
  rewrite orb_false_r. repeat split; reflexivity.
Qed.

Lemma separator_not_visible (c : N) :
  is_separator c = true -> is_visible c = false.
Proof.
  intros Hs. destruct (is_visible c) eqn:Hv; [exfalso|reflexivity].
  bool_to_prop. lia.
Qed.

Lemma visible_nonspace (c : N) : is_visible c = true -> nonspace c.
Proof.
  unfold nonspace. intros Hv.
  destruct (is_space c) eqn:Hs; [exfalso|reflexivity].
  bool_to_prop. lia.
Qed.

(** ** Stripping *)

Lemma lstrip_idempotent (s : pystr) : lstrip (lstrip s) = lstrip s.
Proof.
  induction s as [|c s IH]; simpl; [reflexivity|].
  destruct (is_space c) eqn:Hc; [exact IH|].
  simpl. rewrite Hc. reflexivity.
Qed.

Lemma lstrip_app_single (s : pystr) (c : N) :
  lstrip (s ++ [c]) =
  match lstrip s with
  | [] => if is_space c then [] else [c]
  | r => r ++ [c]
  end.
Proof.
  induction s as [|d s IH]; simpl; [reflexivity|].
  destruct (is_space d); [exact IH | reflexivity].
Qed.

Lemma rstrip_cons (c : N) (s : pystr) :
  rstrip (c :: s) =
  match rstrip s with
  | [] => if is_space c then [] else [c]
  | r => c :: r
  end.
Proof.
  unfold rstrip. simpl rev. rewrite lstrip_app_single.
  destruct (lstrip (rev s)) as [|d r] eqn:E; simpl.
  - destruct (is_space c); reflexivity.
  - rewrite rev_app_distr. simpl.
    destruct (rev r ++ [d]) eqn:E'; [destruct (rev r); discriminate | reflexivity].
Qed.

Lemma rstrip_app (x y : pystr) :
  rstrip (x ++ y) =
  match rstrip y with
  | [] => rstrip x
  | r => x ++ r
  end.
Proof.
  induction x as [|c x IH]; simpl.
  - destruct (rstrip y); reflexivity.
  - rewrite rstrip_cons, IH. destruct (rstrip y) as [|d r].
    + rewrite rstrip_cons. reflexivity.
    + destruct x; reflexivity.
Qed.

Lemma rstrip_nonspace (s : pystr) : Forall nonspace s -> rstrip s = s.
Proof.
  induction 1 as [|c s Hc _ IH]; [reflexivity|].
  rewrite rstrip_cons, IH, Hc. destruct s; reflexivity.
Qed.

Lemma lstrip_nonspace_head (s t : pystr) :
  s <> [] -> Forall nonspace s -> lstrip (s ++ t) = s ++ t.
Proof.
  intros Hs Hall. destruct Hall as [|c s Hc _]; [contradiction|].
  simpl. rewrite Hc. reflexivity.
Qed.

(** ** Collapsing *)

Lemma collapse_space_head (c : N) (t : pystr) :
  is_space c = true ->
  collapse_spaces (c :: t) = SPACE :: lstrip (collapse_spaces t).
Proof.
  revert c. induction t as [|c' t IH]; intros c Hc.
  - simpl. rewrite Hc. reflexivity.
  - change (collapse_spaces (c :: c' :: t))
      with (if is_space c
            then if is_space c' then collapse_spaces (c' :: t)
                 else SPACE :: collapse_spaces (c' :: t)
            else c :: collapse_spaces (c' :: t)).
    rewrite Hc. destruct (is_space c') eqn:Hc'.
    + rewrite (IH c' Hc'). simpl. rewrite lstrip_idempotent. reflexivity.
    + simpl. rewrite Hc'. simpl. rewrite Hc'. reflexivity.
Qed.

Lemma collapse_nonspace_head (c : N) (t : pystr) :
  is_space c = false -> collapse_spaces (c :: t) = c :: collapse_spaces t.
Proof. intros Hc. simpl. rewrite Hc. reflexivity. Qed.

(** ** The pieces *)

Lemma rev_cons_nonempty (d : N) (cur : pystr) : rev (d :: cur) <> [].
Proof.
  intros E. apply (f_equal (@length N)) in E.
  rewrite length_rev in E. discriminate E.
Qed.

Lemma words_well_formed (s cur : pystr) :
  Forall (fun c => is_visible c = true) cur ->
  Forall well_formed_word (words cur s).
Proof.
  revert cur. induction s as [|c s IH]; intros cur Hcur; simpl.
  - destruct cur as [|d cur]; constructor; [|constructor].
    split; [apply rev_cons_nonempty|].
    apply Forall_rev in Hcur. exact Hcur.
  - destruct (is_separator c).
    + destruct cur as [|d cur]; [apply IH; constructor|].
      constructor; [|apply IH; constructor].
      split; [apply rev_cons_nonempty|].
      apply Forall_rev in Hcur. exact Hcur.
    + destruct (is_visible c) eqn:Hv; apply IH; [constructor|]; assumption.
Qed.

Lemma words_concat (s cur : pystr) :
  concat (words cur s) = rev cur ++ filter is_visible s.
Proof.
  revert cur. induction s as [|c s IH]; intros cur; simpl.
  - destruct cur as [|d cur]; simpl; rewrite ?app_nil_r; reflexivity.
  - destruct (is_separator c) eqn:Hs.
    + rewrite (separator_not_visible c Hs).
      destruct cur as [|d cur]; simpl; rewrite IH; reflexivity.
    + destruct (is_visible c); rewrite IH; simpl; [|reflexivity].
      rewrite <- app_assoc. reflexivity.
Qed.

Lemma join_nonempty_head (w : pystr) (ws : list pystr) :
  w <> [] -> join [SPACE] (w :: ws) <> [].
Proof.
  intros Hw. destruct w as [|c w]; [contradiction|].
  destruct ws; simpl; discriminate.
Qed.

Lemma join_cons (w : pystr) (ws : list pystr) :
  join [SPACE] (w :: ws) =
  match join [SPACE] ws, ws with
  | _, [] => w
  | r, _ => w ++ SPACE :: r
  end.
Proof. destruct ws; reflexivity. Qed.

(** The stripped and collapsed text, read from a point where the
    characters of [cur] have been seen since the last separator. *)
Lemma strip_collapse_words (s cur : pystr) :
  Forall (fun c => is_visible c = true) cur ->
  rstrip (lstrip (rev cur ++ collapse_spaces (cleaned s)))
  = join [SPACE] (words cur s).
Proof.
  revert cur. induction s as [|c s IH]; intros cur Hcur.
  - assert (Hns : Forall nonspace (rev cur)).
    { apply Forall_rev. eapply Forall_impl; [|exact Hcur].
      intros a. apply visible_nonspace. }
    simpl. rewrite app_nil_r. destruct cur as [|d cur]; [reflexivity|].
    rewrite <- (app_nil_r (rev (d :: cur))).
    rewrite lstrip_nonspace_head; [|apply rev_cons_nonempty|exact Hns].
    rewrite app_nil_r. apply rstrip_nonspace. exact Hns.
  - unfold cleaned, strip_outside_class. simpl map. simpl filter.
    simpl words. destruct (is_separator c) eqn:Hs.
    + destruct (separator_replaced c Hs) as [Hsp Hin]. rewrite Hin.
      fold (strip_outside_class (map replaced s)). fold (cleaned s).
      rewrite (collapse_space_head _ _ Hsp).
      specialize (IH [] (Forall_nil _)). simpl in IH.
      destruct cur as [|d cur].
      * change (rstrip (lstrip (lstrip (collapse_spaces (cleaned s))))
                = join [SPACE] (words [] s)).
        rewrite lstrip_idempotent. exact IH.
      * assert (Hns : Forall nonspace (rev (d :: cur))).
        { apply Forall_rev. eapply Forall_impl; [|exact Hcur].
          intros a. apply visible_nonspace. }
        rewrite lstrip_nonspace_head;
          [|apply rev_cons_nonempty|exact Hns].
        rewrite rstrip_app, rstrip_cons.
        assert (Hl : rstrip (lstrip (collapse_spaces (cleaned s)))
                     = join [SPACE] (words [] s)) by exact IH.
        rewrite Hl. rewrite join_cons.
        pose proof (words_well_formed s [] (Forall_nil _)) as Hwf.
        destruct (words [] s) as [|w ws] eqn:Ew.
        -- simpl. apply rstrip_nonspace. exact Hns.
        -- inversion Hwf as [|? ? [Hw _] _]; subst.
           pose proof (join_nonempty_head w ws Hw) as Hne.
           destruct (join [SPACE] (w :: ws)); [contradiction|reflexivity].
    + destruct (other_replaced c Hs) as [Hr [Hin Hsp]]. rewrite Hr, Hin.
      fold (strip_outside_class (map replaced s)). fold (cleaned s).
      destruct (is_visible c) eqn:Hv.
      * rewrite (collapse_nonspace_head _ _ Hsp).
        rewrite <- (IH (c :: cur)); [|constructor; assumption].
        simpl rev. rewrite <- app_assoc. reflexivity.
      * apply IH. exact Hcur.
Qed.

Example sanitize_filename_example :
  sanitize_filename (of_string "my_file.v2 (final)$$.pdf")
  = of_string "my file v2 (final) pdf".
Proof. reflexivity. Qed.

(** C9, as amended: for every name the result is the pieces of the
    name between separators (white space of any kind, underscores,
    periods), without the characters that are neither letters, digits
    nor one of [-()[]], the non-empty pieces joined by single spaces.
    So it has no character outside letters, digits, [-()[]] and the
    space, no space at either end and no two spaces in a row, and its
    visible characters are those of the name, in order.  A white space
    character such as a tab is in the class of the second step: it
    survives that step and ends up in a space. *)
Theorem sanitize_filename_by_words (name : pystr) :
  sanitize_filename name = sanitize_by_words name
  /\ Forall well_formed_word (words [] name)
  /\ concat (words [] name) = filter is_visible name
  /\ (forall a c b, is_visible a = true -> is_space c = true ->
                    is_visible b = true ->
                    sanitize_filename [a; c; b] = [a; SPACE; b]).
Proof.
  assert (Hmain : forall s, sanitize_filename s = sanitize_by_words s).
  { intros s. unfold sanitize_filename, sanitize_by_words, strip.
    rewrite replace_twice. fold (cleaned s).
    apply (strip_collapse_words s [] (Forall_nil _)). }
  split; [apply Hmain|].
  split; [apply words_well_formed; constructor|].
  split; [apply (words_concat name [])|].
  intros a c b Ha Hc Hb. rewrite Hmain. unfold sanitize_by_words. simpl.
  assert (Hsa : is_separator a = false).
  { destruct (is_separator a) eqn:E; [|reflexivity].
    rewrite (separator_not_visible a E) in Ha. discriminate Ha. }
  assert (Hsb : is_separator b = false).
  { destruct (is_separator b) eqn:E; [|reflexivity].
    rewrite (separator_not_visible b E) in Hb. discriminate Hb. }
  assert (Hsc : is_separator c = true).
  { unfold is_separator. rewrite Hc. reflexivity. }
  rewrite Hsa, Ha, Hsc, Hsb, Hb. reflexivity.
Qed.

Lemma sanitize_filename_by_words_witness :
  sanitize_filename [97%N; NL; 98%N] = [97%N; SPACE; 98%N].
Proof.
  apply (proj2 (proj2 (proj2 (sanitize_filename_by_words [])))); reflexivity.
Defined.

(** C9 fails as stated: a tab between two letters is not removed but
    turned into a space, where the function of the specification, whose
    class holds the space alone, removes it. *)
Lemma sanitize_filename_keeps_tab :
  in_claimed_class TAB = false
  /\ sanitize_filename [97%N; TAB; 98%N] = [97%N; SPACE; 98%N]
  /\ sanitize_as_specified [97%N; TAB; 98%N] = [97%N; 98%N]
  /\ sanitize_filename [97%N; TAB; 98%N] <> sanitize_as_specified [97%N; TAB; 98%N].
Proof. repeat split. discriminate. Qed.

End SanitizeFacts.

(* ================================================================== *)
(** * Properties of the reduction *)

Module ReductionFacts.
Import Example.

Lemma insert_result_perm (r : partial_result) (l : list partial_result) :
  Permutation (r :: l) (insert_result r l).
Proof.
  induction l as [|r' l IH]; simpl; [apply Permutation_refl|].
  destruct (fst r <=? fst r'); [apply Permutation_refl|].
  eapply Permutation_trans; [apply perm_swap|].
  apply perm_skip. exact IH.
Qed.

Lemma sort_results_perm (l : list partial_result) :
  Permutation l (sort_results l).
Proof.
  induction l as [|r l IH]; simpl; [apply Permutation_refl|].
  eapply Permutation_trans; [|apply insert_result_perm].
  apply perm_skip. exact IH.
Qed.

Lemma insert_result_sorted (r : partial_result) (l : list partial_result) :
  StronglySorted key_le l -> StronglySorted key_le (insert_result r l).
Proof.
  induction 1 as [|r' l Hl IH Hall]; simpl.
  - constructor; constructor.
  - destruct (Z.leb_spec (fst r) (fst r')) as [Hle|Hgt].
    + constructor; [constructor; assumption|].
      constructor; [exact Hle|].
      eapply Forall_impl; [|exact Hall].
      intros a Ha. unfold key_le in *. cbv beta in *. lia.
    + constructor; [exact IH|].
      eapply Permutation_Forall; [apply insert_result_perm|].
      constructor; [unfold key_le; lia | exact Hall].
Qed.

Lemma sort_results_sorted (l : list partial_result) :
  StronglySorted key_le (sort_results l).
Proof.
  induction l as [|r l IH]; simpl; [constructor|].
  apply insert_result_sorted. exact IH.
Qed.

(** A list sorted by its keys is the only sorted arrangement of its
    elements when no key comes twice. *)
Lemma sorted_arrangement_unique (l2 : list partial_result) :
  StronglySorted key_lt l2 ->
  forall l1, StronglySorted key_le l1 -> Permutation l1 l2 -> l1 = l2.
Proof.
  induction 1 as [|x l2 Hl2 IH Hx]; intros l1 Hs Hp.
  - apply Permutation_sym, Permutation_nil in Hp. exact Hp.
  - destruct l1 as [|y l1].
    + apply Permutation_nil in Hp. discriminate Hp.
    + inversion Hs as [|? ? Hs1 Hy]; subst.
      assert (Hxy : y = x).
      { assert (Hin_y : In y (x :: l2))
          by (eapply Permutation_in; [exact Hp | left; reflexivity]).
        assert (Hin_x : In x (y :: l1))
          by (eapply Permutation_in;
              [apply Permutation_sym; exact Hp | left; reflexivity]).
        destruct Hin_y as [E|Hin_y]; [symmetry; exact E|].
        destruct Hin_x as [E|Hin_x]; [exact E|].
        rewrite Forall_forall in Hx, Hy.
        specialize (Hx _ Hin_y). specialize (Hy _ Hin_x).
        unfold key_lt, key_le in *. lia. }
      subst y. f_equal. apply IH; [exact Hs1|].
      eapply Permutation_cons_inv. exact Hp.
Qed.

Lemma enumerate_from_keys {A : Type} (start : Z) (xs : list A) :
  Forall (fun r => start <= fst r) (enumerate_from start xs).
Proof.
  revert start. induction xs as [|x xs IH]; intros start; simpl; constructor.
  - simpl. lia.
  - eapply Forall_impl; [|apply (IH (start + 1))].
    intros a Ha. cbv beta in *. lia.
Qed.

Lemma enumerate_from_sorted (start : Z) (texts : list pystr) :
  StronglySorted key_lt (enumerate_from start texts).
Proof.
  revert start. induction texts as [|x xs IH]; intros start; simpl; constructor.
  - apply IH.
  - eapply Forall_impl; [|apply (enumerate_from_keys (start + 1) xs)].
    intros a Ha. unfold key_lt. cbv beta in *. simpl fst. lia.
Qed.

Lemma enumerate_from_texts {A : Type} (start : Z) (xs : list A) :
  map snd (enumerate_from start xs) = xs.
Proof.
  revert start. induction xs as [|x xs IH]; intros start; simpl;
    [reflexivity | rewrite IH; reflexivity].
Qed.

Lemma sort_results_of_arrangement (texts : list pystr)
    (gathered : list partial_result) :
  Permutation gathered (enumerate_from 1 texts) ->
  sort_results gathered = enumerate_from 1 texts.
Proof.
  intros Hp. apply sorted_arrangement_unique.
  - apply enumerate_from_sorted.
  - apply sort_results_sorted.
  - eapply Permutation_trans; [|exact Hp].
    apply Permutation_sym, sort_results_perm.
Qed.

Example sort_results_stable :
  sort_results [(3, text_c); (1, text_a); (2, text_b); (1, text_c)]
  = [(1, text_a); (1, text_c); (2, text_b); (3, text_c)].
Proof. reflexivity. Qed.

(** C3: whatever the order in which the partial results of the chunks
    [1 .. n] were gathered, sorting them by chunk number and joining
    their texts gives the same consolidated context: that of the texts
    in the order of the chunks. *)
Theorem consolidated_context_order_independent
    (texts : list pystr) (gathered1 gathered2 : list partial_result) (n : Z) :
  Permutation gathered1 (enumerate_from 1 texts) ->
  Permutation gathered2 (enumerate_from 1 texts) ->
  consolidated_context_of gathered1 n = consolidated_context_of gathered2 n
  /\ map snd (sort_results gathered1) = texts
  /\ consolidated_context_of gathered1 n = snd (_consolidate_and_truncate texts n).
Proof.
  intros H1 H2. unfold consolidated_context_of.
  rewrite (sort_results_of_arrangement texts gathered1 H1).
  rewrite (sort_results_of_arrangement texts gathered2 H2).
  rewrite enumerate_from_texts. repeat split; reflexivity.
Qed.

Lemma len_str_app (s t : pystr) : len_str (s ++ t) = len_str s + len_str t.
Proof. unfold len_str. rewrite length_app. lia. Qed.

Lemma len_slice_to (n : Z) (s : pystr) :
  0 <= n <= len_str s -> len_str (slice_to n s) = n.
Proof.
  unfold len_str, slice_to. intros Hn. rewrite length_firstn. lia.
Qed.

Lemma join_blank_lines (responses : list pystr) :
  join [NL; NL] responses
  = match responses with
    | [] => []
    | first :: others =>
        first ++ flat_map (fun text => 10%N :: 10%N :: text) others
    end.
Proof.
  destruct responses as [|first others]; [reflexivity|].
  revert first. induction others as [|second others IH]; intros first.
  - simpl. rewrite app_nil_r. reflexivity.
  - change (join [NL; NL] (first :: second :: others))
      with (first ++ [NL; NL] ++ join [NL; NL] (second :: others)).
    rewrite IH. reflexivity.
Qed.

(** C4: the consolidated text is the texts in their order with two
    newline characters between one text and the next; it comes back
    unchanged when it has at most [MAX_CONTEXT_CHARS] (150,000)
    characters; when it has more, what comes back is its first 150,000
    characters followed by the marker, a newline and [... [TRUNCATED]],
    of length 150,000 plus the 16 characters of the marker. *)
Theorem consolidate_and_truncate_spec (responses : list pystr) (num_chunks : Z) :
  let consolidated := join [NL; NL] responses in
  let returned := snd (_consolidate_and_truncate responses num_chunks) in
  let separated :=
    match responses with
    | [] => []
    | first :: others =>
        first ++ flat_map (fun text => 10%N :: 10%N :: text) others
    end in
  let marker :=
    [10; 46; 46; 46; 32; 91; 84; 82; 85; 78; 67; 65; 84; 69; 68; 93]%N in
  MAX_CONTEXT_CHARS = 150000
  /\ (len_str consolidated <= MAX_CONTEXT_CHARS -> returned = consolidated)
  /\ (MAX_CONTEXT_CHARS < len_str consolidated ->
      returned = slice_to MAX_CONTEXT_CHARS consolidated ++ TRUNCATED_MARKER
      /\ len_str (slice_to MAX_CONTEXT_CHARS consolidated) = MAX_CONTEXT_CHARS
      /\ len_str returned = MAX_CONTEXT_CHARS + len_str TRUNCATED_MARKER)
  /\ consolidated = separated
  /\ TRUNCATED_MARKER = marker
  /\ (Z.of_nat (length separated) <= 150000 -> returned = separated)
  /\ (150000 < Z.of_nat (length separated) ->
      returned = firstn (Z.to_nat 150000) separated ++ marker
      /\ Z.of_nat (length returned) = 150000 + 16).
Proof.
  intros consolidated returned separated marker.
  assert (Hsep : consolidated = separated) by apply join_blank_lines.
  assert (Hmarker : TRUNCATED_MARKER = marker) by reflexivity.
  assert (Hsmall : len_str consolidated <= MAX_CONTEXT_CHARS ->
                   returned = consolidated).
  { intros Hle. subst returned. unfold _consolidate_and_truncate.
    fold consolidated.
    destruct (Z.gtb_spec (len_str consolidated) MAX_CONTEXT_CHARS);
      [lia | reflexivity]. }
  assert (Hlarge : MAX_CONTEXT_CHARS < len_str consolidated ->
            returned = slice_to MAX_CONTEXT_CHARS consolidated ++ TRUNCATED_MARKER
            /\ len_str (slice_to MAX_CONTEXT_CHARS consolidated) = MAX_CONTEXT_CHARS
            /\ len_str returned = MAX_CONTEXT_CHARS + len_str TRUNCATED_MARKER).
  { intros Hgt. subst returned. unfold _consolidate_and_truncate.
    fold consolidated.
    destruct (Z.gtb_spec (len_str consolidated) MAX_CONTEXT_CHARS); [|lia].
    simpl snd.
    assert (Hlen : len_str (slice_to MAX_CONTEXT_CHARS consolidated)
                   = MAX_CONTEXT_CHARS).
    { apply len_slice_to. unfold MAX_CONTEXT_CHARS in *. lia. }
    repeat split; [exact Hlen|]. rewrite len_str_app, Hlen. reflexivity. }
  split; [reflexivity|]. split; [exact Hsmall|]. split; [exact Hlarge|].
  split; [exact Hsep|]. split; [exact Hmarker|]. split.
  - intros Hle. rewrite <- Hsep. apply Hsmall. rewrite Hsep. exact Hle.
  - intros Hgt. rewrite <- Hsep in Hgt |- *.
    destruct (Hlarge Hgt) as [Hret [_ Hlen]]. split.
    + rewrite Hret, Hmarker. reflexivity.
    + exact Hlen.
Qed.

Lemma consolidated_context_order_independent_witness :
  consolidated_context_of [(2, text_b); (3, text_c); (1, text_a)] 3
  = consolidated_context_of [(3, text_c); (1, text_a); (2, text_b)] 3
  /\ map snd (sort_results [(2, text_b); (3, text_c); (1, text_a)])
     = [text_a; text_b; text_c]
  /\ consolidated_context_of [(2, text_b); (3, text_c); (1, text_a)] 3
     = snd (_consolidate_and_truncate [text_a; text_b; text_c] 3).
Proof.
  apply (consolidated_context_order_independent [text_a; text_b; text_c]).
  - apply Permutation_sym.
    apply (Permutation_cons_app [(2, text_b); (3, text_c)] []).
    apply Permutation_refl.
  - apply Permutation_sym.
    apply (Permutation_cons_app [(3, text_c)] [(2, text_b)]).
    apply (Permutation_cons_app [(3, text_c)] []).
    apply Permutation_refl.
Defined.

Lemma long_text_length : MAX_CONTEXT_CHARS < len_str (join [NL; NL] [long_text]).
Proof.
  unfold join, len_str, long_text, MAX_CONTEXT_CHARS.
  rewrite repeat_length. lia.
Qed.

Lemma consolidate_and_truncate_spec_witness :
  snd (_consolidate_and_truncate [[97; 98]; [99]; [100; 101]]%N 3)
  = [97; 98; 10; 10; 99; 10; 10; 100; 101]%N
  /\ Z.of_nat (length (snd (_consolidate_and_truncate [long_text] 1))) = 150016
  /\ skipn (Z.to_nat 150000) (snd (_consolidate_and_truncate [long_text] 1))
     = [10; 46; 46; 46; 32; 91; 84; 82; 85; 78; 67; 65; 84; 69; 68; 93]%N.
Proof.
  split.
  - pose proof (consolidate_and_truncate_spec [[97; 98]; [99]; [100; 101]]%N 3)
      as H.
    cbv zeta in H. destruct H as [_ [_ [_ [_ [_ [H _]]]]]]. apply H.
    vm_compute. discriminate.
  - pose proof (consolidate_and_truncate_spec [long_text] 1) as H.
    cbv zeta in H. destruct H as [_ [_ [_ [_ [_ [_ H]]]]]].
    assert (Hlong : 150000 < Z.of_nat (length (long_text ++ []))).
    { unfold long_text. rewrite length_app, repeat_length. simpl length. lia. }
    destruct (H Hlong) as [Hret Hlen]. split; [exact Hlen|].
    rewrite Hret. vm_compute. reflexivity.
Defined.

End ReductionFacts.

(* ================================================================== *)
(** * Properties of the float arithmetic *)

Module F64Facts.
Import F64.

Lemma nearest_even_lower (n d : Z) : n / d <= nearest_even n d.
Proof.
  unfold nearest_even.
  destruct (2 * (n mod d) <? d); [lia|].
  destruct (d <? 2 * (n mod d)); [lia|].
  destruct (Z.even (n / d)); lia.
Qed.

Lemma round_ge_one (n d : Z) : 0 < d -> d <= n -> ge_one (round n d).
Proof.
  intros Hd Hn. unfold round.
  destruct (Z.leb_spec n 0) as [|Hpos]; [lia|].
  set (e0 := Z.log2 n - Z.log2 d - 53).
  destruct (scaled n d e0) as [n0 d0].
  set (e := if n0 / d0 <? 2 ^ 53 then e0 else e0 + 1).
  assert (He : e <= e0 + 1) by (subst e; destruct (n0 / d0 <? 2 ^ 53); lia).
  clearbody e. unfold scaled.
  destruct (Z.leb_spec 0 e) as [Hnn|Hneg]; unfold ge_one; simpl.
  - split; [|lia].
    assert (H1 : 1 <= n / (d * 2 ^ e)).
    { apply Z.div_le_lower_bound; [apply Z.mul_pos_pos; [lia|apply Z.pow_pos_nonneg; lia]|].
      rewrite Z.mul_1_r.
      pose proof (Z.log2_spec n Hpos) as [Hlo _].
      pose proof (Z.log2_spec d Hd) as [_ Hhi].
      pose proof (Z.log2_nonneg d) as Hld.
      assert (H2 : d * 2 ^ e <= 2 ^ (Z.log2 d + 1) * 2 ^ e).
      { apply Z.mul_le_mono_nonneg_r; [apply Z.pow_nonneg; lia | lia]. }
      rewrite <- Z.pow_add_r in H2 by lia.
      assert (H3 : 2 ^ (Z.log2 d + 1 + e) <= 2 ^ Z.log2 n).
      { apply Z.pow_le_mono_r; lia. }
      unfold Z.succ in *. lia. }
    pose proof (nearest_even_lower n (d * 2 ^ e)). lia.
  - assert (Hp : 0 < 2 ^ (- e)) by (apply Z.pow_pos_nonneg; lia).
    assert (H1 : 2 ^ (- e) <= n * 2 ^ (- e) / d).
    { apply Z.div_le_lower_bound; [lia|]. nia. }
    pose proof (nearest_even_lower (n * 2 ^ (- e)) d). split; [lia|]. intros _. lia.
Qed.

Lemma mul_ge_one (x y : t) : ge_one x -> ge_one y -> ge_one (mul x y).
Proof.
  destruct x as [m1 e1], y as [m2 e2]. unfold ge_one, mul, scaled.
  cbn [fst snd]. intros [Hm1 He1] [Hm2 He2].
  destruct (Z.leb_spec 0 (- (e1 + e2))) as [Hle|Hgt].
  - rewrite Z.mul_1_l. apply round_ge_one; [apply Z.pow_pos_nonneg; lia|].
    destruct (Z.lt_ge_cases e1 0) as [H1|H1], (Z.lt_ge_cases e2 0) as [H2|H2].
    + replace (- (e1 + e2)) with (- e1 + - e2) by lia.
      rewrite Z.pow_add_r by lia.
      specialize (He1 H1). specialize (He2 H2).
      assert (0 < 2 ^ (- e1)) by (apply Z.pow_pos_nonneg; lia).
      assert (0 < 2 ^ (- e2)) by (apply Z.pow_pos_nonneg; lia).
      nia.
    + specialize (He1 H1).
      assert (2 ^ (- (e1 + e2)) <= 2 ^ (- e1)) by (apply Z.pow_le_mono_r; lia).
      nia.
    + specialize (He2 H2).
      assert (2 ^ (- (e1 + e2)) <= 2 ^ (- e2)) by (apply Z.pow_le_mono_r; lia).
      nia.
    + replace (- (e1 + e2)) with 0 by lia. rewrite Z.pow_0_r. nia.
  - apply round_ge_one; [lia|].
    rewrite Z.opp_involutive.
    assert (0 < 2 ^ (e1 + e2)) by (apply Z.pow_pos_nonneg; lia).
    nia.
Qed.

Lemma trunc_ge_one (x : t) : ge_one x -> 1 <= trunc x.
Proof.
  destruct x as [m e]. unfold ge_one, trunc. simpl. intros [Hm He].
  destruct (Z.leb_spec 0 e) as [Hnn|Hneg].
  - assert (0 < 2 ^ e) by (apply Z.pow_pos_nonneg; lia). nia.
  - specialize (He Hneg).
    assert (0 < 2 ^ (- e)) by (apply Z.pow_pos_nonneg; lia).
    apply Z.div_le_lower_bound; lia.
Qed.

(** [int(z * c)] is at least one for [z >= 1] and a literal [c >= 1]. *)
Lemma int_mul_ge_one (z num den : Z) :
  1 <= z -> 0 < den -> den <= num -> 1 <= int_mul z num den.
Proof.
  intros Hz Hd Hn. unfold int_mul. apply trunc_ge_one, mul_ge_one.
  - unfold of_Z. apply round_ge_one; lia.
  - apply round_ge_one; assumption.
Qed.

(** The products are rounded as the hardware rounds them: [90 * 0.7] is
    just below 63. *)
Example int_mul_examples :
  int_mul 90 7 10 = 62 /\ int_mul 10 7 10 = 7 /\ int_mul 3 15 10 = 4
  /\ int_mul 7 9 10 = 6 /\ int_mul (4 * 1024 * 1024) 90 100 = 3774873.
Proof. vm_compute. repeat split. Qed.

End F64Facts.

(* ================================================================== *)
(** * Properties of [split_pdf] *)

Module PdfSplitterFacts.
Import PdfSplitter.

Section WithFitz.
Context {B : Bytes} {F : Fitz}.

Lemma soft_target_value : SOFT_TARGET_BYTES = 3774873.
Proof. reflexivity. Qed.

Lemma reduce_batch_size_bounds (batch_size : Z) :
  1 < batch_size ->
  1 <= reduce_batch_size batch_size < batch_size.
Proof.
  intros Hb. unfold reduce_batch_size.
  generalize (F64.int_mul batch_size 7 10). intros v.
  destruct (v >=? batch_size) eqn:E.
  - lia.
  - rewrite Z.geb_leb in E. apply Z.leb_gt in E. lia.
Qed.

Lemma adjust_batch_size_ge_one (current_size batch_size : Z) :
  1 <= batch_size -> 1 <= adjust_batch_size current_size batch_size.
Proof.
  intros Hb. unfold adjust_batch_size.
  destruct (F64.Z_ltb _ _).
  - apply F64Facts.int_mul_ge_one; lia.
  - destruct (F64.Z_gtb _ _); lia.
Qed.

Lemma try_batch_spec (src_doc : pdf_doc) (total_pages current_page batch_size : Z) :
  0 <= current_page < total_pages -> 1 <= batch_size ->
  match try_batch src_doc total_pages current_page batch_size with
  | Accepted chunk_data end_page batch_size' =>
      current_page < end_page <= total_pages /\ 1 <= batch_size'
      /\ within_limit_or_one_page src_doc total_pages chunk_data
  | Retry batch_size' =>
      1 <= batch_size' < batch_size
      /\ exists chunk_data,
           save_pages src_doc current_page
             (Z.min (current_page + batch_size) total_pages - 1) = Ok chunk_data
           /\ TARGET_LIMIT_BYTES < len chunk_data
  | Failed _ => True
  end.
Proof.
  intros Hcur Hb. unfold try_batch.
  destruct (save_pages src_doc current_page
              (Z.min (current_page + batch_size) total_pages - 1))
    as [chunk_data|e] eqn:Hsave; [|exact I].
  destruct (Z.leb_spec (len chunk_data) TARGET_LIMIT_BYTES) as [Hle|Hgt]; simpl orb.
  - split; [lia|]. split; [apply adjust_batch_size_ge_one; exact Hb|].
    left. exact Hle.
  - destruct (Z.eqb_spec batch_size 1) as [E|NE].
    + split; [lia|]. split; [apply adjust_batch_size_ge_one; exact Hb|].
      right. exists current_page. split; [lia|].
      rewrite <- Hsave. f_equal. lia.
    + split; [apply reduce_batch_size_bounds; lia|].
      exists chunk_data. split; [reflexivity | exact Hgt].
Qed.

Lemma retry_loop_returns (src_doc : pdf_doc) (total_pages current_page : Z)
    (fuel : nat) :
  forall batch_size,
    0 <= current_page < total_pages ->
    1 <= batch_size <= Z.of_nat fuel ->
    match retry_loop fuel src_doc total_pages current_page batch_size with
    | Returned (chunk_data, end_page, batch_size') =>
        current_page < end_page <= total_pages /\ 1 <= batch_size'
        /\ within_limit_or_one_page src_doc total_pages chunk_data
    | Raised _ => True
    | Diverged => False
    end.
Proof.
  induction fuel as [|fuel IH]; intros batch_size Hcur Hb; [lia|].
  simpl retry_loop.
  pose proof (try_batch_spec src_doc total_pages current_page batch_size Hcur
                ltac:(lia)) as Hstep.
  destruct (try_batch src_doc total_pages current_page batch_size)
    as [chunk_data end_page batch_size'|batch_size'|e].
  - exact Hstep.
  - apply IH; [exact Hcur|]. lia.
  - exact I.
Qed.

Lemma page_loop_returns (src_doc : pdf_doc) (total_pages : Z) (fuel : nat) :
  forall current_page batch_size chunks,
    0 <= current_page -> 1 <= batch_size ->
    total_pages - current_page <= Z.of_nat fuel ->
    Forall (within_limit_or_one_page src_doc total_pages) chunks ->
    match page_loop fuel src_doc total_pages current_page batch_size chunks with
    | Returned chunks' =>
        Forall (within_limit_or_one_page src_doc total_pages) chunks'
    | Raised _ => True
    | Diverged => False
    end.
Proof.
  induction fuel as [|fuel IH]; intros current_page batch_size chunks Hcur Hb Hfuel Hall.
  - simpl. destruct (Z.ltb_spec current_page total_pages); [lia | exact Hall].
  - simpl page_loop. destruct (Z.ltb_spec current_page total_pages) as [Hlt|Hge];
      [|exact Hall].
    pose proof (retry_loop_returns src_doc total_pages current_page
                  (Z.to_nat batch_size) batch_size ltac:(lia) ltac:(lia)) as Hretry.
    destruct (retry_loop (Z.to_nat batch_size) src_doc total_pages current_page
                batch_size) as [[[chunk_data end_page] batch_size']|e|].
    + destruct Hretry as [Hend [Hb' Hchunk]].
      apply IH; [lia | exact Hb' | lia |].
      apply Forall_app. split; [exact Hall|]. constructor; [exact Hchunk|constructor].
    + exact I.
    + exact Hretry.
Qed.

Lemma initial_batch_size_ge_one (file_size total_pages batch_size : Z) :
  initial_batch_size file_size total_pages = Ok batch_size -> 1 <= batch_size.
Proof.
  unfold initial_batch_size.
  destruct (F64.div _ _); intros E; inversion E. lia.
Qed.

(** What the body of [split_pdf] gives for a document that opens. *)
Lemma split_pdf_body_returns (file_bytes : bytes) :
  match split_pdf_body file_bytes with
  | Returned chunks =>
      exists src_doc,
        fitz_open file_bytes = Ok src_doc
        /\ Forall (within_limit_or_one_page src_doc (Z.of_N (page_count src_doc)))
             chunks
  | Raised _ => True
  | Diverged => False
  end.
Proof.
  unfold split_pdf_body.
  destruct (fitz_open file_bytes) as [src_doc|e]; [|exact I].
  destruct (Z.eqb_spec (Z.of_N (page_count src_doc)) 0) as [E|NE].
  - exists src_doc. split; [reflexivity|constructor].
  - destruct (initial_batch_size (len file_bytes) (Z.of_N (page_count src_doc)))
      as [batch_size|e] eqn:Hinit; [|exact I].
    pose proof (page_loop_returns src_doc (Z.of_N (page_count src_doc))
                  (Z.to_nat (Z.of_N (page_count src_doc))) 0 batch_size []
                  ltac:(lia) (initial_batch_size_ge_one _ _ _ Hinit)
                  ltac:(lia) (Forall_nil _)) as Hloop.
    destruct (page_loop _ _ _ _ _ _) as [chunks|e|].
    + exists src_doc. split; [reflexivity | exact Hloop].
    + exact I.
    + exact Hloop.
Qed.

Lemma split_pdf_not_diverged (file_bytes : bytes) :
  snd (split_pdf file_bytes) <> Diverged.
Proof.
  unfold split_pdf. destruct (len file_bytes <? TARGET_LIMIT_BYTES); [discriminate|].
  pose proof (split_pdf_body_returns file_bytes) as Hbody.
  destruct (split_pdf_body file_bytes); simpl; [discriminate|discriminate|contradiction].
Qed.

(** C7: a batch of more than one page that serializes beyond the limit
    is tried again from the same page with a batch size that is smaller
    and at least one; a batch of one page is accepted whatever its size;
    the retry loop, given as many passes as the batch has pages, ends with
    the page cursor moved forward; and [split_pdf] comes to an end on
    every input. *)
Theorem split_pdf_terminates :
  (forall src_doc total_pages current_page batch_size chunk_data fuel,
      1 < batch_size ->
      save_pages src_doc current_page
        (Z.min (current_page + batch_size) total_pages - 1) = Ok chunk_data ->
      TARGET_LIMIT_BYTES < len chunk_data ->
      try_batch src_doc total_pages current_page batch_size
      = Retry (reduce_batch_size batch_size)
      /\ 1 <= reduce_batch_size batch_size < batch_size
      /\ retry_loop (S fuel) src_doc total_pages current_page batch_size
         = retry_loop fuel src_doc total_pages current_page
             (reduce_batch_size batch_size))
  /\ (forall src_doc total_pages current_page chunk_data,
         save_pages src_doc current_page
           (Z.min (current_page + 1) total_pages - 1) = Ok chunk_data ->
         try_batch src_doc total_pages current_page 1
         = Accepted chunk_data (Z.min (current_page + 1) total_pages)
             (adjust_batch_size (len chunk_data) 1))
  /\ (forall src_doc total_pages current_page batch_size,
         0 <= current_page < total_pages -> 1 <= batch_size ->
         match retry_loop (Z.to_nat batch_size) src_doc total_pages current_page
                 batch_size with
         | Returned (_, end_page, batch_size') =>
             current_page < end_page <= total_pages /\ 1 <= batch_size'
         | Raised _ => True
         | Diverged => False
         end)
  /\ (forall file_bytes, snd (split_pdf file_bytes) <> Diverged).
Proof.
  split; [|split; [|split]].
  - intros src_doc total_pages current_page batch_size chunk_data fuel Hb Hsave Hgt.
    assert (Hstep : try_batch src_doc total_pages current_page batch_size
                    = Retry (reduce_batch_size batch_size)).
    { unfold try_batch. rewrite Hsave.
      destruct (Z.leb_spec (len chunk_data) TARGET_LIMIT_BYTES); [lia|].
      destruct (Z.eqb_spec batch_size 1); [lia|]. reflexivity. }
    split; [exact Hstep|]. split; [apply reduce_batch_size_bounds; exact Hb|].
    simpl retry_loop. rewrite Hstep. reflexivity.
  - intros src_doc total_pages current_page chunk_data Hsave.
    unfold try_batch. rewrite Hsave. rewrite orb_true_r. reflexivity.
  - intros src_doc total_pages current_page batch_size Hcur Hb.
    pose proof (retry_loop_returns src_doc total_pages current_page
                  (Z.to_nat batch_size) batch_size Hcur ltac:(lia)) as Hretry.
    destruct (retry_loop _ _ _ _ _) as [[[chunk_data end_page] batch_size']|e|].
    + destruct Hretry as [Hend [Hb' _]]. split; assumption.
    + exact I.
    + exact Hretry.
  - apply split_pdf_not_diverged.
Qed.

(** C5, as amended: an input of fewer bytes than the limit comes back as
    the only chunk, whatever it holds and without being opened; an input
    of at least that many bytes that opens and has no page gives no
    chunk. *)
Theorem split_pdf_small_or_empty (file_bytes : bytes) :
  (len file_bytes < TARGET_LIMIT_BYTES ->
   split_pdf file_bytes = ([], Returned [file_bytes]))
  /\ (forall src_doc,
         TARGET_LIMIT_BYTES <= len file_bytes ->
         fitz_open file_bytes = Ok src_doc -> page_count src_doc = 0%N ->
         split_pdf file_bytes = ([], Returned [])).
Proof.
  unfold split_pdf. split.
  - intros Hlt. destruct (Z.ltb_spec (len file_bytes) TARGET_LIMIT_BYTES);
      [reflexivity | lia].
  - intros src_doc Hge Hopen Hcount.
    destruct (Z.ltb_spec (len file_bytes) TARGET_LIMIT_BYTES); [lia|].
    unfold split_pdf_body. rewrite Hopen, Hcount. reflexivity.
Qed.

(** The paged half of C2: [split_pdf] logs nothing when it returns, and
    each chunk it returns is within the limit or is one page of the
    document. *)
Lemma split_pdf_chunks_bounded (file_bytes : bytes) (records : list log_record)
    (chunks : list bytes) :
  split_pdf file_bytes = (records, Returned chunks) ->
  records = []
  /\ Forall (fun chunk =>
               len chunk <= TARGET_LIMIT_BYTES
               \/ exists src_doc p,
                    fitz_open file_bytes = Ok src_doc
                    /\ 0 <= p < Z.of_N (page_count src_doc)
                    /\ save_pages src_doc p p = Ok chunk) chunks.
Proof.
  unfold split_pdf.
  destruct (Z.ltb_spec (len file_bytes) TARGET_LIMIT_BYTES) as [Hlt|Hge].
  - intros E. inversion E; subst. split; [reflexivity|].
    constructor; [left; lia | constructor].
  - pose proof (split_pdf_body_returns file_bytes) as Hbody.
    destruct (split_pdf_body file_bytes) as [chunks'|e|]; intros E;
      inversion E; subst.
    split; [reflexivity|].
    destruct Hbody as [src_doc [Hopen Hall]].
    eapply Forall_impl; [|exact Hall].
    intros chunk [Hle|[p [Hp Hsave]]]; [left; exact Hle|].
    right. exists src_doc, p. repeat split; try assumption; lia.
Qed.

End WithFitz.
End PdfSplitterFacts.

(* ================================================================== *)
(** * Properties of [split_xlsx] *)

Module XlsxSplitterFacts.
Import XlsxSplitter.

Section WithXlsx.
Context {B : Bytes} {X : Xlsx}.

Lemma soft_below_limit : SOFT_TARGET_BYTES <= TARGET_LIMIT_BYTES.
Proof. vm_compute. discriminate. Qed.

#[local] Opaque SOFT_TARGET_BYTES TARGET_LIMIT_BYTES.

(** C6: an input that python-calamine cannot open makes [split_xlsx]
    raise [XLSXSplitError], whatever its size: the check comes before the
    fast path.  So does a large input that openpyxl cannot load.  In
    neither case does the input come back as a chunk. *)
Theorem split_xlsx_rejects_invalid (file_bytes : bytes) (e : exn) :
  (calamine_sheet_names file_bytes = Err e ->
   split_xlsx file_bytes = ([LogException e], Raised (XLSXSplitError e)))
  /\ (forall sheet_names,
         calamine_sheet_names file_bytes = Ok sheet_names ->
         sheet_names <> [] ->
         TARGET_LIMIT_BYTES <= len file_bytes ->
         load_workbook file_bytes = Err e ->
         split_xlsx file_bytes = ([LogException e], Raised (XLSXSplitError e))).
Proof.
  unfold split_xlsx, split_xlsx_body. split.
  - intros Hopen. rewrite Hopen. reflexivity.
  - intros sheet_names Hopen Hne Hge Hload. rewrite Hopen, Hload.
    destruct sheet_names as [|name rest]; [contradiction|]. simpl is_empty.
    destruct (Z.ltb_spec (len file_bytes) TARGET_LIMIT_BYTES); [lia|]. reflexivity.
Qed.

Lemma sum_estimates_app (wb : workbook) (l1 l2 : list pystr) :
  sum_estimates wb (l1 ++ l2) = sum_estimates wb l1 + sum_estimates wb l2.
Proof.
  unfold sum_estimates. induction l1 as [|x l1 IH]; simpl; [reflexivity|].
  rewrite IH. lia.
Qed.

Lemma pending_group_bounded (wb : workbook) (a : acc) (chunk : bytes) :
  group_within_estimates -> invariant wb a ->
  save_sheets wb (current_sheets a) = Ok chunk ->
  current_sheets a <> [] ->
  within_limit_or_one_sheet wb chunk.
Proof.
  intros Hsub Hinv Hsave Hne.
  destruct (inv_group wb a Hinv) as [Hone|Hsoft].
  - right. destruct (current_sheets a) as [|name [|? ?]] eqn:E;
      [contradiction | | simpl in Hone; lia].
    exists name. exact Hsave.
  - left. pose proof (Hsub _ _ _ Hsave) as Hle.
    rewrite <- (inv_estimate wb a Hinv) in Hle.
    pose proof soft_below_limit. lia.
Qed.

Lemma warned_more (records more : list log_record) (chunk : bytes) :
  warned records chunk -> warned (records ++ more) chunk.
Proof.
  unfold warned. intros Hw Hgt. destruct (Hw Hgt) as [sheets Hin].
  exists sheets. apply in_or_app. left. exact Hin.
Qed.

Lemma sheet_loop_invariant (wb : workbook) (sheet_names : list pystr) :
  group_within_estimates ->
  forall a, invariant wb a ->
    match sheet_loop wb sheet_names a with
    | (records, Returned a') => invariant wb a' /\ records = logged a'
    | (_, Raised _) => True
    | (_, Diverged) => False
    end.
Proof.
  intros Hsub. induction sheet_names as [|sheet_name rest IH]; intros a Hinv.
  - simpl. split; [exact Hinv | reflexivity].
  - simpl sheet_loop.
    destruct (save_sheets wb [sheet_name]) as [buffer|e] eqn:Hone; [|exact I].
    assert (Hest : estimate wb sheet_name = len buffer)
      by (unfold estimate; rewrite Hone; reflexivity).
    destruct ((current_size_estimate a + len buffer >? SOFT_TARGET_BYTES)
              && negb (is_empty (current_sheets a))) eqn:Hcase.
    + apply andb_true_iff in Hcase. destruct Hcase as [_ Hne].
      destruct (save_sheets wb (current_sheets a)) as [chunk_data|e] eqn:Hgroup;
        [|exact I].
      apply IH. constructor; cbn [chunks current_sheets current_size_estimate logged].
      * unfold sum_estimates. cbn [map fold_right]. rewrite Z.add_0_r. symmetry. exact Hest.
      * left. cbn [length]. lia.
      * apply Forall_app. split; [apply (inv_chunks wb a Hinv)|].
        constructor; [|constructor].
        apply (pending_group_bounded wb a); try assumption.
        intros E. rewrite E in Hne. discriminate Hne.
      * apply Forall_app. split.
        -- eapply Forall_impl; [|apply (inv_warned wb a Hinv)].
           intros c. apply warned_more.
        -- constructor; [|constructor]. unfold warned, warn_if_oversized.
           intros Hgt. exists (current_sheets a).
           apply in_or_app. right.
           destruct (Z.gtb_spec (len chunk_data) TARGET_LIMIT_BYTES); [|lia].
           left. reflexivity.
    + apply IH. constructor; cbn [chunks current_sheets current_size_estimate logged].
      * rewrite sum_estimates_app.
        change (sum_estimates wb [sheet_name]) with (estimate wb sheet_name + 0).
        pose proof (inv_estimate wb a Hinv). lia.
      * apply andb_false_iff in Hcase. destruct Hcase as [Hle|Hemp].
        -- right. rewrite Z.gtb_ltb in Hle. apply Z.ltb_ge in Hle. exact Hle.
        -- left. destruct (current_sheets a); [simpl; lia | discriminate].
      * apply (inv_chunks wb a Hinv).
      * apply (inv_warned wb a Hinv).
Qed.

Lemma in_removelast {A : Type} (x : A) (l : list A) :
  In x (removelast l) -> In x l.
Proof.
  induction l as [|y l IH]; simpl; [tauto|].
  destruct l as [|z l]; [simpl; tauto|].
  intros [E|Hin]; [left; exact E | right; apply IH; exact Hin].
Qed.

(** The sheeted half of C2. *)
Lemma split_xlsx_chunks_bounded (file_bytes : bytes) (records : list log_record)
    (returned : list bytes) :
  group_within_estimates ->
  split_xlsx file_bytes = (records, Returned returned) ->
  Forall (fun chunk =>
            len chunk <= TARGET_LIMIT_BYTES
            \/ exists wb sheet_name,
                 load_workbook file_bytes = Ok wb
                 /\ save_sheets wb [sheet_name] = Ok chunk) returned
  /\ (forall chunk,
         In chunk (removelast returned) -> TARGET_LIMIT_BYTES < len chunk ->
         exists sheets, In (WarnChunkExceedsLimit (len chunk) sheets) records).
Proof.
  intros Hsub. unfold split_xlsx, split_xlsx_body.
  destruct (calamine_sheet_names file_bytes) as [sheet_names|e];
    [|intros E; discriminate E].
  destruct (is_empty sheet_names).
  { intros E. inversion E; subst. split; [constructor|]. intros c []. }
  destruct (Z.ltb_spec (len file_bytes) TARGET_LIMIT_BYTES) as [Hlt|Hge].
  { intros E. inversion E; subst. split; [|intros c []].
    constructor; [left; lia | constructor]. }
  destruct (load_workbook file_bytes) as [wb|e]; [|intros E; discriminate E].
  set (start := {| chunks := []; current_sheets := [];
                   current_size_estimate := 0; logged := [] |}).
  assert (Hstart : invariant wb start).
  { constructor; simpl; [reflexivity | left; lia | constructor | constructor]. }
  pose proof (sheet_loop_invariant wb sheet_names Hsub start Hstart) as Hloop.
  destruct (sheet_loop wb sheet_names start) as [log [a| |]];
    [|intros E; discriminate E|contradiction].
  destruct Hloop as [Hinv Hlog]. unfold flush_pending.
  assert (Hweaken : forall c, within_limit_or_one_sheet wb c ->
            len c <= TARGET_LIMIT_BYTES
            \/ exists wb' sheet_name,
                 Ok wb = Ok wb' /\ save_sheets wb' [sheet_name] = Ok c).
  { intros c [Hle|[name Hsave]]; [left; exact Hle|].
    right. exists wb, name. split; [reflexivity | exact Hsave]. }
  assert (Hwarn : forall c, In c (chunks a) -> TARGET_LIMIT_BYTES < len c ->
            exists sheets, In (WarnChunkExceedsLimit (len c) sheets) log).
  { intros c Hin Hgt. pose proof (inv_warned wb a Hinv) as Hall.
    rewrite Forall_forall in Hall. rewrite Hlog. apply (Hall c Hin Hgt). }
  destruct (is_empty (current_sheets a)) eqn:Hemp.
  - intros E. inversion E; subst. split.
    + eapply Forall_impl; [exact Hweaken | apply (inv_chunks wb a Hinv)].
    + intros c Hin. apply Hwarn. apply in_removelast. exact Hin.
  - destruct (save_sheets wb (current_sheets a)) as [chunk_data|e] eqn:Hgroup;
      intros E; inversion E; subst. split.
    + eapply Forall_impl; [exact Hweaken|].
      apply Forall_app. split; [apply (inv_chunks wb a Hinv)|].
      constructor; [|constructor].
      apply (pending_group_bounded wb a); try assumption.
      intros E'. rewrite E' in Hemp. discriminate Hemp.
    + intros c Hin. rewrite removelast_last in Hin. apply Hwarn. exact Hin.
Qed.

End WithXlsx.
End XlsxSplitterFacts.

(* ================================================================== *)
(** * The size bound of the two splitters *)

Module SplitBound.
Import Example.

Section WithLibraries.
Context {B : Bytes} {F : Fitz} {X : Xlsx}.

(** C2, as amended: of the chunks a splitter returns, each is at most
    4 MiB long or holds a single page, respectively a single sheet, which
    is handed on as it is.  For the sheets this takes a group of sheets to
    serialize to no more than the sum of what its sheets serialize to one
    by one, which is what the estimates of the splitter stand for.  The
    paged splitter logs nothing on the way; the sheeted splitter has
    logged a warning for every over-sized chunk written inside the loop
    over the sheets, that is for every one but the last chunk. *)
Theorem split_size_bound :
  XlsxSplitter.group_within_estimates ->
  (forall file_bytes records chunks,
      PdfSplitter.split_pdf file_bytes = (records, Returned chunks) ->
      records = []
      /\ Forall (fun chunk =>
                   len chunk <= 4 * 1024 * 1024
                   \/ exists src_doc p,
                        fitz_open file_bytes = Ok src_doc
                        /\ 0 <= p < Z.of_N (page_count src_doc)
                        /\ save_pages src_doc p p = Ok chunk) chunks)
  /\ (forall file_bytes records chunks,
         XlsxSplitter.split_xlsx file_bytes = (records, Returned chunks) ->
         Forall (fun chunk =>
                   len chunk <= 4 * 1024 * 1024
                   \/ exists wb sheet_name,
                        load_workbook file_bytes = Ok wb
                        /\ save_sheets wb [sheet_name] = Ok chunk) chunks
         /\ (forall chunk,
                In chunk (removelast chunks) -> 4 * 1024 * 1024 < len chunk ->
                exists sheets,
                  In (WarnChunkExceedsLimit (len chunk) sheets) records)).
Proof.
  intros Hsub. split.
  - intros file_bytes records chunks.
    apply PdfSplitterFacts.split_pdf_chunks_bounded.
  - intros file_bytes records chunks.
    apply XlsxSplitterFacts.split_xlsx_chunks_bounded. exact Hsub.
Qed.

End WithLibraries.

(** ** In the small world *)

Lemma find_sheets_size (wb : list (pystr * N)) (names : list pystr)
    (l : list (pystr * N)) :
  find_sheets wb names = Some l ->
  Z.of_N (total_size l) = XlsxSplitter.sum_estimates (X := xlsx) wb names.
Proof.
  revert l. induction names as [|name rest IH]; intros l; simpl.
  - intros E. inversion E. reflexivity.
  - destruct (find_sheet wb name) as [s|] eqn:Hs; [|discriminate].
    destruct (find_sheets wb rest) as [l'|]; [|discriminate].
    intros E. inversion E; subst.
    unfold XlsxSplitter.sum_estimates in *. simpl map. simpl fold_right.
    rewrite <- (IH l' eq_refl).
    unfold XlsxSplitter.estimate. simpl. rewrite Hs.
    unfold total_size. simpl. unfold total_size. simpl. lia.
Qed.

Lemma example_group_within_estimates :
  XlsxSplitter.group_within_estimates (X := xlsx).
Proof.
  intros wb names chunk. simpl.
  destruct (find_sheets wb names) as [l|] eqn:Hl; [|discriminate].
  intros E. inversion E; subst. simpl.
  rewrite (find_sheets_size wb names l Hl). lia.
Qed.

Example split_pdf_four_pages :
  PdfSplitter.split_pdf four_pages
  = ([], Returned [pack [page 1500000; page 1500000];
                   pack [page 1500000; page 1500000]]).
Proof. vm_compute. reflexivity. Qed.

Example split_xlsx_big_sheet_in_the_middle :
  XlsxSplitter.split_xlsx big_sheet_in_the_middle
  = ([WarnChunkExceedsLimit 5000000 [of_string "B"]],
     Returned [pack [sheet "A" 1000000]; pack [sheet "B" 5000000];
               pack [sheet "C" 1000000]]).
Proof. vm_compute. reflexivity. Qed.

Lemma split_size_bound_witness :
  fst (PdfSplitter.split_pdf four_pages) = []
  /\ exists sheets,
       In (WarnChunkExceedsLimit 5000000 sheets)
          (fst (XlsxSplitter.split_xlsx big_sheet_in_the_middle)).
Proof.
  destruct (split_size_bound example_group_within_estimates) as [Hpdf Hxlsx].
  split.
  - refine (proj1 (Hpdf four_pages _ _ _)). vm_compute. reflexivity.
  - refine (proj2 (Hxlsx big_sheet_in_the_middle _ _ _)
              (pack [sheet "B" 5000000]) _ _).
    + vm_compute. reflexivity.
    + vm_compute. right. left. reflexivity.
    + vm_compute. reflexivity.
Defined.

(** C2 fails as stated: a page that alone serializes beyond the limit is
    handed on, and nothing is logged. *)
Lemma split_pdf_oversized_page_unsignalled :
  exists chunk,
    PdfSplitter.split_pdf one_big_page = ([], Returned [chunk])
    /\ PdfSplitter.TARGET_LIMIT_BYTES < len chunk.
Proof. eexists. split; vm_compute; reflexivity. Qed.

(** The same holds of the sheeted splitter when the over-sized group is
    the one written after the loop. *)
Lemma split_xlsx_last_group_unsignalled :
  exists chunk,
    XlsxSplitter.split_xlsx one_big_sheet = ([], Returned [chunk])
    /\ XlsxSplitter.TARGET_LIMIT_BYTES < len chunk.
Proof. eexists. split; vm_compute; reflexivity. Qed.

(** C5 fails as stated: a small input without pages comes back as the
    only chunk. *)
Lemma split_pdf_small_without_pages :
  len no_pages_small < PdfSplitter.TARGET_LIMIT_BYTES
  /\ fitz_open no_pages_small = Ok (no_pages_doc)
  /\ page_count (Fitz := fitz) no_pages_doc = 0%N
  /\ PdfSplitter.split_pdf no_pages_small = ([], Returned [no_pages_small])
  /\ snd (PdfSplitter.split_pdf no_pages_small) <> Returned [].
Proof. repeat split. discriminate. Qed.

Lemma split_pdf_small_or_empty_witness :
  PdfSplitter.split_pdf no_pages_small = ([], Returned [no_pages_small])
  /\ PdfSplitter.split_pdf no_pages_large = ([], Returned []).
Proof.
  split.
  - apply (proj1 (PdfSplitterFacts.split_pdf_small_or_empty no_pages_small)).
    vm_compute. reflexivity.
  - apply (proj2 (PdfSplitterFacts.split_pdf_small_or_empty (F := fitz)
                    no_pages_large) no_pages_doc).
    + vm_compute. discriminate.
    + reflexivity.
    + reflexivity.
Defined.

Lemma split_xlsx_rejects_invalid_witness :
  XlsxSplitter.split_xlsx corrupt_small
  = ([LogException (External 2)], Raised (XLSXSplitError (External 2))).
Proof.
  apply (proj1 (XlsxSplitterFacts.split_xlsx_rejects_invalid corrupt_small
                  (External 2))).
  reflexivity.
Defined.

Lemma split_pdf_terminates_witness :
  PdfSplitter.try_batch (F := fitz) four_pages_doc 4 0 3 = PdfSplitter.Retry 2
  /\ (exists chunk_data batch_size,
         PdfSplitter.try_batch (F := fitz) four_pages_doc 4 3 1
         = PdfSplitter.Accepted chunk_data 4 batch_size)
  /\ snd (PdfSplitter.split_pdf four_pages) <> Diverged.
Proof.
  destruct (PdfSplitterFacts.split_pdf_terminates (F := fitz))
    as [Hretry [Haccept [_ Hends]]].
  split; [|split].
  - refine (proj1 (Hretry four_pages_doc 4 0 3 _ O _ _ _)).
    + vm_compute. reflexivity.
    + reflexivity.
    + vm_compute. reflexivity.
  - eexists. eexists. refine (Haccept four_pages_doc 4 3 _ _). reflexivity.
  - apply Hends.
Defined.

End SplitBound.

(* ================================================================== *)
(** * Properties of the processor *)

Module ProcessorFacts.
Import Processor.

Section WithWorld.
Context {B : Bytes} {F : Fitz} {X : Xlsx} {W : World}.

(** C10: called with no file, [process] takes the branch of several
    files: nothing is gathered, the listeners are told that the summary
    starts, one streamed request goes to the agent of the processor with a
    user message whose content list is empty, and the response is handed
    to the caller as it comes: for every event of the stream that has
    data, the data; for every other event that has a message, a newline;
    nothing for the rest.  When the stream ends normally the listeners are
    told that the summary ended.  No file is read and nothing is raised
    before the request. *)
Theorem process_no_files (self : DocumentProcessor) (c : completion)
    (question : pystr) :
  let request := [ {| role := of_string "user"; content_list := [] |} ] in
  let answer := stream_async SelfAgent request in
  let streamed :=
    flat_map (fun ev => match data ev with
                        | Some d => [yielded d]
                        | None => if has_message ev then [yielded [10%N]] else []
                        end)
      (fst answer) in
  process self c [] question
  = (map on_summary_start (listeners self)
     ++ stream_request SelfAgent request :: streamed
     ++ match snd answer with
        | Ok _ => map on_summary_end (listeners self)
        | Err _ => []
        end,
     match snd answer with
     | Ok _ => Returned tt
     | Err e => Raised e
     end).
Proof.
  intros request answer streamed. subst streamed. subst answer.
  change (fun ev : stream_event =>
            match data ev with
            | Some d => [yielded d]
            | None => if has_message ev then [yielded [10%N]] else []
            end) with fragment_of.
  unfold process, gather, _notify_summary_start, _notify_summary_end,
    stream_to_caller, emit, bind. simpl.
  fold request. destruct (stream_async SelfAgent request) as [events [u|e]]; simpl.
  - reflexivity.
  - rewrite (app_nil_r (flat_map fragment_of events)). reflexivity.
Qed.

(** ** Gathering tasks that notify their own failure *)

Lemma let_in_spec {A : Type} (pending : list (task A)) :
  forall free evs started waiting,
    let_in free pending = (evs, started, waiting) ->
    pending = started ++ waiting
    /\ evs = flat_map on_start started
    /\ (pending <> [] -> free <> Some O -> started <> []).
Proof.
  induction pending as [|t rest IH]; intros free evs started waiting; simpl.
  - intros E. inversion E; subst. repeat split. intros Hne. contradiction.
  - destruct free as [[|k]|].
    + intros E. inversion E; subst. repeat split. intros _ Hfree. contradiction.
    + destruct (let_in (Some k) rest) as [[evs' started'] waiting'] eqn:Hrest.
      intros E. inversion E; subst.
      destruct (IH _ _ _ _ Hrest) as [Hp [He _]]. subst.
      repeat split. intros _ _. discriminate.
    + destruct (let_in None rest) as [[evs' started'] waiting'] eqn:Hrest.
      intros E. inversion E; subst.
      destruct (IH _ _ _ _ Hrest) as [Hp [He _]]. subst.
      repeat split. intros _ _. discriminate.
Qed.

Lemma flat_map_calm {A : Type} (self : DocumentProcessor) (ts : list (task A)) :
  Forall (self_reporting self) ts -> Forall calm (flat_map on_start ts).
Proof.
  induction 1 as [|t ts [Hstart _] _ IH]; simpl; [constructor|].
  apply Forall_app. split; assumption.
Qed.

Lemma skipn_in_range {A : Type} (l : list A) (i : nat) :
  (i < length l)%nat ->
  exists x after, skipn i l = x :: after /\ l = firstn i l ++ x :: after.
Proof.
  intros Hi. destruct (skipn i l) as [|x after] eqn:E.
  - apply (f_equal (@length A)) in E. rewrite length_skipn in E. simpl in E. lia.
  - exists x, after. split; [reflexivity|].
    rewrite <- E. symmetry. apply firstn_skipn.
Qed.

Lemma skipn_removed {A : Type} (l : list A) (i : nat) (x : A) (after : list A) :
  skipn i l = x :: after -> Permutation (x :: firstn i l ++ after) l.
Proof.
  intros Hskip. rewrite <- (firstn_skipn i l) at 2. rewrite Hskip.
  apply Permutation_middle.
Qed.

Lemma left_of_gathering {A : Type} (t : A) (started waiting running remaining : list A) :
  Permutation (t :: remaining) (running ++ started) ->
  Permutation (t :: waiting ++ remaining) ((started ++ waiting) ++ running).
Proof.
  intros Hperm.
  apply Permutation_trans with (waiting ++ t :: remaining);
    [apply Permutation_middle|].
  apply Permutation_trans with (waiting ++ running ++ started);
    [apply Permutation_app_head; exact Hperm|].
  rewrite <- app_assoc, (app_assoc waiting running started).
  apply Permutation_app_comm.
Qed.

Lemma lingering_more {A : Type} (self : DocumentProcessor)
    (rest rest' : list (task A)) (ev : event) :
  (forall t, In t rest -> In t rest') ->
  lingering self rest ev -> lingering self rest' ev.
Proof.
  intros Hsub [Hcalm|[t [e [Hin [Hraised Hev]]]]]; [left; exact Hcalm|].
  right. exists t, e. repeat split; try assumption. apply Hsub. exact Hin.
Qed.

Lemma calm_lingering {A : Type} (self : DocumentProcessor) (rest : list (task A))
    (evs : list event) :
  Forall calm evs -> Forall (lingering self rest) evs.
Proof.
  intros H. eapply Forall_impl; [|exact H]. intros ev Hev. left. exact Hev.
Qed.

(** What the tasks that are left do after the failure of another. *)
Lemma linger_self_reporting {A : Type} (self : DocumentProcessor)
    (capacity : option nat) (order : list nat) :
  forall (pending running : list (task A)) (stuck : nat),
    Forall (self_reporting self) pending ->
    Forall (self_reporting self) running ->
    Forall (lingering self (pending ++ running))
      (linger capacity order pending running stuck).
Proof.
  induction order as [|next order IH]; intros pending running stuck Hpend Hrun;
    [constructor|].
  cbn [linger].
  destruct (let_in _ pending) as [[evs started] waiting] eqn:Hin.
  destruct (let_in_spec _ _ _ _ _ Hin) as [Hsplit [Hevs _]].
  rewrite Hsplit in Hpend. apply Forall_app in Hpend.
  destruct Hpend as [Hstarted Hwaiting].
  assert (Hcalm : Forall calm evs).
  { rewrite Hevs. apply (flat_map_calm self). exact Hstarted. }
  cbv zeta.
  destruct (skipn (next mod length (running ++ started)) (running ++ started))
    as [|t after] eqn:Hskip; [apply calm_lingering; exact Hcalm|].
  pose proof (skipn_removed _ _ _ _ Hskip) as Hperm.
  set (remaining := firstn (next mod length (running ++ started))
                      (running ++ started) ++ after) in *.
  assert (Hall : Forall (self_reporting self) (t :: remaining)).
  { assert (Hboth : Forall (self_reporting self) (running ++ started))
      by (apply Forall_app; split; assumption).
    rewrite Forall_forall in *. intros u Hu. apply Hboth.
    eapply Permutation_in; [exact Hperm | exact Hu]. }
  inversion Hall as [|? ? Ht Hrest]; subst.
  assert (Hsub : forall u, In u (t :: waiting ++ remaining) ->
                           In u ((started ++ waiting) ++ running)).
  { intros u Hu. eapply Permutation_in; [|exact Hu].
    apply left_of_gathering. exact Hperm. }
  destruct Ht as [_ Hfinish].
  destruct (on_finish t) as [evs_t [a|e|]] eqn:Hfin; [| |contradiction].
  - apply Forall_app. split; [apply calm_lingering; exact Hcalm|].
    apply Forall_app. split; [apply calm_lingering; exact Hfinish|].
    eapply Forall_impl; [|apply (IH waiting remaining stuck Hwaiting Hrest)].
    intros ev. apply lingering_more. intros u Hu. apply Hsub. right. exact Hu.
  - apply Forall_app. split; [apply calm_lingering; exact Hcalm|].
    apply Forall_app. split.
    + apply Forall_forall. intros ev Hev. right. exists t, e.
      split; [apply Hsub; left; reflexivity|].
      split; [rewrite Hfin; reflexivity|]. rewrite <- Hfinish. exact Hev.
    + eapply Forall_impl; [|apply (IH waiting remaining stuck Hwaiting Hrest)].
      intros ev. apply lingering_more. intros u Hu. apply Hsub. right. exact Hu.
Qed.

Lemma gather_loop_self_reporting {A : Type} (self : DocumentProcessor)
    (capacity : option nat) (fuel : nat) :
  (forall c, capacity = Some c -> (1 <= c)%nat) ->
  forall (order : list nat) (pending running : list (task A)),
    Forall (self_reporting self) pending ->
    Forall (self_reporting self) running ->
    (length pending + length running < fuel)%nat ->
    match gather_loop fuel capacity order pending running O with
    | (evs, Returned _) =>
        Forall calm evs
        /\ (forall t, In t (pending ++ running) -> succeeded t)
    | (evs, Raised e) =>
        exists before later t rest,
          evs = before ++ error_hooks self e ++ later
          /\ Forall calm before
          /\ Permutation (t :: rest) (pending ++ running)
          /\ snd (on_finish t) = Raised e
          /\ Forall (lingering self rest) later
    | (_, Diverged) => False
    end.
Proof.
  intros Hcap. induction fuel as [|fuel IH];
    intros order pending running Hpend Hrun Hfuel; [lia|].
  cbn [gather_loop].
  set (free := option_map (fun c => (c - length running - 0)%nat) capacity).
  assert (Hfree : running = [] -> free <> Some O).
  { intros ->. subst free. destruct capacity as [c|]; simpl; [|discriminate].
    specialize (Hcap c eq_refl). intros E. inversion E. lia. }
  clearbody free.
  destruct (let_in free pending) as [[evs started] waiting] eqn:Hin.
  destruct (let_in_spec _ _ _ _ _ Hin) as [Hsplit [Hevs Hsome]].
  assert (Hstarted : Forall (self_reporting self) started).
  { rewrite Hsplit in Hpend. apply Forall_app in Hpend. tauto. }
  assert (Hwaiting : Forall (self_reporting self) waiting).
  { rewrite Hsplit in Hpend. apply Forall_app in Hpend. tauto. }
  assert (Hcalm : Forall calm evs).
  { rewrite Hevs. apply (flat_map_calm self). exact Hstarted. }
  destruct (running ++ started) as [|t0 others] eqn:Hrunning.
  - apply app_eq_nil in Hrunning. destruct Hrunning as [Hr Hs].
    subst running started.
    assert (Hnone : pending = []).
    { destruct pending as [|p ps]; [reflexivity|exfalso].
      apply Hsome; [discriminate | apply Hfree; reflexivity | reflexivity]. }
    assert (Hw : waiting = [])
      by (rewrite Hnone in Hsplit; simpl in Hsplit; congruence).
    rewrite Hw, Hnone. split; [exact Hcalm|]. intros t [].
  - rewrite <- Hrunning.
    assert (Hall : Forall (self_reporting self) (running ++ started)).
    { apply Forall_app. split; assumption. }
    assert (Hlen : (0 < length (running ++ started))%nat)
      by (rewrite Hrunning; simpl; lia).
    set (i := (hd O order mod length (running ++ started))%nat).
    assert (Hi : (i < length (running ++ started))%nat).
    { subst i. apply Nat.mod_upper_bound. lia. }
    destruct (skipn_in_range _ i Hi) as [t [after [Hskip Hparts]]].
    rewrite Hskip.
    pose proof (skipn_removed _ _ _ _ Hskip) as Hperm.
    set (remaining := firstn i (running ++ started) ++ after) in *.
    assert (Hall' : Forall (self_reporting self) (t :: remaining)).
    { rewrite Forall_forall in *. intros u Hu. apply Hall.
      eapply Permutation_in; [exact Hperm | exact Hu]. }
    inversion Hall' as [|? ? Ht Hrest]. subst x l.
    assert (Hleft : Permutation (t :: waiting ++ remaining)
                      (pending ++ running)).
    { rewrite Hsplit. apply left_of_gathering. exact Hperm. }
    assert (Hcount : (length waiting + length remaining < fuel)%nat).
    { apply Permutation_length in Hleft.
      simpl in Hleft. rewrite !length_app in *. lia. }
    destruct Ht as [_ Hfinish].
    destruct (on_finish t) as [evs_t [a|e|]] eqn:Hfin; [| |contradiction].
    + specialize (IH (tl order) waiting remaining Hwaiting Hrest Hcount).
      destruct (gather_loop fuel capacity (tl order) waiting remaining O)
        as [evs' [u|e|]].
      * destruct IH as [Hcalm' Hsucc]. split.
        -- apply Forall_app. split; [exact Hcalm|].
           apply Forall_app. split; assumption.
        -- intros u' Hu'.
           apply (Permutation_in u' (Permutation_sym Hleft)) in Hu'.
           destruct Hu' as [<-|Hu'].
           ++ exists a. rewrite Hfin. reflexivity.
           ++ apply Hsucc. exact Hu'.
      * destruct IH as [before [later [t' [rest [He [Hb [Hp [Hfail Hlater]]]]]]]].
        exists (evs ++ evs_t ++ before), later, t', (t :: rest).
        split; [rewrite He; rewrite <- !app_assoc; reflexivity|].
        split.
        { apply Forall_app. split; [exact Hcalm|].
          apply Forall_app. split; assumption. }
        split.
        { apply Permutation_trans with (t :: t' :: rest); [apply perm_swap|].
          apply Permutation_trans with (t :: waiting ++ remaining);
            [apply perm_skip; exact Hp | exact Hleft]. }
        split; [exact Hfail|].
        eapply Forall_impl; [|exact Hlater].
        intros ev. apply lingering_more. intros u Hu. right. exact Hu.
      * exact IH.
    + exists evs, (linger capacity (tl order) waiting remaining 0), t,
        (waiting ++ remaining).
      split; [rewrite Hfinish; reflexivity|].
      split; [exact Hcalm|]. split; [exact Hleft|].
      split; [rewrite Hfin; reflexivity|].
      apply linger_self_reporting; assumption.
Qed.

Lemma values_of_succeeded {A : Type} (tasks : list (task A)) :
  (forall t, In t tasks -> succeeded t) -> exists l, values_of tasks = Some l.
Proof.
  induction tasks as [|t rest IH]; intros Hall; simpl.
  - exists []. reflexivity.
  - destruct (Hall t (or_introl eq_refl)) as [a Ha]. rewrite Ha.
    destruct IH as [l Hl]; [intros u Hu; apply Hall; right; exact Hu|].
    rewrite Hl. exists (a :: l). reflexivity.
Qed.

(** [gather] over such tasks, with at least one slot: it does not hang;
    when a task fails it raises the error of a failed task, after the
    hooks for that error; what comes later is what the other tasks do. *)
Lemma gather_self_reporting {A : Type} (self : DocumentProcessor)
    (capacity : nat) (order : list nat) (tasks : list (task A)) :
  (1 <= capacity)%nat ->
  Forall (self_reporting self) tasks ->
  match gather (Some capacity) order tasks with
  | (evs, Returned _) => Forall calm evs /\ (forall t, In t tasks -> succeeded t)
  | (evs, Raised e) =>
      exists before later t rest,
        evs = before ++ error_hooks self e ++ later
        /\ Forall calm before
        /\ Permutation (t :: rest) tasks
        /\ snd (on_finish t) = Raised e
        /\ Forall (lingering self rest) later
  | (_, Diverged) => False
  end.
Proof.
  intros Hcap Hall. unfold gather.
  pose proof (gather_loop_self_reporting self (Some capacity) (S (length tasks))
                ltac:(intros c E; inversion E; subst; exact Hcap)
                order tasks [] Hall (Forall_nil _) ltac:(simpl; lia)) as Hloop.
  destruct (gather_loop (S (length tasks)) (Some capacity) order tasks [] O)
    as [evs [u|e|]].
  - destruct Hloop as [Hcalm Hsucc]. rewrite app_nil_r in Hsucc.
    destruct (values_of_succeeded tasks Hsucc) as [l Hl]. rewrite Hl.
    split; assumption.
  - destruct Hloop as [before [later [t [rest [He [Hb [Hp [Hfail Hlater]]]]]]]].
    rewrite app_nil_r in Hp. exists before, later, t, rest.
    repeat split; assumption.
  - exact Hloop.
Qed.

(** ** A chunk whose analysis fails *)

Lemma notifications_calm (f : listener -> event) (ls : list listener) :
  (forall l, calm (f l)) -> Forall calm (map f ls).
Proof.
  intros Hf. induction ls as [|l ls IH]; simpl; constructor; [apply Hf | exact IH].
Qed.

Lemma _process_chunk_finish (self : DocumentProcessor) (chunk : bytes)
    (chunk_number : Z) (file_name question file_format : pystr) :
  let request :=
    _create_document_message file_format
      (file_name ++ of_string "_" ++ str_of_int chunk_number) chunk
      (chunk_text question) in
  on_finish (_process_chunk self chunk chunk_number file_name question file_format)
  = match invoke_async (_create_agent self SYSTEM_CHUNK_PROMPT false) request with
    | Ok response =>
        (map (fun l => on_chunk_end l chunk_number file_name response)
           (listeners self),
         Returned (chunk_number, response))
    | Err e => (error_hooks self e, Raised e)
    end.
Proof.
  intros request. unfold _process_chunk. cbn [on_finish]. fold request.
  destruct (invoke_async (_create_agent self SYSTEM_CHUNK_PROMPT false) request)
    as [response|e]; simpl; rewrite ?app_nil_r; reflexivity.
Qed.

Lemma _process_chunk_self_reporting (self : DocumentProcessor) (chunk : bytes)
    (chunk_number : Z) (file_name question file_format : pystr) :
  self_reporting self
    (_process_chunk self chunk chunk_number file_name question file_format).
Proof.
  split.
  - unfold _process_chunk. cbn [on_start]. apply Forall_app. split.
    + apply notifications_calm. intros l. repeat split.
    + constructor; [repeat split | constructor].
  - rewrite _process_chunk_finish. cbv zeta.
    destruct (invoke_async _ _) as [response|e]; [|reflexivity].
    apply notifications_calm. intros l. repeat split.
Qed.

Lemma filter_calm (p : event -> bool) (l : list event) :
  (forall ev, calm ev -> p ev = false) -> Forall calm l -> filter p l = [].
Proof.
  intros Hp. induction 1 as [|ev l Hev _ IH]; simpl; [reflexivity|].
  rewrite (Hp ev Hev). exact IH.
Qed.

Lemma filter_error_hooks (self : DocumentProcessor) (e : exn) :
  filter is_on_error (error_hooks self e) = error_hooks self e
  /\ filter is_stream_request (error_hooks self e) = []
  /\ filter is_log (error_hooks self e) = [].
Proof.
  unfold error_hooks. induction (listeners self) as [|l ls [H1 [H2 H3]]]; simpl.
  - repeat split.
  - rewrite H1, H2, H3. repeat split.
Qed.

Lemma filter_logs (records : list log_record) :
  filter is_on_error (map log records) = []
  /\ filter is_stream_request (map log records) = []
  /\ filter is_log (map log records) = map log records.
Proof.
  induction records as [|r rs [H1 [H2 H3]]]; simpl.
  - repeat split.
  - rewrite H1, H2, H3. repeat split.
Qed.

Lemma filters_of_failed_run (self : DocumentProcessor)
    (records : list log_record) (starts before : list event) (e : exn) :
  Forall calm starts -> Forall calm before ->
  let trace := map log records ++ starts ++ before ++ error_hooks self e in
  filter is_on_error trace = error_hooks self e
  /\ filter is_stream_request trace = []
  /\ filter is_log trace = map log records.
Proof.
  intros Hs Hb trace. subst trace. rewrite !filter_app.
  destruct (filter_logs records) as [L1 [L2 L3]].
  destruct (filter_error_hooks self e) as [E1 [E2 E3]].
  rewrite L1, L2, L3, E1, E2, E3.
  rewrite (filter_calm is_on_error starts), (filter_calm is_on_error before),
    (filter_calm is_stream_request starts), (filter_calm is_stream_request before),
    (filter_calm is_log starts), (filter_calm is_log before);
    try assumption; try (intros ev [H1 [H2 H3]]; assumption).
  simpl. rewrite !app_nil_r. repeat split.
Qed.

Lemma enumerate_from_functional {A : Type} (start : Z) (xs : list A)
    (j : Z) (c1 c2 : A) :
  In (j, c1) (enumerate_from start xs) -> In (j, c2) (enumerate_from start xs) ->
  c1 = c2.
Proof.
  revert start. induction xs as [|x xs IH]; intros start; simpl; [tauto|].
  pose proof (ReductionFacts.enumerate_from_keys (start + 1) xs) as Hkeys.
  rewrite Forall_forall in Hkeys.
  intros [E1|H1] [E2|H2].
  - congruence.
  - inversion E1; subst. specialize (Hkeys _ H2). simpl in Hkeys. lia.
  - inversion E2; subst. specialize (Hkeys _ H1). simpl in Hkeys. lia.
  - apply (IH (start + 1)); assumption.
Qed.

Lemma enumerate_from_nodup {A : Type} (start : Z) (xs : list A) :
  NoDup (map fst (enumerate_from start xs)).
Proof.
  revert start. induction xs as [|x xs IH]; intros start; simpl; constructor.
  - intros Hin. apply in_map_iff in Hin. destruct Hin as [r [Hr Hin]].
    pose proof (ReductionFacts.enumerate_from_keys (start + 1) xs) as Hkeys.
    rewrite Forall_forall in Hkeys. specialize (Hkeys r Hin).
    cbv beta in Hkeys. lia.
  - apply IH.
Qed.

Lemma filter_lingering {A : Type} (self : DocumentProcessor) (rest : list (task A))
    (later : list event) :
  Forall (lingering self rest) later ->
  filter is_stream_request later = []
  /\ filter is_log later = []
  /\ ((forall t, In t rest -> succeeded t) -> filter is_on_error later = []).
Proof.
  induction 1 as [|ev later Hev _ [IH1 [IH2 IH3]]]; simpl; [repeat split|].
  destruct Hev as [[C1 [C2 C3]]|[t [e [Hin [Hraised Hhook]]]]].
  - rewrite C1, C2, C3. repeat split; assumption.
  - unfold error_hooks in Hhook. apply in_map_iff in Hhook.
    destruct Hhook as [l [<- _]]. simpl.
    split; [exact IH1|]. split; [exact IH2|].
    intros Hall. destruct (Hall t Hin) as [a Ha].
    rewrite Ha in Hraised. discriminate Hraised.
Qed.

(** The trace of a run that fails in its gathering. *)
Lemma failed_run_trace {A : Type} (self : DocumentProcessor)
    (records : list log_record) (starts before later : list event) (e : exn)
    (rest : list (task A)) :
  Forall calm starts -> Forall calm before ->
  Forall (lingering self rest) later ->
  let trace :=
    map log records ++ starts ++ before ++ error_hooks self e ++ later in
  filter is_stream_request trace = []
  /\ filter is_log trace = map log records
  /\ ((forall t, In t rest -> succeeded t) ->
      filter is_on_error trace = error_hooks self e)
  /\ (forall l, In l (listeners self) -> In (on_error l e) trace)
  /\ (forall l e', In (on_error l e') trace ->
                   e' = e
                   \/ exists t, In t rest /\ snd (on_finish t) = Raised e').
Proof.
  intros Hs Hb Hl trace. subst trace.
  destruct (filter_logs records) as [L1 [L2 L3]].
  destruct (filter_error_hooks self e) as [E1 [E2 E3]].
  destruct (filter_lingering self rest later Hl) as [T2 [T3 T1]].
  assert (Hnot : forall l e' evs, Forall calm evs -> ~ In (on_error l e') evs).
  { intros l e' evs Hcalm Hin. rewrite Forall_forall in Hcalm.
    destruct (Hcalm _ Hin) as [C _]. discriminate C. }
  split; [|split; [|split; [|split]]].
  - rewrite !filter_app, L2, E2, T2.
    rewrite (filter_calm is_stream_request starts),
      (filter_calm is_stream_request before);
      try assumption; try (intros ev [H1 [H2 H3]]; assumption).
    reflexivity.
  - rewrite !filter_app, L3, E3, T3.
    rewrite (filter_calm is_log starts), (filter_calm is_log before);
      try assumption; try (intros ev [H1 [H2 H3]]; assumption).
    simpl. rewrite app_nil_r. reflexivity.
  - intros Hall. rewrite !filter_app, L1, E1, (T1 Hall).
    rewrite (filter_calm is_on_error starts), (filter_calm is_on_error before);
      try assumption; try (intros ev [H1 [H2 H3]]; assumption).
    simpl. rewrite app_nil_r. reflexivity.
  - intros l Hl'. apply in_or_app. right. apply in_or_app. right.
    apply in_or_app. right. apply in_or_app. left.
    unfold error_hooks. apply (in_map (fun l0 => on_error l0 e)). exact Hl'.
  - intros l e' Hin. apply in_app_or in Hin. destruct Hin as [Hin|Hin].
    { apply in_map_iff in Hin. destruct Hin as [r [Hr _]]. discriminate Hr. }
    apply in_app_or in Hin. destruct Hin as [Hin|Hin].
    { exfalso. exact (Hnot l e' starts Hs Hin). }
    apply in_app_or in Hin. destruct Hin as [Hin|Hin].
    { exfalso. exact (Hnot l e' before Hb Hin). }
    apply in_app_or in Hin. destruct Hin as [Hin|Hin].
    + left. unfold error_hooks in Hin. apply in_map_iff in Hin.
      destruct Hin as [l0 [E _]]. inversion E. reflexivity.
    + right. rewrite Forall_forall in Hl.
      destruct (Hl _ Hin) as [[C _]|[t [e0 [Ht [Hraised Hhook]]]]];
        [discriminate C|].
      unfold error_hooks in Hhook. apply in_map_iff in Hhook.
      destruct Hhook as [l0 [E _]]. inversion E; subst.
      exists t. split; assumption.
Qed.

(** C8: in a chunked run in which the analysis of a chunk raises, the
    processing of the file ends with the error of a chunk whose analysis
    raised, and by then the error hook of every registered listener was
    called with the error that is raised.  The other analyses are not
    cancelled and may go on: every call of the error hook in the run is
    for the error of a chunk whose analysis raised.  When no other chunk
    fails, the error raised is that very error, and the error hook is
    called once for each registered listener, with that error, and not
    otherwise.  In every case no streamed request is made, and nothing is
    logged beyond the records of the splitter, so that no consolidated
    context is built.  This holds for every order in which the analyses
    complete and however long the other analyses go on, given at least one
    worker slot. *)
Theorem chunk_failure_fails_file (self : DocumentProcessor) (order : list nat)
    (file_bytes : bytes) (file : DocumentFile) (question : pystr)
    (with_callback : bool) (records : list log_record) (chunks : list bytes)
    (i : Z) (chunk : bytes) (e : exn) :
  let handler := get_handler (file_path file) in
  let name := Sanitize.sanitize_filename (file_name file) in
  let analyst := _create_agent self SYSTEM_CHUNK_PROMPT false in
  let request_of := fun (j : Z) (c : bytes) =>
    _create_document_message (handler_format handler)
      (name ++ of_string "_" ++ str_of_int j) c (chunk_text question) in
  handler_split handler file_bytes = (records, Returned chunks) ->
  1 <= max_workers self ->
  In (i, chunk) (enumerate_from 1 chunks) ->
  invoke_async analyst (request_of i chunk) = Err e ->
  exists trace e' j chunk',
    _process_big self order file_bytes file question with_callback
    = (trace, Raised e')
    /\ In (j, chunk') (enumerate_from 1 chunks)
    /\ invoke_async analyst (request_of j chunk') = Err e'
    /\ (forall l, In l (listeners self) -> In (on_error l e') trace)
    /\ (forall l e'', In (on_error l e'') trace ->
        exists j c, In (j, c) (enumerate_from 1 chunks)
                    /\ invoke_async analyst (request_of j c) = Err e'')
    /\ ((forall j c, In (j, c) (enumerate_from 1 chunks) -> j <> i ->
         exists response, invoke_async analyst (request_of j c) = Ok response) ->
        e' = e
        /\ filter is_on_error trace
           = map (fun l => on_error l e) (listeners self))
    /\ filter is_stream_request trace = []
    /\ filter is_log trace = map log records.
Proof.
  intros handler name analyst request_of Hsplit Hworkers Hin Hfail.
  unfold _process_big. fold handler. fold name. rewrite Hsplit.
  set (make := fun '(j, c) =>
                 _process_chunk self c j name question (handler_format handler)).
  set (tasks := map make (enumerate_from 1 chunks)).
  assert (Hall : Forall (self_reporting self) tasks).
  { subst tasks. apply Forall_forall. intros t Ht.
    apply in_map_iff in Ht. destruct Ht as [[j c] [<- _]].
    apply _process_chunk_self_reporting. }
  assert (Hfailed : forall j c e0,
             invoke_async analyst (request_of j c) = Err e0 <->
             snd (on_finish (make (j, c))) = Raised e0).
  { intros j c e0. unfold make. rewrite _process_chunk_finish. cbv zeta.
    fold name. fold analyst. fold (request_of j c).
    destruct (invoke_async analyst (request_of j c)) as [response|e1]; simpl.
    - split; discriminate.
    - split; intros E; inversion E; reflexivity. }
  assert (Hsem : new_semaphore (max_workers self)
                 = ret (Z.to_nat (max_workers self))).
  { unfold new_semaphore. destruct (Z.ltb_spec (max_workers self) 0);
      [lia | reflexivity]. }
  pose proof (gather_self_reporting self (Z.to_nat (max_workers self)) order tasks
                ltac:(lia) Hall) as Hgather.
  unfold of_logged, bind, _notify_processing_start, emit. cbn [fst snd].
  rewrite Hsem. unfold ret. fold tasks.
  destruct (gather (Some (Z.to_nat (max_workers self))) order tasks)
    as [evs [results|e'|]].
  - exfalso. destruct Hgather as [_ Hsucc].
    destruct (Hsucc (make (i, chunk))) as [a Ha].
    { subst tasks. apply in_map. exact Hin. }
    apply Hfailed in Hfail. rewrite Hfail in Ha. discriminate Ha.
  - destruct Hgather as [before [later [t [rest [Hevs [Hcalm [Hperm [Hraised Hlater]]]]]]]].
    subst tasks.
    destruct (Permutation_map_inv make (enumerate_from 1 chunks) Hperm) as [arranged [Hmap Harr]].
    destruct arranged as [|[j c] others]; [discriminate Hmap|].
    simpl in Hmap. injection Hmap as Ht Hrest.
    assert (Hmember : forall x, In x ((j, c) :: others) -> In x (enumerate_from 1 chunks)).
    { intros x Hx. eapply Permutation_in; [apply Permutation_sym; exact Harr|].
      exact Hx. }
    assert (Hjc : In (j, c) (enumerate_from 1 chunks)) by (apply Hmember; left; reflexivity).
    assert (Hkeys : NoDup (j :: map fst others)).
    { apply (Permutation_NoDup (l := map fst (enumerate_from 1 chunks))).
      - apply (Permutation_map fst) in Harr. exact Harr.
      - apply enumerate_from_nodup. }
    rewrite Ht in Hraised. apply Hfailed in Hraised.
    assert (Hstarts : Forall calm
                        (map (fun l => on_processing_start l name
                                         (Z.of_nat (length chunks)))
                           (listeners self))).
    { apply notifications_calm. intros l. repeat split. }
    destruct (failed_run_trace self records _ before later e' rest
                Hstarts Hcalm Hlater)
      as [Fstream [Flog [Ferr [Fhooks Fonly]]]].
    subst evs. eexists. exists e', j, c. split; [reflexivity|].
    split; [exact Hjc|]. split; [exact Hraised|].
    split; [exact Fhooks|]. split.
    { intros l e'' Hhook. destruct (Fonly l e'' Hhook) as [->|[t' [Ht' Hr']]].
      - exists j, c. split; assumption.
      - rewrite Hrest in Ht'. apply in_map_iff in Ht'.
        destruct Ht' as [[j' c'] [<- Hx]]. apply Hfailed in Hr'.
        exists j', c'. split; [apply Hmember; right; exact Hx | exact Hr']. }
    split; [|split; assumption].
    intros Hothers.
    assert (Hji : j = i).
    { destruct (Z.eq_dec j i) as [E|Hne]; [exact E|].
      destruct (Hothers j c Hjc Hne) as [response Hok].
      rewrite Hok in Hraised. discriminate Hraised. }
    subst j. split.
    + rewrite (enumerate_from_functional 1 chunks i c chunk Hjc Hin) in Hraised.
      rewrite Hfail in Hraised. inversion Hraised. reflexivity.
    + assert (He : e' = e).
      { rewrite (enumerate_from_functional 1 chunks i c chunk Hjc Hin) in Hraised.
        rewrite Hfail in Hraised. inversion Hraised. reflexivity. }
      rewrite <- He. apply Ferr.
      intros t' Ht'. rewrite Hrest in Ht'. apply in_map_iff in Ht'.
      destruct Ht' as [[j' c'] [<- Hx]].
      assert (Hne : j' <> i).
      { intros ->. inversion Hkeys as [|? ? Hnotin _]. apply Hnotin.
        apply (in_map fst) in Hx. exact Hx. }
      destruct (Hothers j' c' (Hmember _ (or_intror Hx)) Hne) as [response Hok].
      exists (j', response). unfold make. rewrite _process_chunk_finish.
      cbv zeta. fold name. fold analyst. fold (request_of j' c').
      rewrite Hok. reflexivity.
  - contradiction.
Qed.

End WithWorld.
End ProcessorFacts.

(* ================================================================== *)
(** * Failures that reach the caller *)

Module FailureFacts.
Import Processor Example.

Section WithWorld.
Context {B : Bytes} {F : Fitz} {X : Xlsx} {W : World}.

(** When the splitter raises, [_process_big] raises the same error and
    no hook of any listener is called. *)
Lemma _process_big_split_failure (self : DocumentProcessor) (order : list nat)
    (file_bytes : bytes) (file : DocumentFile) (question : pystr)
    (with_callback : bool) (records : list log_record) (e : exn) :
  handler_split (get_handler (file_path file)) file_bytes
  = (records, Raised e) ->
  _process_big self order file_bytes file question with_callback
  = (map log records, Raised e).
Proof.
  intros Hsplit. unfold _process_big. rewrite Hsplit. reflexivity.
Qed.

Lemma fragments_not_errors (events : list stream_event) :
  filter is_on_error (flat_map fragment_of events) = [].
Proof.
  induction events as [|ev evs IH]; simpl; [reflexivity|].
  rewrite filter_app, IH, app_nil_r. unfold fragment_of.
  destruct (data ev); [reflexivity|]. destruct (has_message ev); reflexivity.
Qed.

(** The direct path does call the error hook when its stream breaks. *)
Lemma _process_stream_failure (self : DocumentProcessor) (file_bytes : bytes)
    (file : DocumentFile) (question : pystr) (with_callback : bool)
    (events : list stream_event) (e : exn) :
  let handler := get_handler (file_path file) in
  let name := Sanitize.sanitize_filename (file_name file) in
  let request :=
    _create_document_message (handler_format handler) name file_bytes
      (file_text question) in
  stream_async (_create_agent self SYSTEM_PROMPT with_callback) request
  = (events, Err e) ->
  snd (_process self file_bytes file question with_callback) = Raised e
  /\ filter is_on_error (fst (_process self file_bytes file question with_callback))
     = map (fun l => on_error l e) (listeners self).
Proof.
  intros handler name request Hstream.
  unfold _process, stream_to_caller. fold handler. fold name. fold request.
  rewrite Hstream. simpl. split; [reflexivity|].
  rewrite !filter_app. simpl.
  assert (H1 : forall ls, filter is_on_error
                 (map (fun l => on_processing_start l name 1) ls) = []).
  { induction ls as [|l ls IH]; simpl; [reflexivity | exact IH]. }
  pose proof (fragments_not_errors events) as H2.
  assert (H3 : forall ls, filter is_on_error (map (fun l => on_error l e) ls)
                          = map (fun l => on_error l e) ls).
  { induction ls as [|l ls IH]; simpl; [reflexivity | rewrite IH; reflexivity]. }
  rewrite !filter_app, H1, H2, H3, !app_nil_r. reflexivity.
Qed.

End WithWorld.

(** C1 does not hold of the code: a file over the threshold whose
    splitter raises fails without any call of the error hook of the
    registered listener, and so does a chunked run whose final streamed
    request breaks; the direct path, whose stream breaks the same way,
    does call the hook. *)
Theorem failures_not_notified :
  process (processor "model" [7%N]) in_order [file 2 "bad.xlsx"] question
  = ([log (LogException (External 2))], Raised (XLSXSplitError (External 2)))
  /\ snd (process (processor "unavailable" [7%N]) in_order [file 5 "two.pdf"]
            question) = Raised (External 9)
  /\ filter is_on_error
       (fst (process (processor "unavailable" [7%N]) in_order [file 5 "two.pdf"]
               question)) = []
  /\ snd (process (processor "unavailable" [7%N]) in_order [file 3 "note.txt"]
            question) = Raised (External 9)
  /\ filter is_on_error
       (fst (process (processor "unavailable" [7%N]) in_order [file 3 "note.txt"]
               question)) = [on_error 7%N (External 9)].
Proof. repeat split; vm_compute; reflexivity. Qed.

Lemma chunk_failure_fails_file_witness :
  exists trace e' j chunk',
    _process_big (processor "model" [7%N; 8%N]) [2; 1; 0]%nat three_pages
      (file 1 "report_v2.pdf") question false
    = (trace, Raised e')
    /\ In (j, chunk') (enumerate_from 1 [pack [page 2000000];
                                          pack [page 2000001];
                                          pack [page 2000002]])
    /\ e' = External 7
    /\ filter is_on_error trace
       = [on_error 7%N (External 7); on_error 8%N (External 7)]
    /\ filter is_stream_request trace = [].
Proof.
  destruct (ProcessorFacts.chunk_failure_fails_file
              (processor "model" [7%N; 8%N]) [2; 1; 0]%nat three_pages
              (file 1 "report_v2.pdf") question false []
              [pack [page 2000000]; pack [page 2000001]; pack [page 2000002]]
              2 (pack [page 2000001]) (External 7))
    as [trace [e' [j [chunk' [Hrun [Hin [_ [_ [_ [Hsame [Hstream _]]]]]]]]]]].
  - vm_compute. reflexivity.
  - vm_compute. discriminate.
  - simpl. right. left. reflexivity.
  - vm_compute. reflexivity.
  - assert (He : e' = External 7
                 /\ filter is_on_error trace
                    = map (fun l => on_error l (External 7)) [7%N; 8%N]).
    { apply Hsame. intros j0 c Hc Hne. simpl in Hc.
      destruct Hc as [E|[E|[E|[]]]]; inversion E; subst.
      - eexists. vm_compute. reflexivity.
      - contradiction.
      - eexists. vm_compute. reflexivity. }
    destruct He as [He Herr].
    exists trace, e', j, chunk'. repeat split; assumption.
Defined.

(** Two analyses that fail: the run ends with the first failure, and the
    other goes on while the loop runs, so that the error hook is called
    for it as well; with one worker the third chunk is still started. *)
Example failures_of_two_chunks :
  let run := fun workers order =>
    _process_big (Scenes.processor_with workers) order Scenes.two_failing
      (file 1 "report.pdf") question false in
  snd (run 5 [0; 0; 0]%nat) = Raised (External 7)
  /\ filter is_on_error (fst (run 5 [0; 0; 0]%nat))
     = [on_error 7%N (External 7); on_error 7%N (External 7)]
  /\ filter is_on_error (fst (run 5 [0; 0]%nat)) = [on_error 7%N (External 7)]
  /\ snd (run 1 [0; 0; 0]%nat) = Raised (External 7)
  /\ In (on_chunk_start 7%N 3 (of_string "report pdf")) (fst (run 1 [0; 0; 0]%nat))
  /\ filter is_on_error (fst (run 1 [0; 0; 0]%nat))
     = [on_error 7%N (External 7); on_error 7%N (External 7)]
  /\ filter is_stream_request (fst (run 1 [0; 0; 0]%nat)) = [].
Proof.
  cbv zeta.
  split; [vm_compute; reflexivity|]. split; [vm_compute; reflexivity|].
  split; [vm_compute; reflexivity|]. split; [vm_compute; reflexivity|].
  split; [vm_compute; tauto|].
  split; vm_compute; reflexivity.
Qed.

Lemma process_no_files_witness :
  process (processor "model" [7%N]) in_order [] question
  = ([on_summary_start 7%N;
      stream_request SelfAgent
        [ {| role := [117; 115; 101; 114]%N; content_list := [] |} ];
      yielded [115; 117; 109; 109; 97; 114; 121]%N;
      on_summary_end 7%N],
     Returned tt).
Proof.
  rewrite (ProcessorFacts.process_no_files (processor "model" [7%N]) in_order
             question).
  vm_compute. reflexivity.
Defined.

End FailureFacts.

(* ================================================================== *)
(** * More about [sanitize_filename] *)

Module SanitizeMore.
Import Sanitize SanitizeFacts Shape.

Lemma sanitize_filename_words (name : pystr) :
  sanitize_filename name = join [SPACE] (words [] name).
Proof.
  unfold sanitize_filename, strip. rewrite replace_twice. fold (cleaned name).
  apply (strip_collapse_words name [] (Forall_nil _)).
Qed.

Lemma visible_not_separator (c : N) :
  is_visible c = true -> is_separator c = false.
Proof.
  intros Hv. destruct (is_separator c) eqn:E; [|reflexivity].
  rewrite (separator_not_visible c E) in Hv. discriminate Hv.
Qed.

Lemma words_visible_prefix (w s cur : pystr) :
  Forall (fun c => is_visible c = true) w ->
  words cur (w ++ s) = words (rev w ++ cur) s.
Proof.
  revert cur. induction w as [|c w IH]; intros cur Hw; [reflexivity|].
  inversion Hw as [|? ? Hc Hw']; subst. simpl.
  rewrite (visible_not_separator c Hc), Hc, (IH (c :: cur) Hw').
  rewrite <- app_assoc. reflexivity.
Qed.

(** Reading back a text of well-formed words joined by spaces gives the
    words. *)
Lemma words_join (ws : list pystr) :
  Forall well_formed_word ws -> words [] (join [SPACE] ws) = ws.
Proof.
  induction 1 as [|w ws [Hne Hvis] Hws IH]; [reflexivity|].
  destruct ws as [|w' ws'].
  - simpl join. rewrite <- (app_nil_r w) at 1.
    rewrite (words_visible_prefix w [] [] Hvis), app_nil_r. simpl.
    destruct (rev w) as [|c r] eqn:E.
    + apply (f_equal (@rev N)) in E. rewrite rev_involutive in E. contradiction.
    + rewrite <- E, rev_involutive. reflexivity.
  - change (join [SPACE] (w :: w' :: ws'))
      with (w ++ SPACE :: join [SPACE] (w' :: ws')).
    rewrite (words_visible_prefix w _ [] Hvis), app_nil_r.
    change (words (rev w) (SPACE :: join [SPACE] (w' :: ws')))
      with (match rev w with
            | [] => words [] (join [SPACE] (w' :: ws'))
            | _ => rev (rev w) :: words [] (join [SPACE] (w' :: ws'))
            end).
    destruct (rev w) as [|c r] eqn:E.
    + apply (f_equal (@rev N)) in E. rewrite rev_involutive in E. contradiction.
    + rewrite <- E, rev_involutive, IH. reflexivity.
Qed.

(** X1: sanitizing a sanitized name changes nothing. *)
Theorem sanitize_filename_idempotent (name : pystr) :
  sanitize_filename (sanitize_filename name) = sanitize_filename name.
Proof.
  rewrite (sanitize_filename_words name), sanitize_filename_words.
  rewrite words_join; [reflexivity|].
  apply words_well_formed. constructor.
Qed.

Lemma has_double_space_visible (w s : pystr) :
  Forall (fun c => is_visible c = true) w ->
  has_double_space (w ++ s)
  = match w with
    | [] => has_double_space s
    | _ => has_double_space (last w 0%N :: s)
    end.
Proof.
  induction 1 as [|c w Hc Hw IH]; [reflexivity|].
  assert (Hns : (c =? SPACE)%N = false).
  { destruct (N.eqb_spec c SPACE) as [->|]; [discriminate Hc | reflexivity]. }
  destruct w as [|d w'].
  - reflexivity.
  - change (has_double_space ((c :: d :: w') ++ s))
      with (((c =? SPACE)%N && (d =? SPACE)%N)
            || has_double_space ((d :: w') ++ s)).
    rewrite Hns, IH. reflexivity.
Qed.

Lemma last_visible (w : pystr) :
  w <> [] -> Forall (fun c => is_visible c = true) w ->
  is_visible (last w 0%N) = true.
Proof.
  intros Hne Hw. rewrite Forall_forall in Hw. apply Hw.
  destruct w as [|c w]; [contradiction|].
  clear. revert c. induction w as [|d w IH]; intros c; [left; reflexivity|].
  right. apply (IH d).
Qed.

Lemma last_app_nonempty {A : Type} (x y : list A) (d : A) :
  y <> [] -> last (x ++ y) d = last y d.
Proof.
  intros Hy. induction x as [|a x IH]; [reflexivity|].
  simpl. rewrite IH. destruct (x ++ y) eqn:E; [|reflexivity].
  apply app_eq_nil in E. destruct E as [_ E]. contradiction.
Qed.

Lemma join_words_tidy (ws : list pystr) :
  Forall well_formed_word ws -> tidy (join [SPACE] ws).
Proof.
  induction 1 as [|w ws [Hne Hvis] Hws IH].
  - repeat split; [constructor | discriminate | discriminate].
  - assert (Hclean : Forall (fun c => is_clean c = true) w).
    { eapply Forall_impl; [|exact Hvis]. intros c Hc. unfold is_clean.
      rewrite Hc. reflexivity. }
    assert (Hhead : forall s, hd_error (w ++ s) <> Some SPACE).
    { intros s. destruct w as [|c w']; [contradiction|]. simpl.
      inversion Hvis as [|? ? Hc _]; subst. intros E. inversion E; subst.
      discriminate Hc. }
    pose proof (last_visible w Hne Hvis) as Hlast.
    assert (Hlast_ns : (last w 0%N =? SPACE)%N = false).
    { destruct (N.eqb_spec (last w 0%N) SPACE) as [E|]; [|reflexivity].
      rewrite E in Hlast. discriminate Hlast. }
    destruct ws as [|w' ws'].
    + simpl join. repeat split.
      * exact Hclean.
      * rewrite <- (app_nil_r w). apply Hhead.
      * intros E. rewrite E in Hlast. discriminate Hlast.
      * rewrite <- (app_nil_r w), (has_double_space_visible w [] Hvis).
        destruct w; reflexivity.
    + change (join [SPACE] (w :: w' :: ws'))
        with (w ++ SPACE :: join [SPACE] (w' :: ws')).
      destruct IH as [Hc' [Hh' [Hl' Hd']]].
      inversion Hws as [|? ? [Hne' Hvis'] _]; subst.
      assert (Hrest : join [SPACE] (w' :: ws') <> []).
      { apply join_nonempty_head. exact Hne'. }
      repeat split.
      * apply Forall_app. split; [exact Hclean|]. constructor; [reflexivity|exact Hc'].
      * apply Hhead.
      * rewrite last_app_nonempty by discriminate.
        destruct (join [SPACE] (w' :: ws')) as [|c r] eqn:E; [contradiction|].
        exact Hl'.
      * rewrite (has_double_space_visible w _ Hvis).
        destruct w as [|c0 w0]; [contradiction|].
        destruct (join [SPACE] (w' :: ws')) as [|c r] eqn:E; [contradiction|].
        change (has_double_space (last (c0 :: w0) 0%N :: SPACE :: c :: r))
          with (((last (c0 :: w0) 0%N =? SPACE)%N && (SPACE =? SPACE)%N)
                || (((SPACE =? SPACE)%N && (c =? SPACE)%N)
                    || has_double_space (c :: r))).
        rewrite Hlast_ns, Hd'. simpl.
        destruct (N.eqb_spec c SPACE) as [->|]; [|reflexivity].
        exfalso. apply Hh'. reflexivity.
Qed.

(** X2: the sanitized name holds only letters, digits, [-()[]] and
    spaces, neither starts nor ends with a space, and has no two spaces
    in a row. *)
Theorem sanitize_filename_tidy (name : pystr) :
  tidy (sanitize_filename name).
Proof.
  rewrite sanitize_filename_words. apply join_words_tidy.
  apply words_well_formed. constructor.
Qed.

Lemma lstrip_length (s : pystr) : (length (lstrip s) <= length s)%nat.
Proof.
  induction s as [|c s IH]; simpl; [lia|].
  destruct (is_space c); simpl; lia.
Qed.

Lemma strip_length (s : pystr) : (length (strip s) <= length s)%nat.
Proof.
  unfold strip, rstrip. rewrite length_rev.
  pose proof (lstrip_length (rev (lstrip s))) as H1.
  rewrite length_rev in H1. pose proof (lstrip_length s). lia.
Qed.

Lemma collapse_spaces_length (s : pystr) :
  (length (collapse_spaces s) <= length s)%nat.
Proof.
  induction s as [|c s IH]; [simpl; lia|].
  destruct (is_space c) eqn:Hc.
  - rewrite (collapse_space_head c s Hc). simpl.
    pose proof (lstrip_length (collapse_spaces s)). lia.
  - rewrite (collapse_nonspace_head c s Hc). simpl. lia.
Qed.

(** X3: the sanitized name is never longer than the name. *)
Theorem sanitize_filename_length (name : pystr) :
  len_str (sanitize_filename name) <= len_str name.
Proof.
  unfold len_str, sanitize_filename, strip_outside_class, replace.
  pose proof (strip_length
                (collapse_spaces
                   (filter in_class
                      (map (fun c => if (c =? 46)%N then SPACE else c)
                         (map (fun c => if (c =? 95)%N then SPACE else c) name)))))
    as H1.
  pose proof (collapse_spaces_length
                (filter in_class
                   (map (fun c => if (c =? 46)%N then SPACE else c)
                      (map (fun c => if (c =? 95)%N then SPACE else c) name))))
    as H2.
  pose proof (filter_length_le in_class
                (map (fun c => if (c =? 46)%N then SPACE else c)
                   (map (fun c => if (c =? 95)%N then SPACE else c) name)))
    as H3.
  rewrite !length_map in H3. lia.
Qed.

Lemma filter_visible_join (ws : list pystr) :
  Forall well_formed_word ws ->
  filter is_visible (join [SPACE] ws) = concat ws.
Proof.
  induction 1 as [|w ws [Hne Hvis] Hws IH]; [reflexivity|].
  assert (Hw : filter is_visible w = w).
  { clear Hne. induction Hvis as [|c w Hc _ IHw]; [reflexivity|].
    simpl. rewrite Hc, IHw. reflexivity. }
  destruct ws as [|w' ws'].
  - simpl. rewrite app_nil_r. exact Hw.
  - change (join [SPACE] (w :: w' :: ws'))
      with (w ++ [SPACE] ++ join [SPACE] (w' :: ws')).
    rewrite !filter_app, Hw, IH. reflexivity.
Qed.

(** X4: the sanitized name is empty exactly when the name has no letter,
    digit or character of [-()[]]; and its visible characters are those
    of the name, in order. *)
Theorem sanitize_filename_empty_iff (name : pystr) :
  (sanitize_filename name = [] <-> filter is_visible name = [])
  /\ filter is_visible (sanitize_filename name) = filter is_visible name.
Proof.
  rewrite sanitize_filename_words.
  pose proof (words_well_formed name [] (Forall_nil _)) as Hwf.
  pose proof (words_concat name []) as Hcat. simpl in Hcat.
  split.
  - rewrite <- Hcat. destruct (words [] name) as [|w ws]; [tauto|].
    inversion Hwf as [|? ? [Hne _] _]; subst. split.
    + intros E. exfalso. apply (join_nonempty_head w ws Hne). exact E.
    + simpl. intros E. apply app_eq_nil in E. destruct E as [E _]. contradiction.
  - rewrite <- Hcat. apply filter_visible_join. exact Hwf.
Qed.

End SanitizeMore.

(* ================================================================== *)
(** * More about the reduction *)

Module ReductionMore.
Import ReductionFacts Shape.

Lemma insert_result_keeps_order (k : Z) (r : partial_result)
    (l : list partial_result) :
  StronglySorted key_le l ->
  filter (has_key k) (insert_result r l) = filter (has_key k) (r :: l).
Proof.
  induction 1 as [|r' l Hl IH Hall]; [reflexivity|].
  simpl insert_result. destruct (Z.leb_spec (fst r) (fst r')) as [Hle|Hgt];
    [reflexivity|].
  simpl filter. rewrite IH. simpl filter. unfold has_key.
  destruct (Z.eqb_spec (fst r') k) as [E1|N1];
    destruct (Z.eqb_spec (fst r) k) as [E2|N2]; try reflexivity.
  lia.
Qed.

(** X5: the sort of the gathered results is a stable sort on the chunk
    number: the result holds the same pairs, in ascending order of chunk
    number, and pairs with the same number keep the order they had. *)
Theorem sort_results_stable_sort (results : list partial_result) :
  Permutation results (sort_results results)
  /\ StronglySorted key_le (sort_results results)
  /\ (forall k, filter (has_key k) (sort_results results)
                = filter (has_key k) results).
Proof.
  split; [apply sort_results_perm|]. split; [apply sort_results_sorted|].
  intros k. induction results as [|r l IH]; [reflexivity|].
  simpl sort_results.
  rewrite (insert_result_keeps_order k r _ (sort_results_sorted l)).
  simpl. rewrite IH. reflexivity.
Qed.

Lemma len_str_nonneg (s : pystr) : 0 <= len_str s.
Proof. unfold len_str. lia. Qed.

Lemma marker_length : len_str TRUNCATED_MARKER = 16.
Proof. reflexivity. Qed.

(** X6: what [_consolidate_and_truncate] returns has at most 150,016
    characters and starts with the first 150,000 characters of the joined
    texts (with all of them when there are fewer); the warning is logged
    exactly when the joined texts have more than 150,000 characters, and
    the two informative records are logged in every case. *)
Theorem consolidate_and_truncate_bounded (responses : list pystr)
    (num_chunks : Z) :
  let consolidated := join [NL; NL] responses in
  let records := fst (_consolidate_and_truncate responses num_chunks) in
  let returned := snd (_consolidate_and_truncate responses num_chunks) in
  len_str returned <= MAX_CONTEXT_CHARS + 16
  /\ slice_to MAX_CONTEXT_CHARS returned = slice_to MAX_CONTEXT_CHARS consolidated
  /\ (In (WarnContextTooLarge (len_str consolidated)) records
      <-> MAX_CONTEXT_CHARS < len_str consolidated)
  /\ firstn 2 records
     = [InfoConsolidatedSize (len_str consolidated); InfoNumChunks num_chunks].
Proof.
  intros consolidated records returned. subst records returned.
  unfold _consolidate_and_truncate. fold consolidated.
  pose proof (len_str_nonneg consolidated) as Hnn.
  destruct (Z.gtb_spec (len_str consolidated) MAX_CONTEXT_CHARS) as [Hgt|Hle];
    cbn [fst snd].
  - assert (Hlen : len_str (slice_to MAX_CONTEXT_CHARS consolidated)
                   = MAX_CONTEXT_CHARS).
    { apply len_slice_to. unfold MAX_CONTEXT_CHARS in *. lia. }
    split; [rewrite len_str_app, Hlen, marker_length; lia|]. split.
    { unfold slice_to at 1. rewrite firstn_app.
      replace (Z.to_nat MAX_CONTEXT_CHARS
               - length (slice_to MAX_CONTEXT_CHARS consolidated))%nat with O
        by (unfold len_str in Hlen; lia).
      rewrite app_nil_r. apply firstn_all2.
      unfold len_str in Hlen. lia. }
    split; [|reflexivity]. split.
    + intros _. exact Hgt.
    + intros _. right. right. left. reflexivity.
  - split; [lia|]. split; [reflexivity|]. split; [|reflexivity]. split.
    + intros [E|[E|[]]]; discriminate E.
    + intros Hgt. lia.
Qed.

Lemma join_length (sep : pystr) (parts : list pystr) :
  len_str (join sep parts)
  = total_chars parts + len_str sep * Z.max 0 (Z.of_nat (length parts) - 1).
Proof.
  unfold total_chars. induction parts as [|p rest IH];
    [unfold len_str; simpl; lia|].
  destruct rest as [|q rest'].
  - simpl. unfold len_str. simpl. lia.
  - change (join sep (p :: q :: rest')) with (p ++ sep ++ join sep (q :: rest')).
    rewrite !len_str_app, IH.
    change (map len_str (p :: q :: rest'))
      with (len_str p :: map len_str (q :: rest')).
    cbn [fold_right]. cbn [length].
    rewrite !Z.max_r by lia. rewrite !Nat2Z.inj_succ. unfold Z.succ. lia.
Qed.

(** X7: the joined texts have the characters of the texts and two for
    every gap between them; when that is at most 150,000 the texts come
    back joined and whole. *)
Theorem consolidate_without_truncation (responses : list pystr)
    (num_chunks : Z) :
  len_str (join [NL; NL] responses)
  = total_chars responses + 2 * Z.max 0 (Z.of_nat (length responses) - 1)
  /\ (total_chars responses + 2 * Z.max 0 (Z.of_nat (length responses) - 1)
      <= MAX_CONTEXT_CHARS ->
      _consolidate_and_truncate responses num_chunks
      = ([InfoConsolidatedSize (len_str (join [NL; NL] responses));
          InfoNumChunks num_chunks],
         join [NL; NL] responses)).
Proof.
  pose proof (join_length [NL; NL] responses) as Hlen.
  change (len_str [NL; NL]) with 2 in Hlen.
  split; [exact Hlen|].
  intros Hle. unfold _consolidate_and_truncate.
  destruct (Z.gtb_spec (len_str (join [NL; NL] responses)) MAX_CONTEXT_CHARS);
    [lia | reflexivity].
Qed.

Lemma consolidate_without_truncation_witness :
  _consolidate_and_truncate [Example.text_a; Example.text_b] 2
  = ([InfoConsolidatedSize 13; InfoNumChunks 2],
     Example.text_a ++ [NL; NL] ++ Example.text_b).
Proof.
  apply (proj2 (consolidate_without_truncation [Example.text_a; Example.text_b] 2)).
  vm_compute. discriminate.
Defined.

End ReductionMore.

(* ================================================================== *)
(** * More about [split_pdf] *)

Module PdfSplitterMore.
Import PdfSplitter PdfSplitterFacts Coverage.

Lemma round_positive (n d : Z) : 0 < n -> 0 < d -> 0 < fst (F64.round n d).
Proof.
  intros Hn Hd. unfold F64.round.
  destruct (Z.leb_spec n 0) as [|_]; [lia|].
  set (e0 := Z.log2 n - Z.log2 d - 53).
  destruct (F64.scaled n d e0) as [n0 d0].
  set (e := if n0 / d0 <? 2 ^ 53 then e0 else e0 + 1).
  assert (He : e <= e0 + 1) by (subst e; destruct (n0 / d0 <? 2 ^ 53); lia).
  clearbody e. subst e0.
  pose proof (Z.log2_spec n Hn) as [Hnlo _].
  pose proof (Z.log2_spec d Hd) as [_ Hdhi]. unfold Z.succ in Hdhi.
  pose proof (Z.log2_nonneg d) as Hld. pose proof (Z.log2_nonneg n) as Hln.
  unfold F64.scaled.
  destruct (Z.leb_spec 0 e) as [Hnn|Hneg]; cbn [fst].
  - assert (H1 : 1 <= n / (d * 2 ^ e)).
    { apply Z.div_le_lower_bound;
        [apply Z.mul_pos_pos; [lia | apply Z.pow_pos_nonneg; lia]|].
      rewrite Z.mul_1_r.
      assert (H2 : d * 2 ^ e <= 2 ^ (Z.log2 d + 1) * 2 ^ e)
        by (apply Z.mul_le_mono_nonneg_r; [apply Z.pow_nonneg; lia | lia]).
      rewrite <- Z.pow_add_r in H2 by lia.
      assert (H3 : 2 ^ (Z.log2 d + 1 + e) <= 2 ^ Z.log2 n)
        by (apply Z.pow_le_mono_r; lia).
      lia. }
    pose proof (F64Facts.nearest_even_lower n (d * 2 ^ e)). lia.
  - assert (H1 : 1 <= n * 2 ^ (- e) / d).
    { apply Z.div_le_lower_bound; [lia|]. rewrite Z.mul_1_r.
      destruct (Z.le_gt_cases (Z.log2 d + 1) (Z.log2 n)) as [Hbig|Hsmall].
      - assert (2 ^ (Z.log2 d + 1) <= 2 ^ Z.log2 n)
          by (apply Z.pow_le_mono_r; lia).
        assert (Hp : 0 < 2 ^ (- e)) by (apply Z.pow_pos_nonneg; lia).
        assert (n * 1 <= n * 2 ^ (- e))
          by (apply Z.mul_le_mono_nonneg_l; lia).
        lia.
      - assert (H2 : 2 ^ (Z.log2 d + 1) <= 2 ^ (Z.log2 n + - e))
          by (apply Z.pow_le_mono_r; lia).
        rewrite (Z.pow_add_r 2 (Z.log2 n) (- e)) in H2 by lia.
        assert (Hp : 0 < 2 ^ (- e)) by (apply Z.pow_pos_nonneg; lia).
        assert (2 ^ Z.log2 n * 2 ^ (- e) <= n * 2 ^ (- e))
          by (apply Z.mul_le_mono_nonneg_r; lia).
        lia. }
    pose proof (F64Facts.nearest_even_lower (n * 2 ^ (- e)) d). lia.
Qed.

Section WithFitz.
Context {B : Bytes} {F : Fitz}.

(** X8: the division of the first estimate never fails: for a file
    with bytes and pages the first batch size is there and is at least
    one. *)
Theorem initial_batch_size_defined (file_size total_pages : Z) :
  0 < file_size -> 0 < total_pages ->
  exists batch_size,
    initial_batch_size file_size total_pages = Ok batch_size /\ 1 <= batch_size.
Proof.
  intros Hs Hp. unfold initial_batch_size.
  pose proof (round_positive file_size total_pages Hs Hp) as Hpos.
  destruct (F64.round file_size total_pages) as [m2 e2]. cbn [fst] in Hpos.
  unfold F64.div. destruct (F64.of_Z SOFT_TARGET_BYTES) as [m1 e1].
  destruct (Z.eqb_spec m2 0) as [E|_]; [lia|].
  destruct (F64.scaled m1 m2 (e2 - e1)) as [n d].
  eexists. split; [reflexivity | lia].
Qed.

Lemma initial_batch_size_defined_witness :
  exists batch_size,
    initial_batch_size 4200000 4 = Ok batch_size /\ 1 <= batch_size.
Proof. apply initial_batch_size_defined; lia. Defined.

Lemma try_batch_saved (src_doc : pdf_doc) (total_pages current_page batch_size : Z) :
  match try_batch src_doc total_pages current_page batch_size with
  | Accepted chunk_data end_page _ =>
      save_pages src_doc current_page (end_page - 1) = Ok chunk_data
  | _ => True
  end.
Proof.
  unfold try_batch.
  destruct (save_pages src_doc current_page
              (Z.min (current_page + batch_size) total_pages - 1))
    as [c|e] eqn:Hsave; [|exact I].
  destruct ((len c <=? TARGET_LIMIT_BYTES) || (batch_size =? 1));
    [exact Hsave | exact I].
Qed.

Lemma retry_loop_saved (src_doc : pdf_doc) (total_pages current_page : Z)
    (fuel : nat) :
  forall batch_size chunk_data end_page batch_size',
    0 <= current_page < total_pages -> 1 <= batch_size ->
    retry_loop fuel src_doc total_pages current_page batch_size
    = Returned (chunk_data, end_page, batch_size') ->
    current_page < end_page <= total_pages
    /\ 1 <= batch_size'
    /\ save_pages src_doc current_page (end_page - 1) = Ok chunk_data.
Proof.
  induction fuel as [|fuel IH];
    intros batch_size chunk_data end_page batch_size' Hcur Hb; [discriminate|].
  simpl retry_loop.
  pose proof (try_batch_spec src_doc total_pages current_page batch_size Hcur Hb)
    as Hstep.
  pose proof (try_batch_saved src_doc total_pages current_page batch_size)
    as Hsave.
  destruct (try_batch src_doc total_pages current_page batch_size)
    as [c e b'|b'|err].
  - intros E. inversion E; subst.
    destruct Hstep as [Hend [Hb' _]].
    repeat split; try assumption; lia.
  - apply IH; [exact Hcur | lia].
  - discriminate.
Qed.

Lemma last_nonempty_default {A : Type} (x : A) (l : list A) (d d' : A) :
  last (x :: l) d = last (x :: l) d'.
Proof.
  revert x. induction l as [|y l IH]; intros x; [reflexivity|].
  change (last (y :: l) d = last (y :: l) d'). apply IH.
Qed.

Lemma page_loop_covers (src_doc : pdf_doc) (total_pages : Z) (fuel : nat) :
  forall current_page batch_size chunks chunks',
    0 <= current_page <= total_pages -> 1 <= batch_size ->
    page_loop fuel src_doc total_pages current_page batch_size chunks
    = Returned chunks' ->
    exists ends added,
      chunks' = chunks ++ added
      /\ ranges_saved src_doc current_page ends added
      /\ last ends current_page = total_pages
      /\ Z.of_nat (length added) <= total_pages - current_page.
Proof.
  induction fuel as [|fuel IH];
    intros current_page batch_size chunks chunks' Hcur Hb.
  - simpl. destruct (Z.ltb_spec current_page total_pages); [discriminate|].
    intros E. inversion E; subst. exists [], [].
    rewrite app_nil_r. simpl. repeat split; lia.
  - simpl page_loop. destruct (Z.ltb_spec current_page total_pages) as [Hlt|Hge].
    + destruct (retry_loop (Z.to_nat batch_size) src_doc total_pages current_page
                  batch_size) as [[[c e] b']|err|] eqn:Hretry; try discriminate.
      destruct (retry_loop_saved src_doc total_pages current_page
                  (Z.to_nat batch_size) batch_size c e b'
                  (conj (proj1 Hcur) Hlt) Hb Hretry)
        as [Hend [Hb' Hsave]].
      intros Hloop.
      destruct (IH e b' (chunks ++ [c]) chunks' ltac:(lia) Hb' Hloop)
        as [ends [added [Hc [Hr [Hl Hn]]]]].
      exists (e :: ends), (c :: added). split; [|split; [|split]].
      * rewrite Hc, <- app_assoc. reflexivity.
      * simpl. repeat split; [lia | exact Hsave | exact Hr].
      * destruct ends as [|e' ends']; [simpl in *; lia|].
        change (last (e' :: ends') current_page = total_pages).
        rewrite (last_nonempty_default e' ends' current_page e). exact Hl.
      * simpl length. lia.
    + intros E. inversion E; subst. exists [], [].
      rewrite app_nil_r. simpl. repeat split; lia.
Qed.

(** X9: the chunks of a file that is not passed through whole are the
    pages of the document cut into consecutive ranges: the first range
    starts at page 0, each range starts where the one before ends and has
    at least one page, and the last one ends at the last page; so there
    are at most as many chunks as pages, and none for no page. *)
Theorem split_pdf_covers_pages (file_bytes : bytes)
    (records : list log_record) (chunks : list bytes) :
  TARGET_LIMIT_BYTES <= len file_bytes ->
  split_pdf file_bytes = (records, Returned chunks) ->
  exists src_doc ends,
    fitz_open file_bytes = Ok src_doc
    /\ ranges_saved src_doc 0 ends chunks
    /\ last ends 0 = Z.of_N (page_count src_doc)
    /\ Z.of_nat (length chunks) <= Z.of_N (page_count src_doc).
Proof.
  intros Hge. unfold split_pdf.
  destruct (Z.ltb_spec (len file_bytes) TARGET_LIMIT_BYTES); [lia|].
  unfold split_pdf_body.
  destruct (fitz_open file_bytes) as [src_doc|e]; [|discriminate].
  destruct (Z.eqb_spec (Z.of_N (page_count src_doc)) 0) as [E0|NE].
  - intros E. inversion E; subst. exists src_doc, []. rewrite E0.
    simpl. repeat split; lia.
  - destruct (initial_batch_size (len file_bytes) (Z.of_N (page_count src_doc)))
      as [batch_size|e] eqn:Hinit; [|intros E; discriminate E].
    destruct (page_loop (Z.to_nat (Z.of_N (page_count src_doc))) src_doc
                (Z.of_N (page_count src_doc)) 0 batch_size [])
      as [chunks'|e|] eqn:Hloop; intros E; [|discriminate E|discriminate E].
    injection E as E1 E2. subst records. subst chunks.
    pose proof (N2Z.is_nonneg (page_count src_doc)) as Hpages.
    destruct (page_loop_covers src_doc (Z.of_N (page_count src_doc))
                (Z.to_nat (Z.of_N (page_count src_doc))) 0 batch_size [] chunks'
                (conj (Z.le_refl 0) Hpages)
                (initial_batch_size_ge_one _ _ _ Hinit) Hloop)
      as [ends [added [Hc [Hr [Hl Hn]]]]].
    simpl in Hc. subst added. exists src_doc, ends.
    repeat split; try assumption; lia.
Qed.

(** X10: when [split_pdf] raises, what it raises is a [PDFSplitError]
    around the cause, the cause was logged once and nothing else was, and
    the input was not under the limit; a file at or over the limit that
    does not open raises in this way with the error of the library as the
    cause. *)
Theorem split_pdf_raises_typed (file_bytes : bytes) :
  (forall records e,
      split_pdf file_bytes = (records, Raised e) ->
      TARGET_LIMIT_BYTES <= len file_bytes
      /\ exists cause, e = PDFSplitError cause /\ records = [LogException cause])
  /\ (forall cause,
         TARGET_LIMIT_BYTES <= len file_bytes ->
         fitz_open file_bytes = Err cause ->
         split_pdf file_bytes
         = ([LogException cause], Raised (PDFSplitError cause))).
Proof.
  unfold split_pdf. split.
  - intros records e.
    destruct (Z.ltb_spec (len file_bytes) TARGET_LIMIT_BYTES); [discriminate|].
    destruct (split_pdf_body file_bytes) as [chunks|cause|]; try discriminate.
    intros E. inversion E; subst. split; [lia|].
    exists cause. split; reflexivity.
  - intros cause Hge Hopen.
    destruct (Z.ltb_spec (len file_bytes) TARGET_LIMIT_BYTES); [lia|].
    unfold split_pdf_body. rewrite Hopen. reflexivity.
Qed.

End WithFitz.

Lemma split_pdf_covers_pages_witness :
  exists src_doc ends,
    fitz_open (Fitz := Example.fitz) Example.four_pages = Ok src_doc
    /\ ranges_saved (F := Example.fitz) src_doc 0 ends
         [Example.pack [Example.page 1500000; Example.page 1500000];
          Example.pack [Example.page 1500000; Example.page 1500000]]
    /\ last ends 0 = Z.of_N (page_count (Fitz := Example.fitz) src_doc)
    /\ 2 <= Z.of_N (page_count (Fitz := Example.fitz) src_doc).
Proof.
  destruct (split_pdf_covers_pages (F := Example.fitz) Example.four_pages []
              [Example.pack [Example.page 1500000; Example.page 1500000];
               Example.pack [Example.page 1500000; Example.page 1500000]])
    as [src_doc [ends [Hopen [Hr [Hl Hn]]]]].
  - vm_compute. discriminate.
  - vm_compute. reflexivity.
  - exists src_doc, ends. repeat split; assumption.
Defined.

Lemma split_pdf_raises_typed_witness :
  split_pdf (F := Example.fitz) Example.corrupt_large
  = ([LogException (External 1)], Raised (PDFSplitError (External 1))).
Proof.
  apply (proj2 (split_pdf_raises_typed (F := Example.fitz) Example.corrupt_large)).
  - vm_compute. discriminate.
  - reflexivity.
Defined.

End PdfSplitterMore.

(* ================================================================== *)
(** * More about [split_xlsx] *)

Module XlsxSplitterMore.
Import XlsxSplitter XlsxSplitterFacts Coverage.

Section WithXlsx.
Context {B : Bytes} {X : Xlsx}.

#[local] Opaque SOFT_TARGET_BYTES TARGET_LIMIT_BYTES.

Lemma Forall2_snoc {A C : Type} (R : A -> C -> Prop) (l1 : list A) (l2 : list C)
    (x : A) (y : C) :
  Forall2 R l1 l2 -> R x y -> Forall2 R (l1 ++ [x]) (l2 ++ [y]).
Proof.
  intros H Hxy. apply Forall2_app; [exact H|]. constructor; [exact Hxy|constructor].
Qed.

Lemma sheet_loop_covers (wb : workbook) (sheet_names : list pystr) :
  forall a seen,
    covered wb seen a ->
    forall records a',
      sheet_loop wb sheet_names a = (records, Returned a') ->
      covered wb (seen ++ sheet_names) a'.
Proof.
  induction sheet_names as [|sheet_name rest IH]; intros a seen Hcov records a'.
  - simpl. intros E. inversion E; subst. rewrite app_nil_r. exact Hcov.
  - simpl sheet_loop.
    destruct (save_sheets wb [sheet_name]) as [buffer|e] eqn:Hone; [|discriminate].
    assert (Hest : estimate wb sheet_name = len buffer)
      by (unfold estimate; rewrite Hone; reflexivity).
    destruct Hcov as [groups [Hgroups [Hseen [Hsum Hsmall]]]].
    replace (seen ++ sheet_name :: rest) with ((seen ++ [sheet_name]) ++ rest)
      by (rewrite <- app_assoc; reflexivity).
    destruct ((current_size_estimate a + len buffer >? SOFT_TARGET_BYTES)
              && negb (is_empty (current_sheets a))) eqn:Hcase.
    + apply andb_true_iff in Hcase. destruct Hcase as [_ Hne].
      destruct (save_sheets wb (current_sheets a)) as [chunk_data|e] eqn:Hgroup;
        [|discriminate].
      apply IH. exists (groups ++ [current_sheets a]).
      cbn [chunks current_sheets current_size_estimate logged].
      split; [|split; [|split]].
      * apply Forall2_snoc; [exact Hgroups|]. split; [|split].
        -- intros E. rewrite E in Hne. discriminate Hne.
        -- exact Hgroup.
        -- rewrite <- Hsum. exact Hsmall.
      * rewrite concat_app. simpl. rewrite app_nil_r, <- Hseen.
        rewrite <- app_assoc. reflexivity.
      * unfold sum_estimates. cbn [map fold_right]. lia.
      * left. simpl. lia.
    + apply IH. exists groups.
      cbn [chunks current_sheets current_size_estimate logged].
      split; [exact Hgroups|]. split; [|split].
      * rewrite <- Hseen, <- app_assoc. reflexivity.
      * rewrite sum_estimates_app.
        change (sum_estimates wb [sheet_name]) with (estimate wb sheet_name + 0).
        lia.
      * apply andb_false_iff in Hcase. destruct Hcase as [Hle|Hemp].
        -- right. rewrite Z.gtb_ltb in Hle. apply Z.ltb_ge in Hle. exact Hle.
        -- left. destruct (current_sheets a); [simpl; lia | discriminate].
Qed.

(** X11: the chunks of a workbook that is not passed through whole are
    its sheets cut into consecutive groups: the names of the groups, one
    after the other, are the sheet names in their order, every group has a
    sheet and is saved as one chunk, and the estimates of a group of
    several sheets add up to at most the soft target. *)
Theorem split_xlsx_covers_sheets (file_bytes : bytes)
    (records : list log_record) (returned : list bytes) (sheet_names : list pystr) :
  TARGET_LIMIT_BYTES <= len file_bytes ->
  calamine_sheet_names file_bytes = Ok sheet_names ->
  sheet_names <> [] ->
  split_xlsx file_bytes = (records, Returned returned) ->
  exists wb groups,
    load_workbook file_bytes = Ok wb
    /\ concat groups = sheet_names
    /\ Forall2 (group_saved wb) groups returned.
Proof.
  intros Hge Hnames Hne. unfold split_xlsx, split_xlsx_body. rewrite Hnames.
  destruct sheet_names as [|name0 names]; [contradiction|]. cbn [is_empty].
  destruct (Z.ltb_spec (len file_bytes) TARGET_LIMIT_BYTES); [lia|].
  destruct (load_workbook file_bytes) as [wb|e]; [|discriminate].
  set (start := {| chunks := []; current_sheets := [];
                   current_size_estimate := 0; logged := [] |}).
  assert (Hstart : covered wb [] start).
  { exists []. cbn. repeat split; [constructor | left; lia]. }
  destruct (sheet_loop wb (name0 :: names) start) as [log [a| |]] eqn:Hloop;
    try discriminate.
  pose proof (sheet_loop_covers wb (name0 :: names) start [] Hstart log a Hloop)
    as [groups [Hgroups [Hseen [Hsum Hsmall]]]].
  simpl app in Hseen. unfold flush_pending.
  destruct (is_empty (current_sheets a)) eqn:Hemp.
  - intros E. inversion E; subst. exists wb, groups.
    destruct (current_sheets a); [|discriminate Hemp].
    rewrite app_nil_r in Hseen. repeat split; assumption.
  - destruct (save_sheets wb (current_sheets a)) as [chunk_data|e] eqn:Hgroup;
      intros E; inversion E; subst.
    exists wb, (groups ++ [current_sheets a]). split; [reflexivity|]. split.
    + rewrite concat_app. simpl. rewrite app_nil_r. exact Hseen.
    + apply Forall2_snoc; [exact Hgroups|]. split; [|split].
      * intros E'. rewrite E' in Hemp. discriminate Hemp.
      * exact Hgroup.
      * rewrite <- Hsum. exact Hsmall.
Qed.

Lemma sound_warning_more (wb : workbook) (written : list bytes) (chunk : bytes)
    (r : log_record) :
  sound_warning wb written r -> sound_warning wb (written ++ [chunk]) r.
Proof.
  intros [c [sheets [Hr [Hin [Hsave Hbig]]]]]. exists c, sheets.
  repeat split; try assumption. apply in_or_app. left. exact Hin.
Qed.

Lemma sheet_loop_warnings (wb : workbook) (sheet_names : list pystr) :
  forall a,
    Forall (sound_warning wb (chunks a)) (logged a) ->
    forall records a',
      sheet_loop wb sheet_names a = (records, Returned a') ->
      records = logged a' /\ Forall (sound_warning wb (chunks a')) (logged a').
Proof.
  induction sheet_names as [|sheet_name rest IH]; intros a Hlogged records a'.
  - simpl. intros E. inversion E; subst. split; [reflexivity | exact Hlogged].
  - simpl sheet_loop.
    destruct (save_sheets wb [sheet_name]) as [buffer|e]; [|discriminate].
    destruct ((current_size_estimate a + len buffer >? SOFT_TARGET_BYTES)
              && negb (is_empty (current_sheets a))).
    + destruct (save_sheets wb (current_sheets a)) as [chunk_data|e] eqn:Hgroup;
        [|discriminate].
      apply IH. cbn [chunks logged]. apply Forall_app. split.
      * eapply Forall_impl; [|exact Hlogged].
        intros r. apply sound_warning_more.
      * unfold warn_if_oversized. rewrite Z.gtb_ltb.
        destruct (Z.ltb_spec TARGET_LIMIT_BYTES (len chunk_data)) as [Hbig|_];
          [|constructor].
        constructor; [|constructor].
        exists chunk_data, (current_sheets a). repeat split; try assumption.
        apply in_or_app. right. left. reflexivity.
    + apply IH. exact Hlogged.
Qed.

(** X24: when [split_xlsx] returns, every record it logged is the
    warning for one of the chunks it returns, a chunk that is over the
    limit, with the sheets that chunk was saved from; so nothing is
    logged about a chunk within the limit, and nothing else is logged. *)
Theorem split_xlsx_warnings_sound (file_bytes : bytes)
    (records : list log_record) (returned : list bytes) :
  split_xlsx file_bytes = (records, Returned returned) ->
  records = []
  \/ exists wb,
       load_workbook file_bytes = Ok wb
       /\ Forall (sound_warning wb returned) records.
Proof.
  unfold split_xlsx, split_xlsx_body.
  destruct (calamine_sheet_names file_bytes) as [sheet_names|e];
    [|intros E; discriminate E].
  destruct (is_empty sheet_names).
  { intros E. inversion E. left. reflexivity. }
  destruct (len file_bytes <? TARGET_LIMIT_BYTES).
  { intros E. inversion E. left. reflexivity. }
  destruct (load_workbook file_bytes) as [wb|e]; [|intros E; discriminate E].
  set (start := {| chunks := []; current_sheets := [];
                   current_size_estimate := 0; logged := [] |}).
  destruct (sheet_loop wb sheet_names start) as [log [a| |]] eqn:Hloop;
    try (intros E; discriminate E).
  destruct (sheet_loop_warnings wb sheet_names start (Forall_nil _) log a Hloop)
    as [Hlog Hsound].
  unfold flush_pending.
  destruct (is_empty (current_sheets a)).
  - intros E. inversion E; subst. right. exists wb. split; [reflexivity|].
    exact Hsound.
  - destruct (save_sheets wb (current_sheets a)) as [chunk_data|e];
      intros E; inversion E; subst.
    right. exists wb. split; [reflexivity|].
    eapply Forall_impl; [|exact Hsound]. intros r. apply sound_warning_more.
Qed.

(** X12: a workbook without sheets gives no chunk, whatever its size; a
    workbook with sheets and fewer bytes than the limit comes back whole
    as the only chunk, after it was opened; in both cases nothing is
    logged. *)
Theorem split_xlsx_without_split (file_bytes : bytes) (sheet_names : list pystr) :
  calamine_sheet_names file_bytes = Ok sheet_names ->
  (sheet_names = [] -> split_xlsx file_bytes = ([], Returned []))
  /\ (sheet_names <> [] -> len file_bytes < TARGET_LIMIT_BYTES ->
      split_xlsx file_bytes = ([], Returned [file_bytes])).
Proof.
  intros Hnames. unfold split_xlsx, split_xlsx_body. rewrite Hnames. split.
  - intros ->. reflexivity.
  - intros Hne Hlt. destruct sheet_names; [contradiction|]. cbn [is_empty].
    destruct (Z.ltb_spec (len file_bytes) TARGET_LIMIT_BYTES); [reflexivity | lia].
Qed.

(** X13: when [split_xlsx] raises, what it raises is an [XLSXSplitError]
    around the cause, and the cause is the last record logged. *)
Theorem split_xlsx_raises_typed (file_bytes : bytes) (records : list log_record)
    (e : exn) :
  split_xlsx file_bytes = (records, Raised e) ->
  exists cause earlier,
    e = XLSXSplitError cause /\ records = earlier ++ [LogException cause].
Proof.
  unfold split_xlsx.
  destruct (split_xlsx_body file_bytes) as [log [chunks|cause|]];
    intros E; inversion E; subst.
  exists cause, log. split; reflexivity.
Qed.

End WithXlsx.

Lemma split_xlsx_covers_sheets_witness :
  exists wb groups,
    load_workbook (Xlsx := Example.xlsx) Example.big_sheet_in_the_middle = Ok wb
    /\ concat groups = [of_string "A"; of_string "B"; of_string "C"]
    /\ Forall2 (group_saved (X := Example.xlsx) wb) groups
         [Example.pack [Example.sheet "A" 1000000];
          Example.pack [Example.sheet "B" 5000000];
          Example.pack [Example.sheet "C" 1000000]].
Proof.
  eapply (split_xlsx_covers_sheets (X := Example.xlsx)
            Example.big_sheet_in_the_middle).
  - vm_compute. discriminate.
  - reflexivity.
  - discriminate.
  - vm_compute. reflexivity.
Defined.

Lemma split_xlsx_without_split_witness :
  split_xlsx (X := Example.xlsx) (Example.pack []) = ([], Returned [])
  /\ split_xlsx (X := Example.xlsx) (Example.pack [Example.sheet "Data" 2000])
     = ([], Returned [Example.pack [Example.sheet "Data" 2000]]).
Proof.
  split.
  - apply (proj1 (split_xlsx_without_split (X := Example.xlsx)
                    (Example.pack []) [] eq_refl)). reflexivity.
  - apply (proj2 (split_xlsx_without_split (X := Example.xlsx)
                    (Example.pack [Example.sheet "Data" 2000])
                    [of_string "Data"] eq_refl)).
    + discriminate.
    + vm_compute. reflexivity.
Defined.

Lemma split_xlsx_raises_typed_witness :
  exists cause earlier,
    XLSXSplitError (External 2) = XLSXSplitError cause
    /\ [LogException (External 2)] = earlier ++ [LogException cause].
Proof.
  apply (split_xlsx_raises_typed (X := Example.xlsx) Example.corrupt_large).
  vm_compute. reflexivity.
Defined.

Lemma split_xlsx_warnings_sound_witness :
  [WarnChunkExceedsLimit 5000000 [of_string "B"]] = []
  \/ exists wb,
       load_workbook (Xlsx := Example.xlsx) Example.big_sheet_in_the_middle
       = Ok wb
       /\ Forall (sound_warning (X := Example.xlsx) wb
                    [Example.pack [Example.sheet "A" 1000000];
                     Example.pack [Example.sheet "B" 5000000];
                     Example.pack [Example.sheet "C" 1000000]])
            [WarnChunkExceedsLimit 5000000 [of_string "B"]].
Proof.
  apply (split_xlsx_warnings_sound (X := Example.xlsx)
           Example.big_sheet_in_the_middle).
  vm_compute. reflexivity.
Defined.

End XlsxSplitterMore.

(* ================================================================== *)
(** * The handlers *)

Module HandlerFacts.

Lemma pystr_eqb_eq (s1 s2 : pystr) : pystr_eqb s1 s2 = true <-> s1 = s2.
Proof.
  revert s2. induction s1 as [|c1 r1 IH]; intros [|c2 r2]; simpl;
    try (split; [discriminate | discriminate]); [tauto|].
  rewrite andb_true_iff, N.eqb_eq, IH. split.
  - intros [-> ->]. reflexivity.
  - intros E. inversion E. split; reflexivity.
Qed.

Section WithWorld.
Context {B : Bytes} {F : Fitz} {X : Xlsx} {W : World}.

Lemma handler_format_of_path (file_path : path) :
  handler_format (get_handler file_path) = tl (suffix_lower file_path).
Proof.
  unfold get_handler.
  destruct (pystr_eqb (suffix_lower file_path) (of_string ".pdf")) eqn:Hpdf.
  - apply pystr_eqb_eq in Hpdf. rewrite Hpdf. reflexivity.
  - destruct (pystr_eqb (suffix_lower file_path) (of_string ".xlsx")) eqn:Hxlsx.
    + apply pystr_eqb_eq in Hxlsx. rewrite Hxlsx. reflexivity.
    + reflexivity.
Qed.

(** X14: the handler of a path is decided by its lower-cased suffix
    alone: the PDF handler for [.pdf], the XLSX handler for [.xlsx], a
    generic handler otherwise; and in all three cases the format of the
    handler is the suffix without its first character, the empty string
    for a path without suffix. *)
Theorem get_handler_by_suffix (file_path : path) :
  handler_format (get_handler file_path) = tl (suffix_lower file_path)
  /\ (get_handler file_path = PDFHandler
      <-> suffix_lower file_path = of_string ".pdf")
  /\ (get_handler file_path = XLSXHandler
      <-> suffix_lower file_path = of_string ".xlsx")
  /\ (suffix_lower file_path = [] -> get_handler file_path = GenericHandler []).
Proof.
  split; [apply handler_format_of_path|]. unfold get_handler.
  destruct (pystr_eqb (suffix_lower file_path) (of_string ".pdf")) eqn:Hpdf.
  - apply pystr_eqb_eq in Hpdf. rewrite Hpdf. repeat split; try discriminate.
  - destruct (pystr_eqb (suffix_lower file_path) (of_string ".xlsx")) eqn:Hxlsx.
    + apply pystr_eqb_eq in Hxlsx. rewrite Hxlsx. repeat split; try discriminate.
    + assert (Hn1 : suffix_lower file_path <> of_string ".pdf").
      { intros E. apply pystr_eqb_eq in E. congruence. }
      assert (Hn2 : suffix_lower file_path <> of_string ".xlsx").
      { intros E. apply pystr_eqb_eq in E. congruence. }
      repeat split; try discriminate; try contradiction.
      intros ->. reflexivity.
Qed.

Lemma split_xlsx_not_diverged (file_bytes : bytes) :
  snd (XlsxSplitter.split_xlsx file_bytes) <> Diverged.
Proof.
  unfold XlsxSplitter.split_xlsx, XlsxSplitter.split_xlsx_body.
  destruct (calamine_sheet_names file_bytes) as [names|e]; [|discriminate].
  destruct (XlsxSplitter.is_empty names); [discriminate|].
  destruct (len file_bytes <? XlsxSplitter.TARGET_LIMIT_BYTES); [discriminate|].
  destruct (load_workbook file_bytes) as [wb|e]; [|discriminate].
  set (start := {| XlsxSplitter.chunks := [] |}).
  assert (Hloop : forall names a, snd (XlsxSplitter.sheet_loop wb names a) <> Diverged).
  { clear. induction names as [|name rest IH]; intros a; simpl; [discriminate|].
    destruct (save_sheets wb [name]) as [buffer|e]; [|discriminate].
    destruct (_ && _).
    - destruct (save_sheets wb (XlsxSplitter.current_sheets a)); [apply IH | discriminate].
    - apply IH. }
  specialize (Hloop names start).
  destruct (XlsxSplitter.sheet_loop wb names start) as [log [a|e|]];
    [|discriminate|contradiction].
  unfold XlsxSplitter.flush_pending.
  destruct (XlsxSplitter.is_empty _); [discriminate|].
  destruct (save_sheets wb _); discriminate.
Qed.

Lemma handler_split_ends (h : handler) (file_bytes : bytes) :
  snd (handler_split h file_bytes) <> Diverged.
Proof.
  destruct h as [| |format]; cbn [handler_split].
  - apply PdfSplitterFacts.split_pdf_not_diverged.
  - apply split_xlsx_not_diverged.
  - discriminate.
Qed.

(** X15: splitting through a handler always ends; a generic handler
    gives back the file as the only chunk, logs nothing and never raises;
    what the other two raise is the error of their splitter around the
    cause, which is the last record logged. *)
Theorem handler_split_outcome (h : handler) (file_bytes : bytes) :
  match handler_split h file_bytes with
  | (records, Returned chunks) =>
      forall format, h = GenericHandler format ->
                     records = [] /\ chunks = [file_bytes]
  | (records, Raised e) =>
      exists cause earlier,
        records = earlier ++ [LogException cause]
        /\ ((h = PDFHandler /\ e = PDFSplitError cause)
            \/ (h = XLSXHandler /\ e = XLSXSplitError cause))
  | (_, Diverged) => False
  end.
Proof.
  destruct h as [| |format]; cbn [handler_split].
  - pose proof (PdfSplitterFacts.split_pdf_not_diverged file_bytes) as Hnd.
    revert Hnd. unfold PdfSplitter.split_pdf.
    destruct (len file_bytes <? PdfSplitter.TARGET_LIMIT_BYTES);
      [intros _ format; discriminate|].
    destruct (PdfSplitter.split_pdf_body file_bytes) as [chunks|cause|]; cbn [snd].
    + intros _ format. discriminate.
    + intros _. exists cause, []. split; [reflexivity|]. left. split; reflexivity.
    + intros Hnd. apply Hnd. reflexivity.
  - pose proof (split_xlsx_not_diverged file_bytes) as Hnd.
    revert Hnd. unfold XlsxSplitter.split_xlsx.
    destruct (XlsxSplitter.split_xlsx_body file_bytes) as [log [chunks|cause|]];
      cbn [snd].
    + intros _ format. discriminate.
    + intros _. exists cause, log. split; [reflexivity|]. right. split; reflexivity.
    + intros Hnd. apply Hnd. reflexivity.
  - intros format' _. split; reflexivity.
Qed.

End WithWorld.
End HandlerFacts.

(* ================================================================== *)
(** * Gathering, in general *)

Module GatherFacts.
Import Processor ProcessorFacts Traces.

Section WithWorld.
Context {B : Bytes} {F : Fitz} {X : Xlsx} {W : World}.

Lemma remove_at_parts {A : Type} (l : list A) (i : nat) (x : A) (after : list A) :
  skipn i l = x :: after ->
  l = firstn i l ++ x :: after
  /\ Permutation (x :: firstn i l ++ after) l
  /\ length l = S (length (firstn i l ++ after)).
Proof.
  intros Hskip.
  assert (Hparts : l = firstn i l ++ x :: after)
    by (rewrite <- Hskip; symmetry; apply firstn_skipn).
  split; [exact Hparts|]. split.
  - rewrite Hparts at 2. apply Permutation_middle.
  - rewrite Hparts at 1. rewrite !length_app. simpl. lia.
Qed.

Lemma linger_events {A : Type} (P : event -> Prop) (capacity : option nat)
    (order : list nat) :
  forall (pending running : list (task A)) (stuck : nat),
    Forall (fun t => Forall P (on_start t)) pending ->
    Forall (fun t => Forall P (finish_events t)) pending ->
    Forall (fun t => Forall P (finish_events t)) running ->
    Forall P (linger capacity order pending running stuck).
Proof.
  induction order as [|next order IH]; intros pending running stuck Hs Hf Hr;
    [constructor|].
  cbn [linger].
  destruct (let_in _ pending) as [[evs started] waiting] eqn:Hin.
  destruct (let_in_spec _ _ _ _ _ Hin) as [Hsplit [Hevs _]].
  rewrite Hsplit in Hs, Hf. apply Forall_app in Hs, Hf.
  destruct Hs as [Hs1 Hs2]. destruct Hf as [Hf1 Hf2].
  assert (Hcalm : Forall P evs).
  { rewrite Hevs. clear -Hs1. induction Hs1; simpl; [constructor|].
    apply Forall_app. split; assumption. }
  assert (Hall : Forall (fun t => Forall P (finish_events t)) (running ++ started))
    by (apply Forall_app; split; assumption).
  cbv zeta.
  destruct (skipn _ (running ++ started)) as [|t after] eqn:Hskip; [exact Hcalm|].
  destruct (remove_at_parts _ _ _ _ Hskip) as [_ [Hperm _]].
  assert (Hall' : Forall (fun t => Forall P (finish_events t))
                    (t :: firstn (next mod length (running ++ started))
                            (running ++ started) ++ after)).
  { rewrite Forall_forall in *. intros u Hu. apply Hall.
    eapply Permutation_in; [exact Hperm | exact Hu]. }
  inversion Hall' as [|? ? Ht Hrest]; subst.
  unfold finish_events in Ht.
  destruct (on_finish t) as [evs_t o]; cbn [fst] in Ht.
  apply Forall_app. split; [exact Hcalm|].
  apply Forall_app. split; [exact Ht|].
  apply IH; assumption.
Qed.

(** Every event of a gathering is an event of one of its tasks. *)
Lemma gather_loop_events {A : Type} (P : event -> Prop) (capacity : option nat)
    (fuel : nat) :
  forall (order : list nat) (pending running : list (task A)) (stuck : nat),
    Forall (fun t => Forall P (on_start t)) pending ->
    Forall (fun t => Forall P (finish_events t)) pending ->
    Forall (fun t => Forall P (finish_events t)) running ->
    Forall P (fst (gather_loop fuel capacity order pending running stuck)).
Proof.
  induction fuel as [|fuel IH]; intros order pending running stuck Hs Hf Hr;
    [constructor|].
  cbn [gather_loop].
  destruct (let_in _ pending) as [[evs started] waiting] eqn:Hin.
  destruct (let_in_spec _ _ _ _ _ Hin) as [Hsplit [Hevs _]].
  rewrite Hsplit in Hs, Hf. apply Forall_app in Hs, Hf.
  destruct Hs as [Hs1 Hs2]. destruct Hf as [Hf1 Hf2].
  assert (Hcalm : Forall P evs).
  { rewrite Hevs. clear -Hs1. induction Hs1; simpl; [constructor|].
    apply Forall_app. split; assumption. }
  assert (Hall : Forall (fun t => Forall P (finish_events t)) (running ++ started))
    by (apply Forall_app; split; assumption).
  destruct (running ++ started) as [|t0 others] eqn:Hrunning; [exact Hcalm|].
  rewrite <- Hrunning in *.
  destruct (skipn _ (running ++ started)) as [|t after] eqn:Hskip; [exact Hcalm|].
  destruct (remove_at_parts _ _ _ _ Hskip) as [_ [Hperm _]].
  assert (Hall' : Forall (fun t => Forall P (finish_events t))
                    (t :: firstn (hd 0%nat order mod length (running ++ started))
                            (running ++ started) ++ after)).
  { rewrite Forall_forall in *. intros u Hu. apply Hall.
    eapply Permutation_in; [exact Hperm | exact Hu]. }
  inversion Hall' as [|? ? Ht Hrest]; subst.
  unfold finish_events in Ht.
  destruct (on_finish t) as [evs_t [a|e|]]; cbn [fst] in Ht.
  - specialize (IH (tl order) waiting _ stuck Hs2 Hf2 Hrest).
    destruct (gather_loop fuel capacity (tl order) waiting _ stuck) as [evs' o'].
    cbn [fst] in *. repeat (apply Forall_app; split); assumption.
  - cbn [fst]. apply Forall_app. split; [exact Hcalm|].
    apply Forall_app. split; [exact Ht|].
    apply linger_events; assumption.
  - specialize (IH (tl order) waiting _ (S stuck) Hs2 Hf2 Hrest).
    destruct (gather_loop fuel capacity (tl order) waiting _ (S stuck)) as [evs' o'].
    cbn [fst] in *. repeat (apply Forall_app; split); assumption.
Qed.

Lemma gather_events {A : Type} (P : event -> Prop) (capacity : option nat)
    (order : list nat) (tasks : list (task A)) :
  Forall (fun t => Forall P (on_start t)) tasks ->
  Forall (fun t => Forall P (finish_events t)) tasks ->
  Forall P (fst (gather capacity order tasks)).
Proof.
  intros Hs Hf. unfold gather.
  pose proof (gather_loop_events P capacity (S (length tasks)) order tasks [] 0%nat
                Hs Hf (Forall_nil _)) as Hloop.
  destruct (gather_loop _ _ _ _ _ _) as [evs [u|e|]]; cbn [fst] in Hloop.
  - destruct (values_of tasks); exact Hloop.
  - exact Hloop.
  - exact Hloop.
Qed.

(** Tasks whose ends all come, with a slot to run in: the gathering
    ends; it raises the error of a task that raised, and otherwise all
    tasks succeeded and the events are those of the tasks, each once. *)
Lemma gather_loop_outcome {A : Type} (capacity : option nat) (fuel : nat) :
  (forall c, capacity = Some c -> (1 <= c)%nat) ->
  forall (order : list nat) (pending running : list (task A)),
    Forall ends pending -> Forall ends running ->
    (length pending + length running < fuel)%nat ->
    match gather_loop fuel capacity order pending running O with
    | (evs, Returned _) =>
        (forall t, In t (pending ++ running) -> succeeded t)
        /\ Permutation evs
             (flat_map on_start pending
              ++ flat_map finish_events (pending ++ running))
    | (evs, Raised e) =>
        exists t, In t (pending ++ running) /\ snd (on_finish t) = Raised e
    | (_, Diverged) => False
    end.
Proof.
  intros Hcap. induction fuel as [|fuel IH];
    intros order pending running Hpend Hrun Hfuel; [lia|].
  cbn [gather_loop].
  set (free := option_map (fun c => (c - length running - 0)%nat) capacity).
  assert (Hfree : running = [] -> free <> Some O).
  { intros ->. subst free. destruct capacity as [c|]; simpl; [|discriminate].
    specialize (Hcap c eq_refl). intros E. inversion E. lia. }
  clearbody free.
  destruct (let_in free pending) as [[evs started] waiting] eqn:Hin.
  destruct (let_in_spec _ _ _ _ _ Hin) as [Hsplit [Hevs Hsome]].
  rewrite Hsplit in Hpend. apply Forall_app in Hpend.
  destruct Hpend as [Hstarted Hwaiting].
  destruct (running ++ started) as [|t0 others] eqn:Hrunning.
  - apply app_eq_nil in Hrunning. destruct Hrunning as [Hr Hs].
    subst running started.
    assert (Hnone : pending = []).
    { destruct pending as [|p ps]; [reflexivity|exfalso].
      apply Hsome; [discriminate | apply Hfree; reflexivity | reflexivity]. }
    assert (Hw : waiting = [])
      by (rewrite Hnone in Hsplit; simpl in Hsplit; congruence).
    rewrite Hw, Hnone, Hevs. split; [intros t []|]. constructor.
  - rewrite <- Hrunning.
    assert (Hall : Forall ends (running ++ started))
      by (apply Forall_app; split; assumption).
    assert (Hlen : (0 < length (running ++ started))%nat)
      by (rewrite Hrunning; simpl; lia).
    set (i := (hd O order mod length (running ++ started))%nat).
    assert (Hi : (i < length (running ++ started))%nat).
    { subst i. apply Nat.mod_upper_bound. lia. }
    destruct (skipn_in_range _ i Hi) as [t [after [Hskip _]]].
    rewrite Hskip.
    destruct (remove_at_parts _ _ _ _ Hskip) as [_ [Hperm Hcount]].
    assert (Hall' : Forall ends (t :: firstn i (running ++ started) ++ after)).
    { rewrite Forall_forall in *. intros u Hu. apply Hall.
      eapply Permutation_in; [exact Hperm | exact Hu]. }
    inversion Hall' as [|? ? Ht Hrest]; subst.
    assert (Hmember : forall u, In u (waiting ++ firstn i (running ++ started) ++ after)
                                \/ u = t
                                <-> In u ((started ++ waiting) ++ running)).
    { intros u.
      assert (Hiff : In u (running ++ started)
                     <-> In u (t :: firstn i (running ++ started) ++ after)).
      { split; apply Permutation_in;
          [apply Permutation_sym; exact Hperm | exact Hperm]. }
      assert (Heq : u = t <-> t = u) by (split; congruence).
      set (others' := firstn i (running ++ started) ++ after) in *.
      simpl in Hiff. rewrite in_app_iff in Hiff. rewrite !in_app_iff, Heq.
      tauto. }
    assert (Hless : (length waiting + length (firstn i (running ++ started) ++ after)
                     < fuel)%nat).
    { rewrite !length_app in *. lia. }
    unfold ends in Ht.
    destruct (on_finish t) as [evs_t [a|e|]] eqn:Hfin; cbn [snd] in Ht;
      [| |contradiction].
    + specialize (IH (tl order) waiting (firstn i (running ++ started) ++ after)
                    Hwaiting Hrest Hless).
      destruct (gather_loop fuel capacity (tl order) waiting
                  (firstn i (running ++ started) ++ after) O) as [evs' [u|e|]].
      * destruct IH as [Hsucc Hp]. split.
        -- intros u' Hu'. apply Hmember in Hu'. destruct Hu' as [Hu'|Hu'].
           ++ apply Hsucc. exact Hu'.
           ++ subst u'. exists a. rewrite Hfin. reflexivity.
        -- assert (Hfin' : evs_t = finish_events t)
             by (unfold finish_events; rewrite Hfin; reflexivity).
           pose proof (Permutation_flat_map finish_events Hperm) as Hpf.
           cbn [flat_map] in Hpf. rewrite <- Hfin' in Hpf.
           rewrite !flat_map_app in *.
           set (ss := flat_map on_start started) in *.
           set (s := flat_map on_start waiting) in *.
           set (fw := flat_map finish_events waiting) in *.
           set (fs := flat_map finish_events started) in *.
           set (fr := flat_map finish_events running) in *.
           set (fo := flat_map finish_events (firstn i (running ++ started)) ++
                      flat_map finish_events after) in *.
           rewrite <- !app_assoc. apply Permutation_app_head.
           apply Permutation_trans with (evs_t ++ s ++ fw ++ fo);
             [apply Permutation_app_head; exact Hp|].
           apply Permutation_trans with (s ++ fw ++ evs_t ++ fo).
           { replace (evs_t ++ s ++ fw ++ fo) with ((evs_t ++ (s ++ fw)) ++ fo)
               by (rewrite <- !app_assoc; reflexivity).
             replace (s ++ fw ++ evs_t ++ fo) with (((s ++ fw) ++ evs_t) ++ fo)
               by (rewrite <- !app_assoc; reflexivity).
             apply Permutation_app_tail, Permutation_app_comm. }
           apply Permutation_app_head.
           apply Permutation_trans with (fw ++ fr ++ fs);
             [apply Permutation_app_head; exact Hpf|].
           replace (fw ++ fr ++ fs) with ((fw ++ fr) ++ fs)
             by (rewrite <- !app_assoc; reflexivity).
           apply Permutation_app_comm.
      * destruct IH as [t' [Hin' Hfail]].
        exists t'. split; [|exact Hfail]. apply Hmember. left. exact Hin'.
      * exact IH.
    + exists t. split.
      * apply Hmember. right. reflexivity.
      * rewrite Hfin. reflexivity.
Qed.

Lemma gather_outcome {A : Type} (capacity : option nat) (order : list nat)
    (tasks : list (task A)) :
  (forall c, capacity = Some c -> (1 <= c)%nat) ->
  Forall ends tasks ->
  match gather capacity order tasks with
  | (evs, Returned l) =>
      values_of tasks = Some l
      /\ Permutation evs (flat_map on_start tasks ++ flat_map finish_events tasks)
  | (evs, Raised e) => exists t, In t tasks /\ snd (on_finish t) = Raised e
  | (_, Diverged) => False
  end.
Proof.
  intros Hcap Hall. unfold gather.
  pose proof (gather_loop_outcome capacity (S (length tasks)) Hcap order tasks []
                Hall (Forall_nil _) ltac:(simpl; lia)) as Hloop.
  destruct (gather_loop (S (length tasks)) capacity order tasks [] O)
    as [evs [u|e|]].
  - destruct Hloop as [Hsucc Hp]. rewrite app_nil_r in Hsucc, Hp.
    destruct (values_of_succeeded tasks Hsucc) as [l Hl]. rewrite Hl.
    split; [reflexivity | exact Hp].
  - destruct Hloop as [t [Hin Hfail]]. rewrite app_nil_r in Hin.
    exists t. split; assumption.
  - exact Hloop.
Qed.

End WithWorld.
End GatherFacts.

(* ================================================================== *)
(** * Runs of the processor *)

Module RunFacts.
Import Processor ProcessorFacts Traces HandlerFacts GatherFacts.

Section WithWorld.
Context {B : Bytes} {F : Fitz} {X : Xlsx} {W : World}.

Lemma bind_ends {A C : Type} (m : M A) (k : A -> M C) :
  snd m <> Diverged -> (forall a, snd (k a) <> Diverged) ->
  snd (bind m k) <> Diverged.
Proof.
  intros Hm Hk. unfold bind. destruct m as [t [a|e|]]; cbn [snd] in *.
  - specialize (Hk a). destruct (k a) as [t' o]. exact Hk.
  - discriminate.
  - contradiction.
Qed.

Lemma bind_events {A C : Type} (P : event -> Prop) (m : M A) (k : A -> M C) :
  Forall P (fst m) -> (forall a, Forall P (fst (k a))) ->
  Forall P (fst (bind m k)).
Proof.
  intros Hm Hk. unfold bind. destruct m as [t [a|e|]]; cbn [fst] in *;
    try exact Hm.
  specialize (Hk a). destruct (k a) as [t' o]. cbn [fst] in *.
  apply Forall_app. split; assumption.
Qed.

Lemma stream_to_caller_ends (a : agent) (messages : list message) :
  snd (stream_to_caller a messages) <> Diverged.
Proof.
  unfold stream_to_caller. destruct (stream_async a messages) as [events [u|e]];
    discriminate.
Qed.

Lemma stream_to_caller_spec (a : agent) (messages : list message) :
  stream_to_caller a messages
  = (stream_request a messages
       :: flat_map fragment_of (fst (stream_async a messages)),
     match snd (stream_async a messages) with
     | Ok _ => Returned tt
     | Err e => Raised e
     end).
Proof.
  unfold stream_to_caller. destruct (stream_async a messages) as [events final].
  reflexivity.
Qed.

(** X16: a file that is read and has no more bytes than the threshold
    goes to the model whole, in one streamed request to a fresh agent
    with the prompt for whole files: the start hooks with a total of one
    chunk, the request, whose document has the sanitized name and as its
    format the suffix of the path without the dot, the fragments; then the
    end hooks when the stream ends normally, and the error hooks and the
    error of the stream when it breaks. *)
Theorem small_file_trace (self : DocumentProcessor) (order : list nat)
    (file : DocumentFile) (question : pystr) (with_callback : bool)
    (file_bytes : bytes) :
  read_bytes (file_path file) = Ok file_bytes ->
  len file_bytes <= BYTES_THRESHOLD ->
  let name := Sanitize.sanitize_filename (file_name file) in
  let agent := CreatedAgent (model self) SYSTEM_PROMPT with_callback in
  let request :=
    [ {| role := of_string "user";
         content_list :=
           [Document (tl (suffix_lower (file_path file))) name file_bytes;
            Text (file_text question)] |} ] in
  let answer := stream_async agent request in
  _process_file self order file question with_callback
  = (map (fun l => on_processing_start l name 1) (listeners self)
     ++ stream_request agent request :: flat_map fragment_of (fst answer)
     ++ match snd answer with
        | Ok _ => map (fun l => on_processing_end l name) (listeners self)
        | Err e => map (fun l => on_error l e) (listeners self)
        end,
     match snd answer with
     | Ok _ => Returned tt
     | Err e => Raised e
     end).
Proof.
  intros Hread Hsmall name agent request answer. subst answer.
  unfold _process_file. rewrite Hread. cbn [of_result ret bind].
  rewrite Z.gtb_ltb.
  destruct (Z.ltb_spec BYTES_THRESHOLD (len file_bytes)) as [Hlt|_]; [lia|].
  unfold _process. rewrite handler_format_of_path. fold name.
  unfold _create_agent, _create_document_message. fold agent. fold request.
  rewrite stream_to_caller_spec.
  unfold _notify_processing_start, _notify_processing_end, _notify_error,
    emit, raise, bind, try_except.
  destruct (stream_async agent request) as [events [u|e]]; cbn [fst snd].
  - reflexivity.
  - rewrite !app_nil_r. reflexivity.
Qed.

(** X17: the slots are made after the splitting and after the start
    hooks: with a negative number of workers the run of a split file
    raises [ValueError] there, with no slot and at least one chunk it
    never ends; in both cases the records of the splitter and the start
    hooks are all that happened: no request, no error hook. *)
Theorem chunked_run_without_slot (self : DocumentProcessor) (order : list nat)
    (file_bytes : bytes) (file : DocumentFile) (question : pystr)
    (with_callback : bool) (records : list log_record) (chunks : list bytes) :
  handler_split (get_handler (file_path file)) file_bytes
  = (records, Returned chunks) ->
  let name := Sanitize.sanitize_filename (file_name file) in
  let started :=
    map log records
    ++ map (fun l => on_processing_start l name (Z.of_nat (length chunks)))
         (listeners self) in
  (max_workers self < 0 ->
   _process_big self order file_bytes file question with_callback
   = (started, Raised ValueError))
  /\ (max_workers self = 0 -> chunks <> [] ->
      _process_big self order file_bytes file question with_callback
      = (started, Diverged)).
Proof.
  intros Hsplit name started. subst started.
  unfold _process_big. rewrite Hsplit. fold name.
  unfold of_logged, _notify_processing_start, emit, new_semaphore. cbn [fst snd].
  split.
  - intros Hneg. destruct (Z.ltb_spec (max_workers self) 0) as [_|Hge]; [|lia].
    unfold bind, raise. rewrite !app_nil_r. reflexivity.
  - intros Hzero Hne. rewrite Hzero. cbn [Z.ltb Z.compare Z.to_nat].
    destruct chunks as [|chunk rest]; [contradiction|].
    unfold bind, ret. cbn [enumerate_from map gather length gather_loop
                           option_map Nat.sub let_in app].
    rewrite !app_nil_r. reflexivity.
Qed.

Lemma new_semaphore_spec (value : Z) :
  0 <= value -> new_semaphore value = ret (Z.to_nat value).
Proof.
  intros Hv. unfold new_semaphore.
  destruct (Z.ltb_spec value 0); [lia | reflexivity].
Qed.

Lemma _process_big_spec (self : DocumentProcessor) (order : list nat)
    (file_bytes : bytes) (file : DocumentFile) (question : pystr)
    (with_callback : bool) (records : list log_record) (chunks : list bytes) :
  let handler := get_handler (file_path file) in
  let name := Sanitize.sanitize_filename (file_name file) in
  let total := Z.of_nat (length chunks) in
  let tasks :=
    map (fun '(i, chunk) =>
           _process_chunk self chunk i name question (handler_format handler))
      (enumerate_from 1 chunks) in
  let started :=
    map log records
    ++ map (fun l => on_processing_start l name total) (listeners self) in
  let agent := CreatedAgent (model self) SYSTEM_PROMPT with_callback in
  handler_split handler file_bytes = (records, Returned chunks) ->
  0 <= max_workers self ->
  _process_big self order file_bytes file question with_callback
  = match gather (Some (Z.to_nat (max_workers self))) order tasks with
    | (evs, Returned results) =>
        let consolidated :=
          _consolidate_and_truncate (map snd (sort_results results)) total in
        let final_payload :=
          [ {| role := of_string "user";
               content_list :=
                 [Text (final_text total (snd consolidated) question)] |} ] in
        let summary := stream_async agent final_payload in
        (started ++ evs
         ++ map (fun l => on_processing_end l name) (listeners self)
         ++ map log (fst consolidated)
         ++ stream_request agent final_payload
            :: flat_map fragment_of (fst summary),
         match snd summary with
         | Ok _ => Returned tt
         | Err e => Raised e
         end)
    | (evs, Raised e) => (started ++ evs, Raised e)
    | (evs, Diverged) => (started ++ evs, Diverged)
    end.
Proof.
  intros handler name total tasks started agent Hsplit Hworkers.
  unfold _process_big. fold handler. rewrite Hsplit. fold name.
  rewrite (new_semaphore_spec _ Hworkers).
  unfold of_logged, _notify_processing_start, _notify_processing_end, emit, ret.
  unfold _create_agent. fold agent.
  cbn [bind fst snd]. fold total. fold tasks.
  destruct (gather (Some (Z.to_nat (max_workers self))) order tasks)
    as [evs [results|e|]]; cbn [bind fst snd].
  - destruct (_consolidate_and_truncate (map snd (sort_results results)) total)
      as [logged text].
    cbn [bind fst snd]. rewrite stream_to_caller_spec. cbn [fst snd].
    subst started. rewrite <- !app_assoc. reflexivity.
  - subst started. rewrite <- !app_assoc. reflexivity.
  - subst started. rewrite <- !app_assoc. reflexivity.
Qed.

(** ** What the events of a run are *)

Lemma hooks_all (P : event -> Prop) (f : listener -> event) (ls : list listener) :
  (forall l, P (f l)) -> Forall P (map f ls).
Proof.
  intros Hf. induction ls as [|l ls IH]; simpl; constructor; [apply Hf | exact IH].
Qed.

Lemma logs_all (P : event -> Prop) (records : list log_record) :
  (forall r, P (log r)) -> Forall P (map log records).
Proof.
  intros Hf. induction records as [|r rs IH]; simpl; constructor;
    [apply Hf | exact IH].
Qed.

Lemma fragments_all (P : event -> Prop) (events : list stream_event) :
  (forall s, P (yielded s)) -> Forall P (flat_map fragment_of events).
Proof.
  intros Hy. induction events as [|ev evs IH]; simpl; [constructor|].
  apply Forall_app. split; [|exact IH]. unfold fragment_of.
  destruct (data ev); [repeat constructor; apply Hy|].
  destruct (has_message ev); repeat constructor. apply Hy.
Qed.

Lemma stream_to_caller_events (P : event -> Prop) (a : agent)
    (messages : list message) :
  P (stream_request a messages) -> (forall s, P (yielded s)) ->
  Forall P (fst (stream_to_caller a messages)).
Proof.
  intros Hr Hy. rewrite stream_to_caller_spec. cbn [fst].
  constructor; [exact Hr | apply fragments_all; exact Hy].
Qed.

Lemma try_except_ends {A : Type} (m : M A) (handler : exn -> M A) :
  snd m <> Diverged -> (forall e, snd (handler e) <> Diverged) ->
  snd (try_except m handler) <> Diverged.
Proof.
  intros Hm Hh. unfold try_except. destruct m as [t [a|e|]]; cbn [snd] in *;
    try assumption.
  specialize (Hh e). destruct (handler e) as [t' o]. exact Hh.
Qed.

Lemma try_except_events {A : Type} (P : event -> Prop) (m : M A)
    (handler : exn -> M A) :
  Forall P (fst m) -> (forall e, Forall P (fst (handler e))) ->
  Forall P (fst (try_except m handler)).
Proof.
  intros Hm Hh. unfold try_except. destruct m as [t [a|e|]]; cbn [fst] in *;
    try assumption.
  specialize (Hh e). destruct (handler e) as [t' o]. cbn [fst] in *.
  apply Forall_app. split; assumption.
Qed.

Lemma _process_chunk_ends (self : DocumentProcessor) (chunk : bytes)
    (chunk_number : Z) (file_name question file_format : pystr) :
  ends (_process_chunk self chunk chunk_number file_name question file_format).
Proof.
  unfold ends. rewrite _process_chunk_finish. cbv zeta.
  destruct (invoke_async _ _); discriminate.
Qed.

Lemma _process_chunk_events (P : event -> Prop) (self : DocumentProcessor)
    (chunk : bytes) (chunk_number : Z) (file_name question file_format : pystr) :
  (forall l j name, P (on_chunk_start l j name)) ->
  (forall l j name r, P (on_chunk_end l j name r)) ->
  (forall l e, P (on_error l e)) ->
  (forall model prompt with_callback messages,
      P (invoke_request (CreatedAgent model prompt with_callback) messages)) ->
  let t := _process_chunk self chunk chunk_number file_name question file_format in
  Forall P (on_start t) /\ Forall P (finish_events t).
Proof.
  intros Hs He Herr Hreq t. subst t. split.
  - unfold _process_chunk. cbn [on_start]. apply Forall_app. split.
    + apply hooks_all. intros l. apply Hs.
    + constructor; [apply Hreq | constructor].
  - unfold finish_events. rewrite _process_chunk_finish. cbv zeta.
    destruct (invoke_async _ _) as [response|e]; cbn [fst].
    + apply hooks_all. intros l. apply He.
    + apply hooks_all. intros l. apply Herr.
Qed.

(** The events of the processing of one file, whatever its size: hooks
    of the file and of its chunks, requests to agents made for the run,
    fragments, records. *)
Lemma _process_file_events (P : event -> Prop) (self : DocumentProcessor)
    (order : list nat) (file : DocumentFile) (question : pystr)
    (with_callback : bool) :
  (forall l name n, P (on_processing_start l name n)) ->
  (forall l name, P (on_processing_end l name)) ->
  (forall l j name, P (on_chunk_start l j name)) ->
  (forall l j name r, P (on_chunk_end l j name r)) ->
  (forall l e, P (on_error l e)) ->
  (forall model prompt cb messages,
      P (invoke_request (CreatedAgent model prompt cb) messages)) ->
  (forall model prompt cb messages,
      P (stream_request (CreatedAgent model prompt cb) messages)) ->
  (forall s, P (yielded s)) ->
  (forall r, P (log r)) ->
  Forall P (fst (_process_file self order file question with_callback)).
Proof.
  intros Hps Hpe Hcs Hce Herr Hinv Hstr Hy Hlog.
  unfold _process_file. apply bind_events.
  { destruct (read_bytes (file_path file)); constructor. }
  intros file_bytes. destruct (len file_bytes >? BYTES_THRESHOLD).
  - unfold _process_big. apply bind_events.
    { unfold of_logged. cbn [fst]. apply logs_all. exact Hlog. }
    intros chunks. apply bind_events.
    { apply hooks_all. intros l. apply Hps. }
    intros _. apply bind_events.
    { unfold new_semaphore. destruct (_ <? _); constructor. }
    intros semaphore. apply bind_events.
    { apply gather_events.
      - apply Forall_forall. intros t Ht. apply in_map_iff in Ht.
        destruct Ht as [[j c] [<- _]].
        apply (_process_chunk_events P); assumption.
      - apply Forall_forall. intros t Ht. apply in_map_iff in Ht.
        destruct Ht as [[j c] [<- _]].
        apply (_process_chunk_events P); assumption. }
    intros results. cbv zeta. apply bind_events.
    { apply hooks_all. intros l. apply Hpe. }
    intros _. apply bind_events.
    { unfold of_logged. destruct (_consolidate_and_truncate _ _) as [records text].
      cbn [fst]. apply logs_all. exact Hlog. }
    intros consolidated_context.
    apply stream_to_caller_events; [apply Hstr | exact Hy].
  - unfold _process. apply bind_events.
    { apply hooks_all. intros l. apply Hps. }
    intros _. apply try_except_events.
    + apply bind_events.
      * apply stream_to_caller_events; [apply Hstr | exact Hy].
      * intros _. apply hooks_all. intros l. apply Hpe.
    + intros e. apply bind_events; [|intros _; constructor].
      apply hooks_all. intros l. apply Herr.
Qed.

Lemma _process_file_of_one_file (self : DocumentProcessor) (order : list nat)
    (file : DocumentFile) (question : pystr) (with_callback : bool) :
  Forall of_one_file (fst (_process_file self order file question with_callback)).
Proof.
  apply _process_file_events; intros; split; reflexivity.
Qed.

Lemma _process_big_ends (self : DocumentProcessor) (order : list nat)
    (file_bytes : bytes) (file : DocumentFile) (question : pystr)
    (with_callback : bool) :
  1 <= max_workers self ->
  snd (_process_big self order file_bytes file question with_callback)
  <> Diverged.
Proof.
  intros Hworkers.
  destruct (handler_split (get_handler (file_path file)) file_bytes)
    as [records [chunks|e|]] eqn:Hsplit.
  - rewrite (_process_big_spec self order file_bytes file question with_callback
               records chunks Hsplit ltac:(lia)).
    cbv zeta.
    match goal with
    | |- context [gather ?c ?o ?ts] =>
        pose proof (gather_outcome c o ts) as Hgather;
        destruct (gather c o ts) as [evs [results|e|]]
    end.
    + cbn [snd]. destruct (snd (stream_async _ _)); discriminate.
    + discriminate.
    + exfalso. apply Hgather.
      * intros c E. inversion E. lia.
      * apply Forall_forall. intros t Ht. apply in_map_iff in Ht.
        destruct Ht as [[j c] [<- _]]. apply _process_chunk_ends.
  - unfold _process_big. rewrite Hsplit. discriminate.
  - exfalso. apply (handler_split_ends (get_handler (file_path file)) file_bytes).
    rewrite Hsplit. reflexivity.
Qed.

Lemma _process_file_ends (self : DocumentProcessor) (order : list nat)
    (file : DocumentFile) (question : pystr) (with_callback : bool) :
  1 <= max_workers self ->
  snd (_process_file self order file question with_callback) <> Diverged.
Proof.
  intros Hworkers. unfold _process_file. apply bind_ends.
  { destruct (read_bytes (file_path file)); discriminate. }
  intros file_bytes. destruct (len file_bytes >? BYTES_THRESHOLD).
  - apply _process_big_ends. exact Hworkers.
  - unfold _process. apply bind_ends; [discriminate|]. intros _.
    apply try_except_ends.
    + apply bind_ends; [apply stream_to_caller_ends | intros _; discriminate].
    + intros e. apply bind_ends; [discriminate | intros _; discriminate].
Qed.

Lemma _collect_file_content_spec (self : DocumentProcessor) (order : list nat)
    (file : DocumentFile) (question : pystr) :
  let run := _process_file self order file question false in
  fst (_collect_file_content self order file question)
  = filter (fun ev => negb (is_yielded ev)) (fst run)
  /\ (snd run <> Diverged ->
      snd (_collect_file_content self order file question) <> Diverged).
Proof.
  intros run. subst run. unfold _collect_file_content.
  destruct (_process_file self order file question false) as [events [u|e|]];
    cbn [fst snd]; split; try reflexivity; try discriminate.
  intros H. exfalso. apply H. reflexivity.
Qed.

Lemma file_tasks_spec (self : DocumentProcessor) (c : completion)
    (question : pystr) (files : list DocumentFile) :
  forall position t,
    In t (file_tasks self c position files question) ->
    exists i file,
      nth_error files i = Some file
      /\ on_start t = []
      /\ on_finish t
         = _collect_file_content self (chunk_order c (position + i)) file question.
Proof.
  induction files as [|file rest IH]; intros position t; simpl; [tauto|].
  intros [<-|Hin].
  - exists O, file. rewrite Nat.add_0_r. repeat split.
  - destruct (IH _ _ Hin) as [i [file' [Hnth [Hs Hf]]]].
    exists (S i), file'. rewrite Nat.add_succ_r. repeat split; assumption.
Qed.

Lemma file_tasks_at (self : DocumentProcessor) (c : completion)
    (question : pystr) (files : list DocumentFile) :
  forall position i file,
    nth_error files i = Some file ->
    exists t,
      In t (file_tasks self c position files question)
      /\ on_finish t
         = _collect_file_content self (chunk_order c (position + i)) file question.
Proof.
  induction files as [|file0 rest IH]; intros position i file Hnth.
  - destruct i; discriminate Hnth.
  - destruct i as [|i]; simpl in Hnth.
    + inversion Hnth; subst. eexists. split; [left; reflexivity|].
      rewrite Nat.add_0_r. reflexivity.
    + destruct (IH (S position) i file Hnth) as [t [Hin Hf]].
      exists t. split; [right; exact Hin|].
      rewrite Nat.add_succ_r. exact Hf.
Qed.

Lemma file_tasks_events (P : event -> Prop) (self : DocumentProcessor)
    (c : completion) (question : pystr) (files : list DocumentFile)
    (position : nat) :
  (forall order file,
      Forall P (fst (_collect_file_content self order file question))) ->
  let tasks := file_tasks self c position files question in
  Forall (fun t => Forall P (on_start t)) tasks
  /\ Forall (fun t => Forall P (finish_events t)) tasks.
Proof.
  intros HP tasks. subst tasks.
  split; apply Forall_forall; intros t Ht;
    destruct (file_tasks_spec _ _ _ _ _ _ Ht) as [i [file [_ [Hs Hf]]]].
  - rewrite Hs. constructor.
  - unfold finish_events. rewrite Hf. apply HP.
Qed.

Lemma _collect_file_content_events (self : DocumentProcessor) (order : list nat)
    (file : DocumentFile) (question : pystr) :
  Forall (fun ev => silent ev /\ of_one_file ev)
    (fst (_collect_file_content self order file question)).
Proof.
  destruct (_collect_file_content_spec self order file question) as [Hev _].
  rewrite Hev. apply Forall_forall. intros ev Hin.
  apply filter_In in Hin. destruct Hin as [Hin Hsilent]. split.
  - unfold silent. destruct (is_yielded ev); [discriminate | reflexivity].
  - pose proof (_process_file_of_one_file self order file question false) as Hall.
    rewrite Forall_forall in Hall. apply Hall. exact Hin.
Qed.

Lemma several_files (self : DocumentProcessor) (c : completion)
    (files : list DocumentFile) (question : pystr) :
  length files <> 1%nat ->
  process self c files question
  = match gather None (file_order c) (file_tasks self c O files question) with
    | (evs, Returned results) =>
        let messages :=
          [ {| role := of_string "user"; content_list := map Text results |} ] in
        let summary := stream_async SelfAgent messages in
        (evs ++ map on_summary_start (listeners self)
         ++ stream_request SelfAgent messages
            :: flat_map fragment_of (fst summary)
         ++ match snd summary with
            | Ok _ => map on_summary_end (listeners self)
            | Err _ => []
            end,
         match snd summary with
         | Ok _ => Returned tt
         | Err e => Raised e
         end)
    | (evs, Raised e) => (evs, Raised e)
    | (evs, Diverged) => (evs, Diverged)
    end.
Proof.
  intros Hlen.
  assert (Hrun : process self c files question
                 = bind (gather None (file_order c)
                           (file_tasks self c O files question))
                     (fun results =>
                        bind (_notify_summary_start self)
                          (fun _ =>
                             bind (stream_to_caller SelfAgent
                                     [ {| role := of_string "user";
                                          content_list := map Text results |} ])
                               (fun _ => _notify_summary_end self)))).
  { destruct files as [|f1 [|f2 rest]]; [reflexivity | | reflexivity].
    simpl in Hlen. contradiction. }
  rewrite Hrun.
  destruct (gather None (file_order c) (file_tasks self c O files question))
    as [evs [results|e|]]; cbn [bind]; try reflexivity.
  rewrite stream_to_caller_spec.
  unfold _notify_summary_start, _notify_summary_end, emit. cbn [bind fst snd].
  destruct (stream_async SelfAgent _) as [events [u|e]]; cbn [bind fst snd].
  - reflexivity.
  - rewrite !app_nil_r. reflexivity.
Qed.

Lemma file_tasks_end (self : DocumentProcessor) (c : completion)
    (question : pystr) (files : list DocumentFile) (position : nat) :
  1 <= max_workers self ->
  Forall ends (file_tasks self c position files question).
Proof.
  intros Hworkers. apply Forall_forall. intros t Ht.
  destruct (file_tasks_spec _ _ _ _ _ _ Ht) as [i [file [_ [_ Hf]]]].
  unfold ends. rewrite Hf.
  apply _collect_file_content_spec. apply _process_file_ends. exact Hworkers.
Qed.

(** X18: with at least one worker slot a request always ends, for every
    list of files and every completion order, the calls to the model, to
    the libraries and to the hooks being calls that return: it returns or
    it raises. *)
Theorem process_ends (self : DocumentProcessor) (c : completion)
    (files : list DocumentFile) (question : pystr) :
  1 <= max_workers self ->
  snd (process self c files question) <> Diverged.
Proof.
  intros Hworkers.
  destruct (Nat.eq_dec (length files) 1) as [Hone|Hmore].
  - destruct files as [|file [|f2 rest]]; try discriminate Hone.
    apply _process_file_ends. exact Hworkers.
  - rewrite (several_files self c files question Hmore).
    pose proof (gather_outcome None (file_order c)
                  (file_tasks self c O files question)
                  ltac:(intros n E; discriminate E)
                  (file_tasks_end self c question files O Hworkers)) as Hgather.
    destruct (gather None (file_order c) (file_tasks self c O files question))
      as [evs [results|e|]].
    + cbv zeta. cbn [snd]. destruct (snd (stream_async _ _)); discriminate.
    + discriminate.
    + contradiction.
Qed.

(** ** Runs in which every analysis succeeds *)

Lemma values_of_map {A C : Type} (make : A -> task C) (value : A -> C)
    (xs : list A) :
  (forall x, In x xs -> snd (on_finish (make x)) = Returned (value x)) ->
  values_of (map make xs) = Some (map value xs).
Proof.
  induction xs as [|x xs IH]; intros Hall; simpl; [reflexivity|].
  rewrite (Hall x (or_introl eq_refl)).
  rewrite IH; [reflexivity|]. intros y Hy. apply Hall. right. exact Hy.
Qed.

Lemma flat_map_map_in {A C D : Type} (make : A -> C) (f : C -> list D)
    (g : A -> list D) (xs : list A) :
  (forall x, In x xs -> f (make x) = g x) ->
  flat_map f (map make xs) = flat_map g xs.
Proof.
  induction xs as [|x xs IH]; intros Hall; simpl; [reflexivity|].
  rewrite (Hall x (or_introl eq_refl)).
  rewrite IH; [reflexivity|]. intros y Hy. apply Hall. right. exact Hy.
Qed.

Lemma enumerate_values {A : Type} (value : Z -> A -> pystr) (xs : list A) :
  forall start,
    map (fun '(j, x) => (j, value j x)) (enumerate_from start xs)
    = enumerate_from start
        (map (fun '(j, x) => value j x) (enumerate_from start xs)).
Proof.
  induction xs as [|x xs IH]; intros start; simpl; [reflexivity|].
  rewrite IH. reflexivity.
Qed.

(** X19: a chunked run in which every analysis answers, with at least
    one worker slot.  After the records of the splitter and the start
    hooks with the number of chunks come the events of the analyses, in an
    order that depends on the completions: for every chunk, once, the
    chunk-start hooks, one request to an agent with the prompt for chunks
    whose document is that chunk under the name of the file followed by
    an underscore and the number of the chunk, and the chunk-end hooks
    with the answer.  Then the end hooks, the records of the
    consolidation, and one streamed request whose text is built from the
    answers in the order of the chunks, whatever the order of the
    completions; its fragments go to the caller. *)
Theorem chunked_run_trace (self : DocumentProcessor) (order : list nat)
    (file_bytes : bytes) (file : DocumentFile) (question : pystr)
    (with_callback : bool) (records : list log_record) (chunks : list bytes)
    (answer : Z -> bytes -> pystr) :
  let name := Sanitize.sanitize_filename (file_name file) in
  let analyst := CreatedAgent (model self) SYSTEM_CHUNK_PROMPT false in
  let request_of := fun (j : Z) (c : bytes) =>
    [ {| role := of_string "user";
         content_list :=
           [Document (tl (suffix_lower (file_path file)))
              (name ++ of_string "_" ++ str_of_int j) c;
            Text (chunk_text question)] |} ] in
  let numbered := enumerate_from 1 chunks in
  let total := Z.of_nat (length chunks) in
  let responses := map (fun '(j, c) => answer j c) numbered in
  let consolidated := _consolidate_and_truncate responses total in
  let agent := CreatedAgent (model self) SYSTEM_PROMPT with_callback in
  let final_payload :=
    [ {| role := of_string "user";
         content_list :=
           [Text (final_text total (snd consolidated) question)] |} ] in
  let summary := stream_async agent final_payload in
  handler_split (get_handler (file_path file)) file_bytes
  = (records, Returned chunks) ->
  1 <= max_workers self ->
  (forall j c, In (j, c) numbered ->
               invoke_async analyst (request_of j c) = Ok (answer j c)) ->
  exists analyses,
    _process_big self order file_bytes file question with_callback
    = (map log records
       ++ map (fun l => on_processing_start l name total) (listeners self)
       ++ analyses
       ++ map (fun l => on_processing_end l name) (listeners self)
       ++ map log (fst consolidated)
       ++ stream_request agent final_payload
          :: flat_map fragment_of (fst summary),
       match snd summary with
       | Ok _ => Returned tt
       | Err e => Raised e
       end)
    /\ Permutation analyses
         (flat_map
            (fun '(j, c) =>
               map (fun l => on_chunk_start l j name) (listeners self)
               ++ [invoke_request analyst (request_of j c)])
            numbered
          ++ flat_map
               (fun '(j, c) =>
                  map (fun l => on_chunk_end l j name (answer j c))
                    (listeners self))
               numbered).
Proof.
  intros name analyst request_of numbered total responses consolidated agent
    final_payload summary Hsplit Hworkers Hok.
  rewrite (_process_big_spec self order file_bytes file question with_callback
             records chunks Hsplit ltac:(lia)).
  cbv zeta. fold name. fold numbered. fold total. fold agent.
  rewrite handler_format_of_path.
  set (make := fun '(j, c) =>
                 _process_chunk self c j name question
                   (tl (suffix_lower (file_path file)))).
  assert (Hfinish : forall j c, In (j, c) numbered ->
             on_finish (make (j, c))
             = (map (fun l => on_chunk_end l j name (answer j c)) (listeners self),
                Returned (j, answer j c))).
  { intros j c Hin. unfold make. rewrite _process_chunk_finish. cbv zeta.
    change (invoke_async (_create_agent self SYSTEM_CHUNK_PROMPT false)
              (_create_document_message (tl (suffix_lower (file_path file)))
                 (name ++ of_string "_" ++ str_of_int j) c (chunk_text question)))
      with (invoke_async analyst (request_of j c)).
    rewrite (Hok j c Hin). reflexivity. }
  assert (Hends : Forall ends (map make numbered)).
  { apply Forall_forall. intros t Ht. apply in_map_iff in Ht.
    destruct Ht as [[j c] [<- _]]. apply _process_chunk_ends. }
  pose proof (gather_outcome (Some (Z.to_nat (max_workers self))) order
                (map make numbered)
                ltac:(intros n E; inversion E; lia) Hends) as Hgather.
  destruct (gather (Some (Z.to_nat (max_workers self))) order (map make numbered))
    as [evs [results|e|]].
  - destruct Hgather as [Hvalues Hperm].
    rewrite (values_of_map make (fun '(j, c) => (j, answer j c)) numbered)
      in Hvalues.
    2:{ intros [j c] Hin. rewrite (Hfinish j c Hin). reflexivity. }
    injection Hvalues as Hresults.
    assert (Henum : results = enumerate_from 1 responses)
      by (rewrite <- Hresults; apply (enumerate_values answer chunks 1)).
    rewrite Henum.
    rewrite (ReductionFacts.sort_results_of_arrangement responses
               (enumerate_from 1 responses) (Permutation_refl _)).
    rewrite ReductionFacts.enumerate_from_texts.
    fold consolidated. fold final_payload. fold summary.
    exists evs. split.
    + rewrite <- !app_assoc. reflexivity.
    + eapply Permutation_trans; [exact Hperm|].
      rewrite (flat_map_map_in make on_start
                 (fun '(j, c) =>
                    map (fun l => on_chunk_start l j name) (listeners self)
                    ++ [invoke_request analyst (request_of j c)]) numbered).
      2:{ intros [j c] _. reflexivity. }
      rewrite (flat_map_map_in make finish_events
                 (fun '(j, c) =>
                    map (fun l => on_chunk_end l j name (answer j c))
                      (listeners self)) numbered).
      2:{ intros [j c] Hin. unfold finish_events.
          rewrite (Hfinish j c Hin). reflexivity. }
      apply Permutation_refl.
  - exfalso. destruct Hgather as [t [Hin Hraised]].
    apply in_map_iff in Hin. destruct Hin as [[j c] [<- Hin]].
    rewrite (Hfinish j c Hin) in Hraised. discriminate Hraised.
  - contradiction.
Qed.

(** ** Several files *)

Lemma values_of_all {A : Type} (tasks : list (task A)) :
  forall l, values_of tasks = Some l -> forall t, In t tasks -> succeeded t.
Proof.
  induction tasks as [|t0 ts IH]; intros l Hvalues t Hin; [destruct Hin|].
  simpl in Hvalues.
  destruct (snd (on_finish t0)) as [a| |] eqn:Ht0; try discriminate Hvalues.
  destruct (values_of ts) as [l'|] eqn:Hts; [|discriminate Hvalues].
  destruct Hin as [<-|Hin]; [exists a; exact Ht0|].
  apply (IH l' eq_refl). exact Hin.
Qed.

Lemma collected_values (self : DocumentProcessor) (c : completion)
    (question : pystr) (files : list DocumentFile) :
  forall position texts,
    collected self c position files question texts ->
    values_of (file_tasks self c position files question) = Some texts
    /\ Forall ends (file_tasks self c position files question).
Proof.
  induction files as [|file rest IH]; intros position [|text texts]; simpl;
    try contradiction.
  - intros _. split; [reflexivity | constructor].
  - intros [Hhere Hrest]. destruct (IH _ _ Hrest) as [Hvalues Hends].
    rewrite Hhere, Hvalues. split; [reflexivity|].
    constructor; [|exact Hends]. unfold ends. cbn [on_finish].
    rewrite Hhere. discriminate.
Qed.

(** X20: a request with no file or with several, all of which are
    processed to their end.  Whatever the order in which the files
    complete, the listeners are told that the summary starts only after
    the events of all files, and the one request to the agent of the
    processor has as its content the texts collected from the files, in
    the order of the files.  Of the events of the files, none hands
    anything to the caller, who gets the fragments of the summary alone. *)
Theorem several_files_summary (self : DocumentProcessor) (c : completion)
    (files : list DocumentFile) (question : pystr) (texts : list pystr) :
  let messages :=
    [ {| role := of_string "user"; content_list := map Text texts |} ] in
  let summary := stream_async SelfAgent messages in
  length files <> 1%nat ->
  collected self c O files question texts ->
  exists of_files,
    process self c files question
    = (of_files ++ map on_summary_start (listeners self)
       ++ stream_request SelfAgent messages
          :: flat_map fragment_of (fst summary)
       ++ match snd summary with
          | Ok _ => map on_summary_end (listeners self)
          | Err _ => []
          end,
       match snd summary with
       | Ok _ => Returned tt
       | Err e => Raised e
       end)
    /\ Forall (fun ev => silent ev /\ of_one_file ev) of_files
    /\ fragments_of (fst (process self c files question))
       = fragments_of (flat_map fragment_of (fst summary)).
Proof.
  intros messages summary Hlen Hcollected.
  destruct (collected_values self c question files O texts Hcollected)
    as [Hvalues Hends].
  rewrite (several_files self c files question Hlen).
  pose proof (gather_outcome None (file_order c)
                (file_tasks self c O files question)
                ltac:(intros n E; discriminate E) Hends) as Hgather.
  destruct (file_tasks_events (fun ev => silent ev /\ of_one_file ev) self c
              question files O (fun order file =>
                _collect_file_content_events self order file question))
    as [Hstarts Hfinishes].
  pose proof (gather_events (fun ev => silent ev /\ of_one_file ev) None
                (file_order c) (file_tasks self c O files question)
                Hstarts Hfinishes) as Hevents.
  destruct (gather None (file_order c) (file_tasks self c O files question))
    as [evs [results|e|]]; cbn [fst] in Hevents.
  - destruct Hgather as [Hresults _]. rewrite Hvalues in Hresults.
    inversion Hresults; subst results. cbv zeta.
    fold messages. fold summary.
    exists evs. split; [reflexivity|]. split; [exact Hevents|].
    cbn [fst]. unfold fragments_of. rewrite !flat_map_app.
    assert (Hnone : forall l, Forall (fun ev => is_yielded ev = false) l ->
                      flat_map (fun ev => match ev with
                                          | yielded s => [s]
                                          | _ => []
                                          end) l = []).
    { induction 1 as [|ev l Hev _ IH]; simpl; [reflexivity|].
      rewrite IH. destruct ev; try reflexivity. discriminate Hev. }
    rewrite (Hnone evs).
    2:{ eapply Forall_impl; [|exact Hevents]. intros ev [Hsilent _]. exact Hsilent. }
    rewrite (Hnone (map on_summary_start (listeners self))).
    2:{ apply hooks_all. intros l. reflexivity. }
    cbn [flat_map app]. rewrite flat_map_app.
    rewrite (Hnone (match snd summary with
                    | Ok _ => map on_summary_end (listeners self)
                    | Err _ => []
                    end)).
    2:{ destruct (snd summary); [|constructor].
        apply hooks_all. intros l. reflexivity. }
    rewrite app_nil_r. reflexivity.
  - exfalso. destruct Hgather as [t [Hin Hraised]].
    destruct (values_of_all _ _ Hvalues t Hin) as [a Ha].
    rewrite Ha in Hraised. discriminate Hraised.
  - contradiction.
Qed.

(** X21: a request with several files of which one cannot be processed,
    with at least one worker slot: the request raises the error of a file
    that failed, and there is no summary: no summary hook is called, no
    request goes to the agent of the processor, and nothing at all is
    handed to the caller, not even from the files that were processed. *)
Theorem several_files_failure (self : DocumentProcessor) (c : completion)
    (files : list DocumentFile) (question : pystr) (i : nat)
    (file : DocumentFile) (e : exn) :
  1 <= max_workers self ->
  length files <> 1%nat ->
  nth_error files i = Some file ->
  snd (_collect_file_content self (chunk_order c i) file question) = Raised e ->
  exists e' j file',
    snd (process self c files question) = Raised e'
    /\ nth_error files j = Some file'
    /\ snd (_collect_file_content self (chunk_order c j) file' question)
       = Raised e'
    /\ Forall (fun ev => silent ev /\ of_one_file ev)
         (fst (process self c files question)).
Proof.
  intros Hworkers Hlen Hnth Hfails.
  rewrite (several_files self c files question Hlen).
  pose proof (gather_outcome None (file_order c)
                (file_tasks self c O files question)
                ltac:(intros n E; discriminate E)
                (file_tasks_end self c question files O Hworkers)) as Hgather.
  destruct (file_tasks_events (fun ev => silent ev /\ of_one_file ev) self c
              question files O (fun order file =>
                _collect_file_content_events self order file question))
    as [Hstarts Hfinishes].
  pose proof (gather_events (fun ev => silent ev /\ of_one_file ev) None
                (file_order c) (file_tasks self c O files question)
                Hstarts Hfinishes) as Hevents.
  destruct (gather None (file_order c) (file_tasks self c O files question))
    as [evs [results|e'|]]; cbn [fst] in Hevents.
  - exfalso. destruct Hgather as [Hvalues _].
    destruct (file_tasks_at self c question files O i file Hnth)
      as [t [Hin Hf]]. simpl in Hf.
    destruct (values_of_all _ _ Hvalues t Hin) as [a Ha].
    rewrite Hf, Hfails in Ha. discriminate Ha.
  - destruct Hgather as [t [Hin Hraised]].
    destruct (file_tasks_spec _ _ _ _ _ _ Hin) as [j [file' [Hj [_ Hf]]]].
    simpl in Hf. rewrite Hf in Hraised.
    exists e', j, file'. repeat split; assumption.
  - contradiction.
Qed.

(** X22: a request with exactly one file is the processing of that
    file, handed on to the caller as it is: no summary hook is called and
    no request goes to the agent the processor was constructed with, for
    a small file as for a split one, on success as on failure. *)
Theorem single_file_no_summary (self : DocumentProcessor) (c : completion)
    (file : DocumentFile) (question : pystr) :
  process self c [file] question
  = _process_file self (chunk_order c O) file question false
  /\ filter is_summary_hook (fst (process self c [file] question)) = []
  /\ filter to_self_agent (fst (process self c [file] question)) = [].
Proof.
  split; [reflexivity|].
  change (process self c [file] question)
    with (_process_file self (chunk_order c O) file question false).
  pose proof (_process_file_of_one_file self (chunk_order c O) file question false)
    as Hall.
  induction Hall as [|ev l [H1 H2] _ [IH1 IH2]]; simpl; [split; reflexivity|].
  rewrite H1, H2. split; assumption.
Qed.

(** ** A file without splitter *)

Lemma gather_one {A : Type} (capacity : nat) (order : list nat) (t : task A)
    (evs : list event) (a : A) :
  (1 <= capacity)%nat ->
  on_finish t = (evs, Returned a) ->
  gather (Some capacity) order [t] = (on_start t ++ evs, Returned [a]).
Proof.
  intros Hcap Hfinish. unfold gather.
  destruct capacity as [|k]; [lia|].
  cbn [length gather_loop option_map Nat.sub let_in app].
  rewrite Nat.mod_1_r. cbn [skipn firstn app]. rewrite Hfinish.
  cbn [length Nat.sub let_in app tl]. rewrite !app_nil_r.
  cbn [values_of]. rewrite Hfinish. reflexivity.
Qed.

(** X23: a file over the threshold whose format has no splitter is not
    made smaller: it is analysed whole, as chunk one of one, by an agent
    with the prompt for chunks, and the answer alone is the consolidated
    context of the final streamed request. *)
Theorem oversized_generic_file (self : DocumentProcessor) (order : list nat)
    (file_bytes : bytes) (file : DocumentFile) (question : pystr)
    (with_callback : bool) (format response : pystr) :
  let name := Sanitize.sanitize_filename (file_name file) in
  let analyst := CreatedAgent (model self) SYSTEM_CHUNK_PROMPT false in
  let request :=
    [ {| role := of_string "user";
         content_list :=
           [Document format (name ++ of_string "_" ++ str_of_int 1) file_bytes;
            Text (chunk_text question)] |} ] in
  let consolidated := _consolidate_and_truncate [response] 1 in
  let agent := CreatedAgent (model self) SYSTEM_PROMPT with_callback in
  let final_payload :=
    [ {| role := of_string "user";
         content_list := [Text (final_text 1 (snd consolidated) question)] |} ] in
  let summary := stream_async agent final_payload in
  get_handler (file_path file) = GenericHandler format ->
  1 <= max_workers self ->
  invoke_async analyst request = Ok response ->
  _process_big self order file_bytes file question with_callback
  = (map (fun l => on_processing_start l name 1) (listeners self)
     ++ map (fun l => on_chunk_start l 1 name) (listeners self)
     ++ invoke_request analyst request
        :: map (fun l => on_chunk_end l 1 name response) (listeners self)
     ++ map (fun l => on_processing_end l name) (listeners self)
     ++ map log (fst consolidated)
     ++ stream_request agent final_payload :: flat_map fragment_of (fst summary),
     match snd summary with
     | Ok _ => Returned tt
     | Err e => Raised e
     end).
Proof.
  intros name analyst request consolidated agent final_payload summary
    Hgeneric Hworkers Hok.
  assert (Hsplit : handler_split (get_handler (file_path file)) file_bytes
                   = ([], Returned [file_bytes]))
    by (rewrite Hgeneric; reflexivity).
  rewrite (_process_big_spec self order file_bytes file question with_callback
             [] [file_bytes] Hsplit ltac:(lia)).
  cbv zeta. fold name. fold agent. rewrite Hgeneric.
  cbn [handler_format enumerate_from map length Z.of_nat Pos.of_succ_nat app].
  rewrite (gather_one (Z.to_nat (max_workers self)) order
             (_process_chunk self file_bytes 1 name question format)
             (map (fun l => on_chunk_end l 1 name response) (listeners self))
             (1, response) ltac:(lia)).
  2:{ rewrite _process_chunk_finish. cbv zeta.
      change (invoke_async (_create_agent self SYSTEM_CHUNK_PROMPT false)
                (_create_document_message format
                   (name ++ of_string "_" ++ str_of_int 1) file_bytes
                   (chunk_text question)))
        with (invoke_async analyst request).
      rewrite Hok. reflexivity. }
  change (sort_results [(1, response)]) with [(1, response)].
  cbn [map snd]. fold consolidated. fold final_payload. fold summary.
  unfold _process_chunk. cbn [on_start].
  unfold _notify_chunk_start, emit. cbn [fst].
  rewrite <- !app_assoc. reflexivity.
Qed.


End WithWorld.

Import Example.

Lemma small_file_trace_witness :
  snd (_process_file (processor "model" [7%N]) [] (file 3 "note.txt") question
         false) = Returned tt
  /\ fragments_of
       (fst (_process_file (processor "model" [7%N]) [] (file 3 "note.txt")
               question false))
     = [of_string "answer"; [NL]].
Proof.
  rewrite (small_file_trace (processor "model" [7%N]) [] (file 3 "note.txt")
             question false corrupt_small eq_refl
             ltac:(vm_compute; discriminate)).
  split; vm_compute; reflexivity.
Defined.

Lemma chunked_run_without_slot_witness :
  _process_big (Scenes.processor_with (-1)) [] two_pages (file 5 "two.pdf")
    question false
  = ([on_processing_start 7%N (of_string "two pdf") 2], Raised ValueError)
  /\ _process_big (Scenes.processor_with 0) [] two_pages (file 5 "two.pdf")
       question false
     = ([on_processing_start 7%N (of_string "two pdf") 2], Diverged).
Proof.
  assert (Hsplit : handler_split (get_handler (file_path (file 5 "two.pdf")))
                     two_pages
                   = ([], Returned [pack [page 2000000]; pack [page 2000002]]))
    by (vm_compute; reflexivity).
  split.
  - pose proof (chunked_run_without_slot (Scenes.processor_with (-1))
                  [] two_pages (file 5 "two.pdf") question false []
                  [pack [page 2000000]; pack [page 2000002]] Hsplit) as H.
    cbv zeta in H. destruct H as [H _].
    rewrite H; [vm_compute; reflexivity | simpl; lia].
  - pose proof (chunked_run_without_slot (Scenes.processor_with 0)
                  [] two_pages (file 5 "two.pdf") question false []
                  [pack [page 2000000]; pack [page 2000002]] Hsplit) as H.
    cbv zeta in H. destruct H as [_ H].
    rewrite H; [vm_compute; reflexivity | reflexivity | discriminate].
Defined.

Lemma process_ends_witness :
  snd (process (processor "model" [7%N]) last_first
         [file 1 "report_v2.pdf"; file 3 "note.txt"] question) <> Diverged.
Proof. apply process_ends. simpl. lia. Defined.

Lemma chunked_run_trace_witness :
  exists analyses : list event,
    snd (_process_big (processor "model" [7%N]) [1; 0]%nat two_pages
           (file 5 "two.pdf") question false) = Returned tt
    /\ length analyses = 6%nat.
Proof.
  destruct (chunked_run_trace (processor "model" [7%N]) [1; 0]%nat two_pages
              (file 5 "two.pdf") question false []
              [pack [page 2000000]; pack [page 2000002]]
              (fun j _ => of_string "analysis of two pdf_" ++ str_of_int j))
    as [analyses [Hrun Hperm]].
  - vm_compute. reflexivity.
  - simpl. lia.
  - intros j c Hin. simpl in Hin.
    destruct Hin as [E|[E|[]]]; inversion E; subst; vm_compute; reflexivity.
  - exists analyses. rewrite Hrun. split; [vm_compute; reflexivity|].
    apply Permutation_length in Hperm. exact Hperm.
Defined.

Lemma several_files_summary_witness :
  exists of_files : list event,
    snd (process (processor "model" [7%N]) last_first
           [file 3 "note.txt"; file 5 "two.pdf"] question) = Returned tt
    /\ Forall (fun ev => silent ev /\ of_one_file ev) of_files
    /\ fragments_of
         (fst (process (processor "model" [7%N]) last_first
                 [file 3 "note.txt"; file 5 "two.pdf"] question))
       = [of_string "summary"].
Proof.
  destruct (several_files_summary (processor "model" [7%N]) last_first
              [file 3 "note.txt"; file 5 "two.pdf"] question
              [of_string "answer" ++ [NL]; of_string "answer" ++ [NL]])
    as [of_files [Hrun [Hsilent Hfragments]]].
  - discriminate.
  - cbn [collected].
    split; [vm_compute; reflexivity|]. split; [vm_compute; reflexivity | exact I].
  - exists of_files. split; [rewrite Hrun; vm_compute; reflexivity|].
    split; [exact Hsilent|]. rewrite Hfragments. vm_compute. reflexivity.
Defined.

Lemma several_files_failure_witness :
  exists e' j file',
    snd (process (processor "model" [7%N]) in_order
           [file 3 "note.txt"; file 2 "bad.xlsx"] question) = Raised e'
    /\ nth_error [file 3 "note.txt"; file 2 "bad.xlsx"] j = Some file'
    /\ Forall (fun ev => silent ev /\ of_one_file ev)
         (fst (process (processor "model" [7%N]) in_order
                 [file 3 "note.txt"; file 2 "bad.xlsx"] question)).
Proof.
  destruct (several_files_failure (processor "model" [7%N]) in_order
              [file 3 "note.txt"; file 2 "bad.xlsx"] question 1%nat
              (file 2 "bad.xlsx") (XLSXSplitError (External 2)))
    as [e' [j [file' [Hrun [Hj [_ Hevents]]]]]].
  - simpl. lia.
  - discriminate.
  - reflexivity.
  - vm_compute. reflexivity.
  - exists e', j, file'. repeat split; assumption.
Defined.

Lemma oversized_generic_file_witness :
  snd (_process_big (processor "model" [7%N]) [] corrupt_large
         (file 3 "note.txt") question false) = Returned tt
  /\ filter is_stream_request
       (fst (_process_big (processor "model" [7%N]) [] corrupt_large
               (file 3 "note.txt") question false))
     = [stream_request (CreatedAgent (of_string "model") SYSTEM_PROMPT false)
          [ {| role := of_string "user";
               content_list :=
                 [Text (final_text 1 (of_string "analysis of note txt_1")
                          question)] |} ]].
Proof.
  rewrite (oversized_generic_file (processor "model" [7%N]) [] corrupt_large
             (file 3 "note.txt") question false (of_string "txt")
             (of_string "analysis of note txt_1")
             ltac:(vm_compute; reflexivity) ltac:(simpl; lia)
             ltac:(vm_compute; reflexivity)).
  split; vm_compute; reflexivity.
Defined.

End RunFacts.
